(** * rancher1.x-exporter: the scrape and lifecycle-accounting engine of metrics.go

    A shallow embedding of [metrics.go].  The Go program keeps a tree
    project -> stack -> service -> instance whose nodes are struct values that
    embed a pointer [*object] and hold a Go map of children.  A struct copy
    therefore shares the object and the child map with the original but has
    its own [System] and [StartupTime] fields.  The embedding keeps exactly
    that: objects and maps live in a store and are named by locations, the
    structs are plain records holding locations.

    The Prometheus vectors, the HTTP client and the JSON decoder are libraries
    the program calls.  A vector is a finite map from label tuples to the
    number it holds, and a conversion [float64(x)] of the program rounds as
    the hardware does.  An HTTP exchange is answered by a world oracle.  A
    response body is a document, and [Decode] leaves behind what
    [encoding/json] can make of it: the embedded [*object] of a stored node
    is never filled.

    The goroutines of a loop run here one after the other, in the order of
    the loop.  Where a result depends on that, it says so. *)

From stdpp Require Import gmap strings list fin_maps.
From Stdlib Require Import ZArith Lia.

Local Open Scope Z_scope.

(** ** Machine integers *)

(** [uint64] arithmetic of Go: sums and differences wrap around silently. *)
Definition uint64_max : Z := 18446744073709551615.
Definition add64 (x y : Z) : Z := (x + y) mod 18446744073709551616.
Definition sub64 (x y : Z) : Z := (x - y) mod 18446744073709551616.

(** ** Floating point *)

(** The vectors hold [float64] values.  Every value this program hands to a
    vector is a whole number, and a vector is given here by the whole number
    it holds.  [float64(x)] of an integer [x] is the nearest number with a
    mantissa of 53 bits, half-way cases going to the even mantissa: below
    2^53 it is [x] itself, above it the low bits of [x] are rounded away. *)
Definition float64 (x : Z) : Z :=
  let a := Z.abs x in
  let e := Z.log2 a - 52 in
  if e <=? 0 then x
  else
    let q := Z.shiftr a e in
    let r := Z.land a (Z.ones e) in
    let half := Z.shiftl 1 (e - 1) in
    let q' := if (half <? r) || ((r =? half) && Z.odd q) then q + 1 else q in
    Z.sgn x * Z.shiftl q' e.

(** [strconv.FormatBool] *)
Definition FormatBool (b : bool) : string := if b then "true" else "false".

(** ** Constants and enumerations (lines 16-31) *)

Definition genericobjectKind : string := "rancherMetrics".

Definition agentStates : list string :=
  ["activating"; "active"; "reconnecting"; "disconnected"; "disconnecting";
   "finishing-reconnect"; "reconnected"].
Definition hostStates : list string :=
  ["activating"; "active"; "deactivating"; "error"; "erroring"; "inactive";
   "provisioned"; "purged"; "purging"; "registering"; "removed"; "removing";
   "requested"; "restoring"; "updating_active"; "updating_inactive"].
Definition stackStates : list string :=
  ["activating"; "active"; "canceled_upgrade"; "canceling_upgrade"; "error";
   "erroring"; "finishing_upgrade"; "removed"; "removing"; "requested";
   "restarting"; "rolling_back"; "updating_active"; "upgraded"; "upgrading"].
Definition serviceStates : list string :=
  ["activating"; "active"; "canceled_upgrade"; "canceling_upgrade";
   "deactivating"; "finishing_upgrade"; "inactive"; "registering"; "removed";
   "removing"; "requested"; "restarting"; "rolling_back"; "updating_active";
   "updating_inactive"; "upgraded"; "upgrading"].
Definition healthStates : list string := ["healthy"; "unhealthy"].

(** ** The metric vectors (lines 33-149) *)

Inductive metricVar : Set :=
| infinityWorksHostsState
| infinityWorksHostAgentsState
| infinityWorksStacksHealth
| infinityWorksStacksState
| infinityWorksServicesScale
| infinityWorksServicesHealth
| infinityWorksServicesState
| extendingTotalStackBootstrap
| extendingTotalStackFailure
| extendingTotalServiceBootstrap
| extendingTotalServiceFailure
| extendingTotalInstanceBootstrap
| extendingTotalInstanceFailure
| extendingInstanceBootstrapMsCost
| extendingStackHeartbeat
| extendingServiceHeartbeat
| extendingInstanceHeartbeat.

#[global] Instance metricVar_eq_dec : EqDecision metricVar.
Proof. solve_decision. Defined.

(** The vectors declared with [NewCounterVec]; the others are gauges. *)
Definition is_counter (v : metricVar) : bool :=
  match v with
  | extendingTotalStackBootstrap | extendingTotalStackFailure
  | extendingTotalServiceBootstrap | extendingTotalServiceFailure
  | extendingTotalInstanceBootstrap | extendingTotalInstanceFailure => true
  | _ => false
  end.

(** A vector: one number per label tuple that was ever asked for. *)
Abbreviation labels := (list string).
Abbreviation vec := (gmap (list string) Z).

(** ** Data model (lines 213-275, 392-400, 545-551, 693-699) *)

Abbreviation loc := positive.

Module object.
Record t : Type := mk {
    Id : string;
    Name : string;
    State : string;
    Type_ : string;
    BootstrapCount : Z;
    FailureCount : Z
  }.
Definition set_Id (v : string) (o : t) : t :=
    mk v (Name o) (State o) (Type_ o) (BootstrapCount o) (FailureCount o).
Definition set_State (v : string) (o : t) : t :=
    mk (Id o) (Name o) v (Type_ o) (BootstrapCount o) (FailureCount o).
Definition set_Type (v : string) (o : t) : t :=
    mk (Id o) (Name o) (State o) v (BootstrapCount o) (FailureCount o).
Definition set_BootstrapCount (v : Z) (o : t) : t :=
    mk (Id o) (Name o) (State o) (Type_ o) v (FailureCount o).
Definition set_FailureCount (v : Z) (o : t) : t :=
    mk (Id o) (Name o) (State o) (Type_ o) (BootstrapCount o) v.
End object.

(** The structs.  [object] is the location of the embedded [*object], the map
    field is the location of the Go map, [parent] is the struct the parent
    pointer refers to (a copy nobody writes to after it was taken). *)
Module project.
Record t : Type := mk { object : loc; Stacks : loc }.
End project.

Module stack.
Record t : Type := mk {
    object : loc; Services : loc; System : bool; parent : project.t }.
Definition set_System (v : bool) (o : t) : t :=
    mk (object o) (Services o) v (parent o).
End stack.

Module service.
Record t : Type := mk {
    object : loc; Instances : loc; System : bool; parent : stack.t }.
Definition set_System (v : bool) (o : t) : t :=
    mk (object o) (Instances o) v (parent o).
End service.

Module instance.
Record t : Type := mk {
    object : loc; System : bool; StartupTime : Z; parent : service.t }.
Definition set_System (v : bool) (o : t) : t :=
    mk (object o) v (StartupTime o) (parent o).
Definition set_StartupTime (v : Z) (o : t) : t :=
    mk (object o) (System o) v (parent o).
End instance.

(** What [json.Decode] leaves behind a [ResourceData *project]: structs whose
    objects and maps nothing else refers to, kept as a tree.  An embedded
    [*object] the decoder did not fill is [None]. *)
Module stored.
Record instance : Type := mkInstance {
    i_object : option object.t; i_System : bool; i_StartupTime : Z }.
Record service : Type := mkService {
    sv_object : option object.t; sv_Instances : gmap string instance;
    sv_System : bool }.
Record stack : Type := mkStack {
    st_object : option object.t; st_Services : gmap string service;
    st_System : bool }.
Record project : Type := mkProject {
    p_object : option object.t; p_Stacks : gmap string stack }.
End stored.

Module targetData.
Record t : Type := mk {
    HealthState : string;
    Key : string;
    Name : string;
    State : string;
    System : bool;
    Scale : Z;
    HostName : string;
    ID : string;
    StackID : string;
    EnvID : string;
    Type_ : string;
    AgentState : string;
    CreatedTS : Z;
    FirstRunningTS : Z;
    ResourceData : option stored.project
  }.
End targetData.

Module targetPagination.
Record t : Type := mk { Next : string }.
End targetPagination.

(** [Data []*targetData] and [Pagination *targetPagination]: every pointer
    may be nil. *)
Module target.
Record t : Type := mk {
    Data : list (option targetData.t);
    Pagination : option targetPagination.t
  }.
(** [var t target] *)
Definition zero : t := mk [] None.
End target.

(** ** The world the client talks to *)

(** The body of a response: the document its text spells out, read as a
    [target], and whether the text breaks off or is no JSON at all (then
    [document] is what the decoder had read by then). *)
Record body : Type := mkBody { document : target.t; malformed : bool }.

(** What [json.NewDecoder(resp.Body).Decode(&t)] makes of a document.
    [project], [stack], [service] and [instance] embed [*object], a pointer
    to a struct type that is not exported: the decoder cannot allocate it.
    A key of the document that names a field of the embedded struct ("id",
    "name", "state", "type", "bootstrapCount", "failureCount") is skipped
    with the error "cannot set embedded pointer to unexported struct"
    remembered, the pointer stays nil, and the rest of the document is
    decoded as usual; [Decode] returns the error at the end. *)
Module json.
Definition instance (i : stored.instance) : stored.instance :=
  stored.mkInstance None (stored.i_System i) (stored.i_StartupTime i).
Definition service (v : stored.service) : stored.service :=
  stored.mkService None (instance <$> stored.sv_Instances v)
                   (stored.sv_System v).
Definition stack (k : stored.stack) : stored.stack :=
  stored.mkStack None (service <$> stored.st_Services k) (stored.st_System k).
Definition project (p : stored.project) : stored.project :=
  stored.mkProject None (stack <$> stored.p_Stacks p).
Definition targetData (d : targetData.t) : targetData.t :=
  targetData.mk (targetData.HealthState d) (targetData.Key d)
    (targetData.Name d) (targetData.State d) (targetData.System d)
    (targetData.Scale d) (targetData.HostName d) (targetData.ID d)
    (targetData.StackID d) (targetData.EnvID d) (targetData.Type_ d)
    (targetData.AgentState d) (targetData.CreatedTS d)
    (targetData.FirstRunningTS d) (project <$> targetData.ResourceData d).
Definition target (t : target.t) : target.t :=
  target.mk ((λ od : option targetData.t, targetData <$> od) <$> target.Data t)
            (target.Pagination t).

(** Does the document give a field of an embedded object somewhere? *)
Definition any_of {A} (f : A → bool) (m : gmap string A) : bool :=
  existsb (λ kv, f kv.2) (map_to_list m).
Definition names_instance (i : stored.instance) : bool :=
  bool_decide (is_Some (stored.i_object i)).
Definition names_service (v : stored.service) : bool :=
  bool_decide (is_Some (stored.sv_object v))
  || any_of names_instance (stored.sv_Instances v).
Definition names_stack (k : stored.stack) : bool :=
  bool_decide (is_Some (stored.st_object k))
  || any_of names_service (stored.st_Services k).
Definition names_project (p : stored.project) : bool :=
  bool_decide (is_Some (stored.p_object p))
  || any_of names_stack (stored.p_Stacks p).
Definition names_object (t : target.t) : bool :=
  existsb (λ od, match od ≫= targetData.ResourceData with
                 | Some p => names_project p
                 | None => false
                 end) (target.Data t).
End json.

(** What [Decode(&t)] wrote into [t] and whether it returned an error. *)
Definition decoded (b : body) : target.t := json.target (document b).
Definition decode_err (b : body) : bool :=
  malformed b || json.names_object (document b).

(** The outcome of a GET as [rancherClient.get] sees it. *)
Inductive transport : Type :=
| BadRequest                    (* http.NewRequest returned nil, err *)
| Failed (resp : option body)   (* client.Do returned an error; resp is nil
                                   unless a redirect policy stopped it *)
| Replied (b : body).           (* client.Do returned resp, nil *)

(** The outcome of a POST as [rancherClient.post] sees it. *)
Inductive postTransport : Type :=
| PostBadRequest
| PostFailed
| PostReplied (StatusCode : Z).

(** The body of a POST to /genericobjects: the map [data] of [backup]. *)
Record postBody : Type := mkPostBody {
  pb_kind : string; pb_name : string; pb_key : string;
  pb_resourceData : project.t }.

(** The world answers the n-th request of the process. *)
Record world : Type := mkWorld {
  http_get : nat → string → transport;
  http_post : nat → string → option postBody → postTransport }.

Definition StatusCreated : Z := 201.
Definition StatusAccepted : Z := 202.

(** ** Program state and execution trace *)

Inductive level : Set := LvlError | LvlWarn.

(** What a run leaves in its trace: the lines logged at error and warning
    level, the POSTs sent with their result, every observation of a child
    node with the state stored for it (if any) and the state observed, and
    every [+= 1] on a counter field with the value it was applied to. *)
Inductive event : Type :=
| Logged (l : level)
| Posted (url : string) (b : option postBody) (StatusCode : Z) (err : bool)
| Seen (stored : option string) (observed : string)
| Incremented (old : Z).

Record state : Type := mkState {
  objects : gmap loc object.t;
  instanceMaps : gmap loc (gmap string instance.t);
  serviceMaps : gmap loc (gmap string service.t);
  stackMaps : gmap loc (gmap string stack.t);
  Projects : gmap string project.t;         (* metric.Projects *)
  registry : metricVar → vec;
  clock : nat;                              (* requests sent so far *)
  trace : list event                        (* newest first *)
}.

Definition set_objects (f : gmap loc object.t → gmap loc object.t) (s : state) :=
  mkState (f (objects s)) (instanceMaps s) (serviceMaps s) (stackMaps s)
          (Projects s) (registry s) (clock s) (trace s).
Definition set_instanceMaps f (s : state) :=
  mkState (objects s) (f (instanceMaps s)) (serviceMaps s) (stackMaps s)
          (Projects s) (registry s) (clock s) (trace s).
Definition set_serviceMaps f (s : state) :=
  mkState (objects s) (instanceMaps s) (f (serviceMaps s)) (stackMaps s)
          (Projects s) (registry s) (clock s) (trace s).
Definition set_stackMaps f (s : state) :=
  mkState (objects s) (instanceMaps s) (serviceMaps s) (f (stackMaps s))
          (Projects s) (registry s) (clock s) (trace s).
Definition set_Projects f (s : state) :=
  mkState (objects s) (instanceMaps s) (serviceMaps s) (stackMaps s)
          (f (Projects s)) (registry s) (clock s) (trace s).
Definition set_registry (f : (metricVar → vec) → metricVar → vec) (s : state) :=
  mkState (objects s) (instanceMaps s) (serviceMaps s) (stackMaps s)
          (Projects s) (f (registry s)) (clock s) (trace s).
Definition set_clock (f : nat → nat) (s : state) :=
  mkState (objects s) (instanceMaps s) (serviceMaps s) (stackMaps s)
          (Projects s) (registry s) (f (clock s)) (trace s).
Definition set_trace (f : list event → list event) (s : state) :=
  mkState (objects s) (instanceMaps s) (serviceMaps s) (stackMaps s)
          (Projects s) (registry s) (clock s) (f (trace s)).

(** [newMetric] together with the freshly created vectors. *)
Definition newMetric : state :=
  mkState ∅ ∅ ∅ ∅ ∅ (λ _, ∅) 0%nat [].

(** ** The monad of the program *)

(** A call returns, panics, or is still inside a pagination loop when the
    fuel runs out. *)
Inductive outcome (A : Type) : Type :=
| Done (a : A)
| Panic
| Spin.
Arguments Done {A} a.
Arguments Panic {A}.
Arguments Spin {A}.

Definition M (A : Type) : Type := state → outcome A * state.

Definition ret {A} (a : A) : M A := λ s, (Done a, s).
Definition bind {A B} (m : M A) (f : A → M B) : M B := λ s,
  match m s with
  | (Done a, s') => f a s'
  | (Panic, s') => (Panic, s')
  | (Spin, s') => (Spin, s')
  end.
Definition panic {A} : M A := λ s, (Panic, s).
Definition spin {A} : M A := λ s, (Spin, s).
Definition gets {A} (f : state → A) : M A := λ s, (Done (f s), s).
Definition modify (f : state → state) : M unit := λ s, (Done tt, f s).

Notation "'let*' x ':=' m 'in' k" := (bind m (λ x, k))
  (at level 10, x binder, m at level 100, k at level 200,
   format "'[v' 'let*'  x  ':='  m  'in' '/' k ']'").
Notation "m ';;' k" := (bind m (λ _, k))
  (at level 100, k at level 200, right associativity,
   format "'[v' m ';;' '/' k ']'").

(** [for _, x := range l { f x }] *)
Fixpoint forM {A} (l : list A) (f : A → M unit) : M unit :=
  match l with
  | [] => ret tt
  | x :: l' => f x;; forM l' f
  end.

(** Dereferencing a pointer that may be nil. *)
Definition deref {A} (p : option A) : M A :=
  match p with Some a => ret a | None => panic end.

Definition emit (e : event) : M unit := modify (set_trace (cons e)).
Definition log (l : level) : M unit := emit (Logged l).

(** [defer func() { if err := recover(); err != nil { log.Error(err) } }()]
    around a body: a panic of the body is logged and the function returns.
    [recovered] also hands back what the body computed, if it got that far. *)
Definition recovered {A} (m : M A) : M (option A) := λ s,
  match m s with
  | (Done a, s') => (Done (Some a), s')
  | (Panic, s') => (log LvlError;; ret None) s'
  | (Spin, s') => (Spin, s')
  end.
Definition recovering (m : M unit) : M unit := recovered m;; ret tt.

(** ** Store operations *)

(** Reading through an [*object]. *)
Definition load_object (l : loc) : M object.t :=
  let* o := gets (λ s, objects s !! l) in deref o.

(** Assigning a field through an [*object]. *)
Definition update_object (l : loc) (f : object.t → object.t) : M unit :=
  let* o := load_object l in
  modify (set_objects <[l := f o]>).

(** [take.BootstrapCount += 1] and [take.FailureCount += 1] *)
Definition incr_BootstrapCount (l : loc) : M unit :=
  let* o := load_object l in
  emit (Incremented (object.BootstrapCount o));;
  modify (set_objects
    <[l := object.set_BootstrapCount (add64 (object.BootstrapCount o) 1) o]>).
Definition incr_FailureCount (l : loc) : M unit :=
  let* o := load_object l in
  emit (Incremented (object.FailureCount o));;
  modify (set_objects
    <[l := object.set_FailureCount (add64 (object.FailureCount o) 1) o]>).

(** [&object{...}] *)
Definition new_object (o : object.t) : M loc := λ s,
  let l := fresh (dom (objects s)) in (Done l, set_objects <[l := o]> s).

(** [make(map[string]instance, 100)] and its siblings *)
Definition make_instanceMap : M loc := λ s,
  let l := fresh (dom (instanceMaps s)) in
  (Done l, set_instanceMaps <[l := ∅]> s).
Definition make_serviceMap : M loc := λ s,
  let l := fresh (dom (serviceMaps s)) in
  (Done l, set_serviceMaps <[l := ∅]> s).
Definition make_stackMap : M loc := λ s,
  let l := fresh (dom (stackMaps s)) in
  (Done l, set_stackMaps <[l := ∅]> s).

(** [v, ok := m[k]]: a map that was never made reads as empty. *)
Definition lookup_instance (m : loc) (k : string) : M (option instance.t) :=
  gets (λ s, instanceMaps s !! m ≫= (.!! k)).
Definition lookup_service (m : loc) (k : string) : M (option service.t) :=
  gets (λ s, serviceMaps s !! m ≫= (.!! k)).
Definition lookup_stack (m : loc) (k : string) : M (option stack.t) :=
  gets (λ s, stackMaps s !! m ≫= (.!! k)).

(** [m[k] = v]: assignment to an entry of a map that was never made panics. *)
Definition insert_instance (m : loc) (k : string) (v : instance.t) : M unit :=
  let* c := gets (λ s, instanceMaps s !! m) in
  let* c := deref c in
  modify (set_instanceMaps <[m := <[k := v]> c]>).
Definition insert_service (m : loc) (k : string) (v : service.t) : M unit :=
  let* c := gets (λ s, serviceMaps s !! m) in
  let* c := deref c in
  modify (set_serviceMaps <[m := <[k := v]> c]>).
Definition insert_stack (m : loc) (k : string) (v : stack.t) : M unit :=
  let* c := gets (λ s, stackMaps s !! m) in
  let* c := deref c in
  modify (set_stackMaps <[m := <[k := v]> c]>).

(** [for _, d := range m]: the entries the map holds when the loop starts. *)
Definition range_services (m : loc) : M (list (string * service.t)) :=
  gets (λ s, map_to_list (default ∅ (serviceMaps s !! m))).
Definition range_stacks (m : loc) : M (list (string * stack.t)) :=
  gets (λ s, map_to_list (default ∅ (stackMaps s !! m))).
Definition range_Projects : M (list (string * project.t)) :=
  gets (λ s, map_to_list (Projects s)).

(** ** Vector operations *)

Definition vec_touch (ls : labels) (m : vec) : vec :=
  match m !! ls with Some _ => m | None => <[ls := 0]> m end.
Definition vec_set (ls : labels) (x : Z) (m : vec) : vec := <[ls := x]> m.
Definition vec_add (ls : labels) (x : Z) (m : vec) : vec :=
  <[ls := default 0 (m !! ls) + x]> m.

(** Are two vectors the same vector? *)
Definition same_vec (a b : metricVar) : bool :=
  match a, b with
  | infinityWorksHostsState, infinityWorksHostsState
  | infinityWorksHostAgentsState, infinityWorksHostAgentsState
  | infinityWorksStacksHealth, infinityWorksStacksHealth
  | infinityWorksStacksState, infinityWorksStacksState
  | infinityWorksServicesScale, infinityWorksServicesScale
  | infinityWorksServicesHealth, infinityWorksServicesHealth
  | infinityWorksServicesState, infinityWorksServicesState
  | extendingTotalStackBootstrap, extendingTotalStackBootstrap
  | extendingTotalStackFailure, extendingTotalStackFailure
  | extendingTotalServiceBootstrap, extendingTotalServiceBootstrap
  | extendingTotalServiceFailure, extendingTotalServiceFailure
  | extendingTotalInstanceBootstrap, extendingTotalInstanceBootstrap
  | extendingTotalInstanceFailure, extendingTotalInstanceFailure
  | extendingInstanceBootstrapMsCost, extendingInstanceBootstrapMsCost
  | extendingStackHeartbeat, extendingStackHeartbeat
  | extendingServiceHeartbeat, extendingServiceHeartbeat
  | extendingInstanceHeartbeat, extendingInstanceHeartbeat => true
  | _, _ => false
  end.

(** The registry with the vector [v] replaced by [f] of it. *)
Definition upd_reg (v : metricVar) (f : vec → vec) (r : metricVar → vec)
  : metricVar → vec :=
  λ v', if same_vec v' v then f (r v') else r v'.

Definition on_vec (v : metricVar) (f : vec → vec) : M unit :=
  modify (set_registry (upd_reg v f)).

(** [v.WithLabelValues(ls...)] alone creates the series at 0 when it is new. *)
Definition WithLabelValues (v : metricVar) (ls : labels) : M unit :=
  on_vec v (vec_touch ls).
(** [v.WithLabelValues(ls...).Set(x)] *)
Definition SetValue (v : metricVar) (ls : labels) (x : Z) : M unit :=
  on_vec v (vec_set ls x).
(** [v.WithLabelValues(ls...).Inc()] *)
Definition IncValue (v : metricVar) (ls : labels) : M unit :=
  on_vec v (vec_add ls 1).
(** [v.WithLabelValues(ls...).Add(x)] *)
Definition AddValue (v : metricVar) (ls : labels) (x : Z) : M unit :=
  on_vec v (vec_add ls x).
(** [v.Reset()] *)
Definition ResetVec (v : metricVar) : M unit := on_vec v (λ _, ∅).

(** The value a scrape of /metrics reads for a series: nothing when the
    series does not exist. *)
Definition value (s : state) (v : metricVar) (ls : labels) : option Z :=
  registry s v !! ls.

(** [len(x) == 0] on a string *)
Definition is_empty (x : string) : bool :=
  match x with EmptyString => true | String _ _ => false end.

(** ** The program *)

Section Program.

(** Package variables the file reads and another file of the package sets
    from the command line. *)
Variable cattleURL : string.
Variable genObjName : string.
Variable hideSys : bool.

Variable W : world.

(** *** rancherClient (lines 172-211) *)

(** The next exchange with the world. *)
Definition exchange_get (url : string) : M transport := λ s,
  (Done (http_get W (clock s) url), set_clock S s).
Definition exchange_post (url : string) (b : option postBody) : M postTransport :=
  λ s, (Done (http_post W (clock s) url b), set_clock S s).

(** Lines 190-194: decode into [t], log a decode error, return [&t]. *)
Definition get_decode (b : body) : M target.t :=
  (if decode_err b then log LvlError else ret tt);;
  ret (decoded b).

(** [rancherClient.get].  After a failed [NewRequest] the nil request is used
    by [req.SetBasicAuth]; after a failed [Do] the nil response is used by
    [defer resp.Body.Close()]. *)
Definition rancherClient_get (url : string) : M target.t :=
  let* r := exchange_get url in
  match r with
  | BadRequest => log LvlError;; panic
  | Failed None => log LvlError;; panic
  | Failed (Some b) => log LvlError;; get_decode b
  | Replied b => get_decode b
  end.

(** [rancherClient.post]: the status code and whether an error is returned. *)
Definition rancherClient_post (url : string) (b : option postBody) : M (Z * bool) :=
  let* r := exchange_post url b in
  let res := match r with
             | PostBadRequest => (0, true)
             | PostFailed => (0, true)
             | PostReplied c => (c, false)
             end in
  emit (Posted url b res.1 res.2);;
  ret res.

(** *** service.fetch (lines 277-390) *)

(** The body of the loop over [t.Data] (lines 296-379).  The result is the
    local variable [take] as the iteration leaves it, when the instance was
    found in the map. *)
Definition service_fetch_instance (o : service.t) (d : targetData.t)
  : M (option instance.t) :=
  let instanceState := targetData.State d in
  let instanceId := targetData.ID d in
  let instanceName := targetData.Name d in
  let instanceSystem := FormatBool (targetData.System d) in
  let instanceType := targetData.Type_ d in
  let* oo := load_object (service.object o) in
  let serviceName := object.Name oo in
  let* po := load_object (stack.object (service.parent o)) in
  let stackName := object.Name po in
  let* ppo := load_object (project.object (stack.parent (service.parent o))) in
  let envName := object.Name ppo in
  let ls := [envName; stackName; serviceName; instanceName; instanceSystem;
             instanceType] in
  let instanceStartupTime := 0 in
  SetValue extendingInstanceHeartbeat ls 1;;
  let* found := lookup_instance (service.Instances o) instanceName in
  match found with
  | Some take =>
      let* tk := load_object (instance.object take) in
      emit (Seen (Some (object.State tk)) instanceState);;
      let* take :=
        if decide (object.State tk ≠ instanceState) then
          if decide (instanceState = "running") then
            let* instanceStartupTime :=
              if decide (targetData.FirstRunningTS d ≠ 0) then
                let instanceStartupTime :=
                  sub64 (targetData.FirstRunningTS d) (targetData.CreatedTS d) in
                SetValue extendingInstanceBootstrapMsCost ls
                         (float64 instanceStartupTime);;
                ret instanceStartupTime
              else ret instanceStartupTime in
            let take := instance.set_StartupTime instanceStartupTime take in
            IncValue extendingTotalInstanceBootstrap ls;;
            incr_BootstrapCount (instance.object take);;
            ret take
          else if decide (instanceState = "error") then
            IncValue extendingTotalInstanceBootstrap ls;;
            incr_BootstrapCount (instance.object take);;
            IncValue extendingTotalInstanceFailure ls;;
            incr_FailureCount (instance.object take);;
            ret take
          else ret take
        else ret take in
      update_object (instance.object take) (object.set_Id instanceId);;
      update_object (instance.object take) (object.set_Type instanceType);;
      update_object (instance.object take) (object.set_State instanceState);;
      let take := instance.set_System (targetData.System d) take in
      ret (Some take)
  | None =>
      emit (Seen None instanceState);;
      let* '(bootstrapCount, failureCount, instanceStartupTime) :=
        if decide (instanceState = "error") then
          IncValue extendingTotalInstanceBootstrap ls;;
          IncValue extendingTotalInstanceFailure ls;;
          ret (1, 1, instanceStartupTime)
        else if decide (instanceState = "stopped" ∨ instanceState = "running") then
          let* instanceStartupTime :=
            if decide (targetData.FirstRunningTS d ≠ 0) then
              let instanceStartupTime :=
                sub64 (targetData.FirstRunningTS d) (targetData.CreatedTS d) in
              SetValue extendingInstanceBootstrapMsCost ls
                         (float64 instanceStartupTime);;
              ret instanceStartupTime
            else ret instanceStartupTime in
          IncValue extendingTotalInstanceBootstrap ls;;
          WithLabelValues extendingTotalInstanceFailure ls;;
          ret (1, 0, instanceStartupTime)
        else
          WithLabelValues extendingTotalInstanceBootstrap ls;;
          WithLabelValues extendingTotalInstanceFailure ls;;
          ret (0, 0, instanceStartupTime) in
      let* obj := new_object
        (object.mk instanceId instanceName instanceState instanceType
                   bootstrapCount failureCount) in
      insert_instance (service.Instances o) instanceName
        (instance.mk obj (targetData.System d) instanceStartupTime o);;
      ret None
  end.

(** One element of [t.Data]: a nil element panics at its first field read. *)
Definition service_fetch_item (o : service.t) (od : option targetData.t) : M unit :=
  let* d := deref od in
  service_fetch_instance o d;; ret tt.

(** The pagination loop (lines 292-387). *)
Fixpoint service_fetch_pages (fuel : nat) (o : service.t) (url : string) : M unit :=
  match fuel with
  | O => spin
  | S fuel =>
      let* t := rancherClient_get url in
      forM (target.Data t) (service_fetch_item o);;
      let* p := deref (target.Pagination t) in
      if is_empty (targetPagination.Next p) then ret tt
      else service_fetch_pages fuel o (targetPagination.Next p)
  end.

Definition service_fetch (fuel : nat) (o : service.t) : M unit :=
  recovering (
    let* oo := load_object (service.object o) in
    if is_empty (object.Id oo) then ret tt
    else
      (* log.Debugln reads the names of the parents *)
      let* _ := load_object (stack.object (service.parent o)) in
      let* _ := load_object (project.object (stack.parent (service.parent o))) in
      let url := cattleURL +:+ "/services/" +:+ object.Id oo
                 +:+ "/instances?limit=100&sort=id" in
      service_fetch_pages fuel o url).

(** *** stack.fetch (lines 402-543) *)

(** [for _, y := range enum { if x == y { Set(1) } else { Set(0) } }]: the
    label tuple is built from [y] by [at_]. *)
Definition set_one_hot (v : metricVar) (enum : list string)
    (at_ : string → labels) (x : string) : M unit :=
  forM enum (λ y, if decide (x = y) then SetValue v (at_ y) 1
                  else SetValue v (at_ y) 0).

(** The body of the loop over [t.Data] (lines 426-521). *)
Definition stack_fetch_service (o : stack.t) (d : targetData.t)
  : M (option service.t) :=
  let serviceHealthState := targetData.HealthState d in
  let serviceState := targetData.State d in
  let serviceId := targetData.ID d in
  let serviceName := targetData.Name d in
  let serviceSystem := FormatBool (targetData.System d) in
  let serviceType := targetData.Type_ d in
  let* oo := load_object (stack.object o) in
  let stackName := object.Name oo in
  let stackId := object.Id oo in
  let* po := load_object (project.object (stack.parent o)) in
  let envName := object.Name po in
  let ls := [envName; stackName; serviceName; serviceSystem; serviceType] in
  SetValue infinityWorksServicesScale [serviceName; stackName; serviceSystem]
           (float64 (targetData.Scale d));;
  set_one_hot infinityWorksServicesHealth healthStates
    (λ y, [serviceId; stackId; serviceName; stackName; y; serviceSystem])
    serviceHealthState;;
  set_one_hot infinityWorksServicesState serviceStates
    (λ y, [serviceId; stackId; serviceName; stackName; y; serviceSystem])
    serviceState;;
  SetValue extendingServiceHeartbeat ls 1;;
  let* found := lookup_service (stack.Services o) serviceName in
  match found with
  | Some take =>
      let* tk := load_object (service.object take) in
      emit (Seen (Some (object.State tk)) serviceState);;
      (if decide (object.State tk ≠ serviceState) then
         if decide (serviceState = "active") then
           IncValue extendingTotalServiceBootstrap ls;;
           incr_BootstrapCount (service.object take);;
           if decide (serviceHealthState = "unhealthy") then
             IncValue extendingTotalServiceFailure ls;;
             incr_FailureCount (service.object take)
           else ret tt
         else if decide (serviceState = "error") then
           IncValue extendingTotalServiceBootstrap ls;;
           incr_BootstrapCount (service.object take);;
           IncValue extendingTotalServiceFailure ls;;
           incr_FailureCount (service.object take)
         else ret tt
       else ret tt);;
      update_object (service.object take) (object.set_Id serviceId);;
      update_object (service.object take) (object.set_Type serviceType);;
      update_object (service.object take) (object.set_State serviceState);;
      let take := service.set_System (targetData.System d) take in
      ret (Some take)
  | None =>
      emit (Seen None serviceState);;
      let* '(bootstrapCount, failureCount) :=
        if decide (serviceState = "active") then
          IncValue extendingTotalServiceBootstrap ls;;
          if decide (serviceHealthState = "unhealthy") then
            IncValue extendingTotalServiceFailure ls;;
            ret (1, 1)
          else
            WithLabelValues extendingTotalServiceFailure ls;;
            ret (1, 0)
        else if decide (serviceState = "error") then
          IncValue extendingTotalServiceBootstrap ls;;
          IncValue extendingTotalServiceFailure ls;;
          ret (1, 1)
        else
          WithLabelValues extendingTotalServiceBootstrap ls;;
          WithLabelValues extendingTotalServiceFailure ls;;
          ret (0, 0) in
      let* obj := new_object
        (object.mk serviceId serviceName serviceState serviceType
                   bootstrapCount failureCount) in
      let* ins := make_instanceMap in
      insert_service (stack.Services o) serviceName
        (service.mk obj ins (targetData.System d) o);;
      ret None
  end.

Definition stack_fetch_item (o : stack.t) (od : option targetData.t) : M unit :=
  let* d := deref od in
  stack_fetch_service o d;; ret tt.

(** The pagination loop (lines 422-529). *)
Fixpoint stack_fetch_pages (fuel : nat) (o : stack.t) (url : string) : M unit :=
  match fuel with
  | O => spin
  | S fuel =>
      let* t := rancherClient_get url in
      forM (target.Data t) (stack_fetch_item o);;
      let* p := deref (target.Pagination t) in
      if is_empty (targetPagination.Next p) then ret tt
      else stack_fetch_pages fuel o (targetPagination.Next p)
  end.

(** The goroutines of lines 531-540 each work on a service of their own;
    they are run one after the other, in the order of the map's keys. *)
Definition stack_fetch (fuel : nat) (o : stack.t) : M unit :=
  recovering (
    let* oo := load_object (stack.object o) in
    if is_empty (object.Id oo) then ret tt
    else
      let* _ := load_object (project.object (stack.parent o)) in
      let url :=
        if hideSys then cattleURL +:+ "/stacks/" +:+ object.Id oo
                        +:+ "/services?limit=100&sort=id&system=false"
        else cattleURL +:+ "/stacks/" +:+ object.Id oo
             +:+ "/services?limit=100&sort=id" in
      stack_fetch_pages fuel o url;;
      let* svcs := range_services (stack.Services o) in
      forM svcs (λ d, service_fetch fuel d.2)).

(** *** project.fetch (lines 553-691) *)

(** The body of the loop over [t.Data] (lines 577-669). *)
Definition project_fetch_stack (o : project.t) (d : targetData.t)
  : M (option stack.t) :=
  let stackHealthState := targetData.HealthState d in
  let stackState := targetData.State d in
  let stackId := targetData.ID d in
  let stackName := targetData.Name d in
  let stackSystem := FormatBool (targetData.System d) in
  let stackType := targetData.Type_ d in
  let* oo := load_object (project.object o) in
  let envName := object.Name oo in
  let ls := [envName; stackName; stackSystem; stackType] in
  set_one_hot infinityWorksStacksHealth healthStates
    (λ y, [stackId; stackName; y; stackSystem]) stackHealthState;;
  set_one_hot infinityWorksStacksState stackStates
    (λ y, [stackId; stackName; y; stackSystem]) stackState;;
  SetValue extendingStackHeartbeat ls 1;;
  let* found := lookup_stack (project.Stacks o) stackName in
  match found with
  | Some take =>
      let* tk := load_object (stack.object take) in
      emit (Seen (Some (object.State tk)) stackState);;
      (if decide (object.State tk ≠ stackState) then
         if decide (stackState = "active") then
           IncValue extendingTotalStackBootstrap ls;;
           incr_BootstrapCount (stack.object take);;
           if decide (stackHealthState = "unhealthy") then
             IncValue extendingTotalStackFailure ls;;
             incr_FailureCount (stack.object take)
           else ret tt
         else if decide (stackState = "error") then
           IncValue extendingTotalStackBootstrap ls;;
           incr_BootstrapCount (stack.object take);;
           IncValue extendingTotalStackFailure ls;;
           incr_FailureCount (stack.object take)
         else ret tt
       else ret tt);;
      update_object (stack.object take) (object.set_Id stackId);;
      update_object (stack.object take) (object.set_Type stackType);;
      update_object (stack.object take) (object.set_State stackState);;
      let take := stack.set_System (targetData.System d) take in
      ret (Some take)
  | None =>
      emit (Seen None stackState);;
      let* '(bootstrapCount, failureCount) :=
        if decide (stackState = "active") then
          IncValue extendingTotalStackBootstrap ls;;
          if decide (stackHealthState = "unhealthy") then
            IncValue extendingTotalStackFailure ls;;
            ret (1, 1)
          else
            WithLabelValues extendingTotalStackFailure ls;;
            ret (1, 0)
        else if decide (stackState = "error") then
          IncValue extendingTotalStackBootstrap ls;;
          IncValue extendingTotalStackFailure ls;;
          ret (1, 1)
        else
          WithLabelValues extendingTotalStackBootstrap ls;;
          WithLabelValues extendingTotalStackFailure ls;;
          ret (0, 0) in
      let* obj := new_object
        (object.mk stackId stackName stackState stackType
                   bootstrapCount failureCount) in
      let* svcs := make_serviceMap in
      insert_stack (project.Stacks o) stackName
        (stack.mk obj svcs (targetData.System d) o);;
      ret None
  end.

Definition project_fetch_item (o : project.t) (od : option targetData.t) : M unit :=
  let* d := deref od in
  project_fetch_stack o d;; ret tt.

(** The pagination loop (lines 573-677). *)
Fixpoint project_fetch_pages (fuel : nat) (o : project.t) (url : string) : M unit :=
  match fuel with
  | O => spin
  | S fuel =>
      let* t := rancherClient_get url in
      forM (target.Data t) (project_fetch_item o);;
      let* p := deref (target.Pagination t) in
      if is_empty (targetPagination.Next p) then ret tt
      else project_fetch_pages fuel o (targetPagination.Next p)
  end.

Definition project_fetch (fuel : nat) (o : project.t) : M unit :=
  recovering (
    let* oo := load_object (project.object o) in
    if is_empty (object.Id oo) then ret tt
    else
      let url :=
        if hideSys then cattleURL +:+ "/projects/" +:+ object.Id oo
                        +:+ "/stacks?limit=100&sort=id&system=false"
        else cattleURL +:+ "/projects/" +:+ object.Id oo
             +:+ "/stacks?limit=100&sort=id" in
      project_fetch_pages fuel o url;;
      let* stks := range_stacks (project.Stacks o) in
      forM stks (λ d, stack_fetch fuel d.2)).

(** *** metric.recover (lines 701-841) *)

(** Lines 714-731 and 988-1005: insert the project under its name or
    refresh the id of the one that is there. *)
Definition metric_upsert_project (d : targetData.t) : M unit :=
  let envId := targetData.ID d in
  let envName := targetData.Name d in
  let* found := gets (λ s, Projects s !! envName) in
  match found with
  | Some take => update_object (project.object take) (object.set_Id envId)
  | None =>
      let* obj := new_object (object.mk envId envName "" "" 0 0) in
      let* stks := make_stackMap in
      modify (set_Projects <[envName := project.mk obj stks]>)
  end.

Definition metric_upsert_item (od : option targetData.t) : M unit :=
  let* d := deref od in
  metric_upsert_project d.

(** Lines 804-832. *)
Definition recover_instance (envName stackName serviceName : string)
    (svc : service.t) (sInstance : stored.instance) : M unit :=
  let* so := deref (stored.i_object sInstance) in
  let instanceId := object.Id so in
  let instanceName := object.Name so in
  let instanceSystem := FormatBool (stored.i_System sInstance) in
  let instanceType := object.Type_ so in
  let ls := [envName; stackName; serviceName; instanceName; instanceSystem;
             instanceType] in
  let* obj := new_object
    (object.mk instanceId instanceName (object.State so) instanceType
               (object.BootstrapCount so) (object.FailureCount so)) in
  let ins := instance.mk obj (stored.i_System sInstance)
                         (stored.i_StartupTime sInstance) svc in
  insert_instance (service.Instances svc) instanceName ins;;
  AddValue extendingTotalInstanceBootstrap ls
           (float64 (object.BootstrapCount so));;
  AddValue extendingTotalInstanceFailure ls
           (float64 (object.FailureCount so));;
  SetValue extendingInstanceBootstrapMsCost ls
           (float64 (stored.i_StartupTime sInstance)).

(** Lines 777-833. *)
Definition recover_service (envName stackName : string) (stk : stack.t)
    (sService : stored.service) : M unit :=
  let* so := deref (stored.sv_object sService) in
  let serviceId := object.Id so in
  let serviceName := object.Name so in
  let serviceSystem := FormatBool (stored.sv_System sService) in
  let serviceType := object.Type_ so in
  let ls := [envName; stackName; serviceName; serviceSystem; serviceType] in
  let* obj := new_object
    (object.mk serviceId serviceName (object.State so) serviceType
               (object.BootstrapCount so) (object.FailureCount so)) in
  let* insts := make_instanceMap in
  let svc := service.mk obj insts (stored.sv_System sService) stk in
  insert_service (stack.Services stk) serviceName svc;;
  AddValue extendingTotalServiceBootstrap ls
           (float64 (object.BootstrapCount so));;
  AddValue extendingTotalServiceFailure ls
           (float64 (object.FailureCount so));;
  forM (map_to_list (stored.sv_Instances sService))
       (λ d, recover_instance envName stackName serviceName svc d.2).

(** Lines 750-834. *)
Definition recover_stack (envName : string) (pro : project.t)
    (sStack : stored.stack) : M unit :=
  let* so := deref (stored.st_object sStack) in
  let stackId := object.Id so in
  let stackName := object.Name so in
  let stackSystem := FormatBool (stored.st_System sStack) in
  let stackType := object.Type_ so in
  let ls := [envName; stackName; stackSystem; stackType] in
  let* obj := new_object
    (object.mk stackId stackName (object.State so) stackType
               (object.BootstrapCount so) (object.FailureCount so)) in
  let* svcs := make_serviceMap in
  let stk := stack.mk obj svcs (stored.st_System sStack) pro in
  insert_stack (project.Stacks pro) stackName stk;;
  AddValue extendingTotalStackBootstrap ls
           (float64 (object.BootstrapCount so));;
  AddValue extendingTotalStackFailure ls (float64 (object.FailureCount so));;
  forM (map_to_list (stored.st_Services sStack))
       (λ d, recover_service envName stackName stk d.2).

(** The goroutine of lines 739-836: nothing recovers a panic in it. *)
Definition recover_project (pro : project.t) : M unit :=
  let* po := load_object (project.object pro) in
  let envId := object.Id po in
  let envName := object.Name po in
  let* t := rancherClient_get
    (cattleURL +:+ "/genericobjects?name=" +:+ genObjName +:+ "&key="
     +:+ envId +:+ "&kind=" +:+ genericobjectKind) in
  match last (target.Data t) with
  | None => ret tt
  | Some od =>
      let* d := deref od in
      let* storeProject := deref (targetData.ResourceData d) in
      forM (map_to_list (stored.p_Stacks storeProject))
           (λ d, recover_stack envName pro d.2)
  end.

Definition metric_recover : M unit :=
  let* ok := recovered (
    let* t := rancherClient_get (cattleURL +:+ "/projects") in
    forM (target.Data t) metric_upsert_item) in
  match ok with
  | Some _ =>
      let* pros := range_Projects in
      forM pros (λ d, recover_project d.2)
  | None => ret tt
  end.

(** *** metric.backup (lines 843-914) *)

(** Lines 859-865: the ids of the checkpoints on the server, by key. *)
Definition backup_group (m : gmap string (list string)) (d : targetData.t)
  : gmap string (list string) :=
  match m !! targetData.Key d with
  | Some ids => <[targetData.Key d := ids ++ [targetData.ID d]]> m
  | None => <[targetData.Key d := [targetData.ID d]]> m
  end.

Fixpoint backup_listing (l : list (option targetData.t))
    (m : gmap string (list string)) : M (gmap string (list string)) :=
  match l with
  | [] => ret m
  | od :: l' => let* d := deref od in backup_listing l' (backup_group m d)
  end.

(** Lines 897-906. *)
Definition backup_remove (genObjId : string) : M unit :=
  let url := cattleURL +:+ "/genericobjects/" +:+ genObjId +:+ "?action=remove" in
  let* r := rancherClient_post url None in
  if r.2 : bool then log LvlWarn
  else if decide (r.1 ≠ StatusAccepted) then log LvlWarn
  else ret tt.

(** The goroutine of lines 874-909.  [json.Marshal] of the map [data] does
    not fail: every value in it is a string or a struct of strings, numbers,
    booleans and maps of such structs. *)
Definition backup_project (genObjIdsMap : gmap string (list string))
    (pro : project.t) : M unit :=
  let* po := load_object (project.object pro) in
  let data := mkPostBody genericobjectKind genObjName (object.Id po) pro in
  let* r := rancherClient_post (cattleURL +:+ "/genericobjects") (Some data) in
  if r.2 : bool then log LvlWarn
  else if decide (r.1 ≠ StatusCreated) then log LvlWarn
  else
    match genObjIdsMap !! object.Id po with
    | Some genObjIds => forM genObjIds backup_remove
    | None => ret tt
    end.

Definition metric_backup : M unit :=
  let* listed := recovered (
    let* t := rancherClient_get
      (cattleURL +:+ "/genericobjects?name=" +:+ genObjName
       +:+ "&kind=" +:+ genericobjectKind) in
    backup_listing (target.Data t) ∅) in
  match listed with
  | Some genObjIdsMap =>
      let* pros := range_Projects in
      forM pros (λ d, backup_project genObjIdsMap d.2)
  | None => ret tt
  end.

(** *** metric.fetch (lines 916-1022) *)

(** Lines 927-939. *)
Definition metric_fetch_reset : M unit :=
  ResetVec infinityWorksHostsState;;
  ResetVec infinityWorksHostAgentsState;;
  ResetVec infinityWorksStacksHealth;;
  ResetVec infinityWorksStacksState;;
  ResetVec infinityWorksServicesScale;;
  ResetVec infinityWorksServicesHealth;;
  ResetVec infinityWorksServicesState;;
  ResetVec extendingInstanceHeartbeat;;
  ResetVec extendingServiceHeartbeat;;
  ResetVec extendingStackHeartbeat.

(** The body of the loop over the hosts (lines 952-977). *)
Definition metric_fetch_host (d : targetData.t) : M unit :=
  let hostName := targetData.HostName d in
  let hostState := targetData.State d in
  let hostId := targetData.ID d in
  let hostAgentState := targetData.AgentState d in
  let hostName :=
    if is_empty (targetData.Name d) then hostName else targetData.Name d in
  set_one_hot infinityWorksHostsState hostStates
    (λ y, [hostId; hostName; y]) hostState;;
  set_one_hot infinityWorksHostAgentsState agentStates
    (λ y, [hostId; hostName; y]) hostAgentState.

Definition metric_fetch_host_item (od : option targetData.t) : M unit :=
  let* d := deref od in
  metric_fetch_host d.

(** The first goroutine (lines 946-979). *)
Definition metric_fetch_hosts : M unit :=
  let* t := rancherClient_get (cattleURL +:+ "/hosts") in
  forM (target.Data t) metric_fetch_host_item.

(** The second goroutine (lines 983-1017).  The goroutines of lines
    1007-1016, one for each project, run at the same time in the program
    and wait for one another at [wg.Wait()]; here they run one after the
    other, in the order of the loop.  So do the goroutines of lines 679-688
    and 531-540 in [project_fetch] and [stack_fetch]. *)
Definition metric_fetch_projects (fuel : nat) : M unit :=
  let* t := rancherClient_get (cattleURL +:+ "/projects") in
  forM (target.Data t) metric_upsert_item;;
  let* pros := range_Projects in
  forM pros (λ d, project_fetch fuel d.2).

(** One scrape.  The two goroutines do not touch the same vectors or the
    same part of the model; the hosts are walked first.  A panic in either
    of them is outside the deferred recover of [fetch], which runs in
    another goroutine: the outcome [Panic] is the process going down. *)
Definition metric_fetch (fuel : nat) : M unit :=
  metric_fetch_reset;;
  metric_fetch_hosts;;
  metric_fetch_projects fuel.

End Program.

(** * Reasoning about runs *)

(** ** Weakest preconditions *)

(** [wp m s Q]: running [m] from [s] ends in an outcome and a state that
    satisfy [Q]. *)
Definition wp {A} (m : M A) (s : state) (Q : outcome A → state → Prop) : Prop :=
  Q (m s).1 (m s).2.

(** Where a sequence goes on after its first part. *)
Definition after {A B} (f : A → M B) (Q : outcome B → state → Prop)
  : outcome A → state → Prop :=
  λ r s, match r with
         | Done a => wp (f a) s Q
         | Panic => Q Panic s
         | Spin => Q Spin s
         end.

Lemma wp_bind {A B} (m : M A) (f : A → M B) s Q :
  wp m s (after f Q) → wp (bind m f) s Q.
Proof.
  unfold wp, after, bind. destruct (m s) as [[a| |] s']; cbn; auto.
Qed.

Lemma wp_ret {A} (a : A) s Q : Q (Done a) s → wp (ret a) s Q.
Proof. done. Qed.
Lemma wp_panic {A} s (Q : outcome A → state → Prop) : Q Panic s → wp panic s Q.
Proof. done. Qed.
Lemma wp_spin {A} s (Q : outcome A → state → Prop) : Q Spin s → wp spin s Q.
Proof. done. Qed.
Lemma wp_gets {A} (f : state → A) s Q : Q (Done (f s)) s → wp (gets f) s Q.
Proof. done. Qed.
Lemma wp_modify f s Q : Q (Done tt) (f s) → wp (modify f) s Q.
Proof. done. Qed.
Lemma wp_emit e s Q : Q (Done tt) (set_trace (cons e) s) → wp (emit e) s Q.
Proof. done. Qed.
Lemma wp_log l s Q : Q (Done tt) (set_trace (cons (Logged l)) s) → wp (log l) s Q.
Proof. done. Qed.

Lemma wp_deref {A} (p : option A) s Q :
  match p with Some a => Q (Done a) s | None => Q Panic s end →
  wp (deref p) s Q.
Proof. by destruct p. Qed.

Lemma wp_wand {A} (m : M A) s (Q Q' : outcome A → state → Prop) :
  wp m s Q → (∀ r s', Q r s' → Q' r s') → wp m s Q'.
Proof. unfold wp. auto. Qed.

Lemma wp_recovered {A} (m : M A) s Q :
  wp m s (λ r s', match r with
                  | Done a => Q (Done (Some a)) s'
                  | Panic => Q (Done None) (set_trace (cons (Logged LvlError)) s')
                  | Spin => Q Spin s'
                  end) →
  wp (recovered m) s Q.
Proof. unfold wp, recovered. by destruct (m s) as [[a| |] s']. Qed.

Lemma wp_recovering (m : M unit) s Q :
  wp m s (λ r s', match r with
                  | Done _ => Q (Done tt) s'
                  | Panic => Q (Done tt) (set_trace (cons (Logged LvlError)) s')
                  | Spin => Q Spin s'
                  end) →
  wp (recovering m) s Q.
Proof.
  intros H. apply wp_bind, wp_recovered.
  eapply wp_wand; [exact H|]. by intros [[]| |] s'.
Qed.

(** *** Store operations *)

Lemma wp_load_object l s Q :
  match objects s !! l with Some o => Q (Done o) s | None => Q Panic s end →
  wp (load_object l) s Q.
Proof. unfold wp, load_object, bind, gets, deref. by destruct (objects s !! l). Qed.

Lemma wp_update_object l f s Q :
  match objects s !! l with
  | Some o => Q (Done tt) (set_objects <[l := f o]> s)
  | None => Q Panic s
  end →
  wp (update_object l f) s Q.
Proof.
  unfold wp, update_object, load_object, bind, gets, deref.
  by destruct (objects s !! l).
Qed.

Lemma wp_incr_BootstrapCount l s Q :
  match objects s !! l with
  | Some o =>
      Q (Done tt)
        (set_objects
           <[l := object.set_BootstrapCount (add64 (object.BootstrapCount o) 1) o]>
           (set_trace (cons (Incremented (object.BootstrapCount o))) s))
  | None => Q Panic s
  end →
  wp (incr_BootstrapCount l) s Q.
Proof.
  unfold wp, incr_BootstrapCount, load_object, bind, gets, deref.
  by destruct (objects s !! l).
Qed.

Lemma wp_incr_FailureCount l s Q :
  match objects s !! l with
  | Some o =>
      Q (Done tt)
        (set_objects
           <[l := object.set_FailureCount (add64 (object.FailureCount o) 1) o]>
           (set_trace (cons (Incremented (object.FailureCount o))) s))
  | None => Q Panic s
  end →
  wp (incr_FailureCount l) s Q.
Proof.
  unfold wp, incr_FailureCount, load_object, bind, gets, deref.
  by destruct (objects s !! l).
Qed.

Lemma wp_new_object o s Q :
  Q (Done (fresh (dom (objects s))))
    (set_objects <[fresh (dom (objects s)) := o]> s) →
  wp (new_object o) s Q.
Proof. done. Qed.

Lemma wp_make_instanceMap s Q :
  Q (Done (fresh (dom (instanceMaps s))))
    (set_instanceMaps <[fresh (dom (instanceMaps s)) := ∅]> s) →
  wp make_instanceMap s Q.
Proof. done. Qed.
Lemma wp_make_serviceMap s Q :
  Q (Done (fresh (dom (serviceMaps s))))
    (set_serviceMaps <[fresh (dom (serviceMaps s)) := ∅]> s) →
  wp make_serviceMap s Q.
Proof. done. Qed.
Lemma wp_make_stackMap s Q :
  Q (Done (fresh (dom (stackMaps s))))
    (set_stackMaps <[fresh (dom (stackMaps s)) := ∅]> s) →
  wp make_stackMap s Q.
Proof. done. Qed.

Lemma wp_lookup_instance m k s Q :
  Q (Done (instanceMaps s !! m ≫= (.!! k))) s → wp (lookup_instance m k) s Q.
Proof. done. Qed.
Lemma wp_lookup_service m k s Q :
  Q (Done (serviceMaps s !! m ≫= (.!! k))) s → wp (lookup_service m k) s Q.
Proof. done. Qed.
Lemma wp_lookup_stack m k s Q :
  Q (Done (stackMaps s !! m ≫= (.!! k))) s → wp (lookup_stack m k) s Q.
Proof. done. Qed.

Lemma wp_insert_instance m k v s Q :
  match instanceMaps s !! m with
  | Some c => Q (Done tt) (set_instanceMaps <[m := <[k := v]> c]> s)
  | None => Q Panic s
  end →
  wp (insert_instance m k v) s Q.
Proof.
  unfold wp, insert_instance, bind, gets, deref.
  by destruct (instanceMaps s !! m).
Qed.
Lemma wp_insert_service m k v s Q :
  match serviceMaps s !! m with
  | Some c => Q (Done tt) (set_serviceMaps <[m := <[k := v]> c]> s)
  | None => Q Panic s
  end →
  wp (insert_service m k v) s Q.
Proof.
  unfold wp, insert_service, bind, gets, deref.
  by destruct (serviceMaps s !! m).
Qed.
Lemma wp_insert_stack m k v s Q :
  match stackMaps s !! m with
  | Some c => Q (Done tt) (set_stackMaps <[m := <[k := v]> c]> s)
  | None => Q Panic s
  end →
  wp (insert_stack m k v) s Q.
Proof.
  unfold wp, insert_stack, bind, gets, deref.
  by destruct (stackMaps s !! m).
Qed.

(** *** Vector operations *)

Lemma same_vec_eq a b : same_vec a b = true ↔ a = b.
Proof. split; [by destruct a, b | intros ->; by destruct b]. Qed.

Lemma upd_reg_eq v f r : upd_reg v f r v = f (r v).
Proof. unfold upd_reg. by destruct v. Qed.
Lemma upd_reg_ne v f r v' : v' ≠ v → upd_reg v f r v' = r v'.
Proof.
  intros Hne. unfold upd_reg. destruct (same_vec v' v) eqn:E; [|done].
  by apply same_vec_eq in E.
Qed.

Definition upd_vec (v : metricVar) (f : vec → vec) : state → state :=
  set_registry (upd_reg v f).

Lemma wp_on_vec v f s Q : Q (Done tt) (upd_vec v f s) → wp (on_vec v f) s Q.
Proof. done. Qed.
Lemma wp_WithLabelValues v ls s Q :
  Q (Done tt) (upd_vec v (vec_touch ls) s) → wp (WithLabelValues v ls) s Q.
Proof. done. Qed.
Lemma wp_SetValue v ls x s Q :
  Q (Done tt) (upd_vec v (vec_set ls x) s) → wp (SetValue v ls x) s Q.
Proof. done. Qed.
Lemma wp_IncValue v ls s Q :
  Q (Done tt) (upd_vec v (vec_add ls 1) s) → wp (IncValue v ls) s Q.
Proof. done. Qed.
Lemma wp_AddValue v ls x s Q :
  Q (Done tt) (upd_vec v (vec_add ls x) s) → wp (AddValue v ls x) s Q.
Proof. done. Qed.
Lemma wp_ResetVec v s Q :
  Q (Done tt) (upd_vec v (λ _, ∅) s) → wp (ResetVec v) s Q.
Proof. done. Qed.

(** The vector a one-hot loop leaves behind. *)
Definition one_hot_fill (enum : list string) (at_ : string → labels)
    (x : string) (m : vec) : vec :=
  foldl (λ m y, vec_set (at_ y) (if decide (x = y) then 1 else 0) m) m enum.

(** The registry a one-hot loop leaves behind. *)
Definition one_hot_reg (v : metricVar) (enum : list string)
    (at_ : string → labels) (x : string) (r : metricVar → vec)
  : metricVar → vec :=
  foldl (λ r y, upd_reg v (vec_set (at_ y) (if decide (x = y) then 1 else 0)) r)
        r enum.

Lemma wp_set_one_hot v enum at_ x s Q :
  Q (Done tt) (set_registry (one_hot_reg v enum at_ x) s) →
  wp (set_one_hot v enum at_ x) s Q.
Proof.
  unfold wp, set_one_hot, one_hot_reg. revert s.
  induction enum as [|y l IH]; intros s.
  - by destruct s.
  - cbn [forM foldl]. unfold bind.
    destruct (decide (x = y)); cbn -[upd_reg]; intros H; apply IH, H.
Qed.

Lemma one_hot_reg_eq v enum at_ x r :
  one_hot_reg v enum at_ x r v = one_hot_fill enum at_ x (r v).
Proof.
  unfold one_hot_reg, one_hot_fill. revert r.
  induction enum as [|y l IH]; intros r; [done|].
  cbn [foldl]. by rewrite IH, upd_reg_eq.
Qed.

Lemma one_hot_reg_ne v enum at_ x r v' :
  v' ≠ v → one_hot_reg v enum at_ x r v' = r v'.
Proof.
  intros Hne. unfold one_hot_reg. revert r.
  induction enum as [|y l IH]; intros r; [done|].
  cbn [foldl]. by rewrite IH, upd_reg_ne.
Qed.

(** ** Symbolic execution *)

(** The state a step leaves behind, with every field written out. *)
Ltac norm_state s :=
  eval lazy beta iota zeta delta
    [objects instanceMaps serviceMaps stackMaps Projects registry clock trace
     set_objects set_instanceMaps set_serviceMaps set_stackMaps set_Projects
     set_registry set_clock set_trace upd_vec] in s.

(** A lookup in the state at hand. *)
Ltac norm x :=
  let x' := eval lazy beta iota zeta delta
    [objects instanceMaps serviceMaps stackMaps Projects registry clock trace
     set_objects set_instanceMaps set_serviceMaps set_stackMaps set_Projects
     set_registry set_clock set_trace upd_vec] in x in
  let x'' := eval cbn
    [instance.object instance.System instance.StartupTime instance.parent
     instance.set_System instance.set_StartupTime
     stack.object stack.Services stack.System stack.parent stack.set_System]
    in x' in
  change x with x''.

(** The vector [v] of a registry built by the steps so far, for a [v] that
    is one of the seventeen. *)
Ltac eval_reg :=
  repeat match goal with
  | |- context [?r ?v] =>
      lazymatch r with
      | upd_reg _ _ _ => idtac
      | one_hot_reg _ _ _ _ _ => idtac
      end;
      tryif is_var v then fail else idtac;
      let t := eval lazy beta iota zeta delta
        [upd_reg one_hot_reg same_vec foldl
         healthStates stackStates serviceStates hostStates agentStates]
        in (r v) in
      change (r v) with t
  end.

(** Settle a lookup: by a hypothesis about it, by the insert it reads back,
    or by cases. *)
Ltac settle e :=
  first
    [ match goal with H : e = _ |- _ => rewrite H end
    | lazymatch e with
      | <[?k := _]> _ !! ?k => rewrite (lookup_insert_eq _ k)
      | ?a ≫= _ => settle a; cbn [mbind option_bind]
      | _ => let E := fresh "E" in destruct e eqn:E
      end ].

Ltac wp_step :=
  lazymatch goal with
  | |- after ?f ?Q (Done ?a) ?s =>
      let s' := norm_state s in change (wp (f a) s' Q); cbv beta
  | |- after ?f ?Q Panic ?s =>
      let s' := norm_state s in change (Q Panic s'); cbv beta
  | |- after ?f ?Q Spin ?s =>
      let s' := norm_state s in change (Q Spin s'); cbv beta
  | |- wp (bind _ _) _ _ => apply wp_bind
  | |- wp (ret _) _ _ => apply wp_ret
  | |- wp panic _ _ => apply wp_panic
  | |- wp spin _ _ => apply wp_spin
  | |- wp (gets _) _ _ => apply wp_gets; cbv beta
  | |- wp (modify _) _ _ => apply wp_modify
  | |- wp (emit _) _ _ => apply wp_emit
  | |- wp (log _) _ _ => apply wp_log
  | |- wp (deref _) _ _ => apply wp_deref
  | |- wp (load_object _) _ _ => apply wp_load_object
  | |- wp (update_object _ _) _ _ => apply wp_update_object
  | |- wp (incr_BootstrapCount _) _ _ => apply wp_incr_BootstrapCount
  | |- wp (incr_FailureCount _) _ _ => apply wp_incr_FailureCount
  | |- wp (new_object _) _ _ => apply wp_new_object
  | |- wp make_instanceMap _ _ => apply wp_make_instanceMap
  | |- wp make_serviceMap _ _ => apply wp_make_serviceMap
  | |- wp make_stackMap _ _ => apply wp_make_stackMap
  | |- wp (lookup_instance _ _) _ _ => apply wp_lookup_instance
  | |- wp (lookup_service _ _) _ _ => apply wp_lookup_service
  | |- wp (lookup_stack _ _) _ _ => apply wp_lookup_stack
  | |- wp (insert_instance _ _ _) _ _ => apply wp_insert_instance
  | |- wp (insert_service _ _ _) _ _ => apply wp_insert_service
  | |- wp (insert_stack _ _ _) _ _ => apply wp_insert_stack
  | |- wp (WithLabelValues _ _) _ _ => apply wp_WithLabelValues
  | |- wp (SetValue _ _ _) _ _ => apply wp_SetValue
  | |- wp (IncValue _ _) _ _ => apply wp_IncValue
  | |- wp (AddValue _ _ _) _ _ => apply wp_AddValue
  | |- wp (ResetVec _) _ _ => apply wp_ResetVec
  | |- wp (set_one_hot _ _ _ _) _ _ => apply wp_set_one_hot
  | |- wp (if ?c then _ else _) _ _ => destruct c
  | |- wp (match ?x with Some _ => _ | None => _ end) _ _ =>
      norm x; lazymatch goal with
              | |- wp (match ?y with Some _ => _ | None => _ end) _ _ =>
                  settle y
              end
  | |- wp (let '(_, _) := ?x in _) _ _ =>
      lazymatch x with (_, _) => cbv beta iota | _ => destruct x end
  | |- match ?x with Some _ => _ | None => _ end =>
      norm x; lazymatch goal with
              | |- match ?y with Some _ => _ | None => _ end => settle y
              end
  end.

(** Start from a state whose fields are variables, keep the postcondition
    folded while the steps run, and open it on the state they end in. *)
Ltac wp_start :=
  lazymatch goal with
  | |- wp _ ?s _ =>
      is_var s;
      let objs := fresh "objs" in let ims := fresh "ims" in
      let svms := fresh "svms" in let stms := fresh "stms" in
      let prjs := fresh "prjs" in let reg := fresh "reg" in
      let clk := fresh "clk" in let tr := fresh "tr" in
      destruct s as [objs ims svms stms prjs reg clk tr];
      cbn [objects instanceMaps serviceMaps stackMaps Projects registry
           clock trace] in *
  end;
  lazymatch goal with
  | |- wp ?m ?s ?Q => let P := fresh "Post" in set (P := Q)
  end.

Ltac wp_open :=
  lazymatch goal with
  | Post := _ |- ?P ?r ?s =>
      let s' := norm_state s in change (P r s'); subst P; cbv beta zeta;
      cbn [objects instanceMaps serviceMaps stackMaps Projects registry
           clock trace]
  end.

Ltac wp_run := wp_start; repeat wp_step; wp_open.

(** ** Reading the vectors *)

(** The series [ls] of [v] is there after the step, [k] above what it was
    before (0 when it is new), and no other series of [v] changed. *)
Definition gained (k : Z) (v : metricVar) (ls : labels) (s s' : state) : Prop :=
  value s' v ls = Some (default 0 (value s v ls) + k) ∧
  ∀ ls', ls' ≠ ls → value s' v ls' = value s v ls'.

(** Nothing of [v] changed, and no series was added. *)
Definition untouched (v : metricVar) (s s' : state) : Prop :=
  registry s' v = registry s v.

Lemma gained_vec_add k v ls s s' :
  registry s' v = vec_add ls k (registry s v) → gained k v ls s s'.
Proof.
  intros H. unfold gained, value. rewrite H. unfold vec_add. split.
  - apply lookup_insert_eq.
  - intros ls' Hne. by apply lookup_insert_ne.
Qed.

Lemma gained_vec_touch v ls s s' :
  registry s' v = vec_touch ls (registry s v) → gained 0 v ls s s'.
Proof.
  intros H. unfold gained, value. rewrite H. unfold vec_touch.
  destruct (registry s v !! ls) as [x|] eqn:E; cbn.
  - rewrite E. split; [f_equal; lia | done].
  - split; [apply lookup_insert_eq | intros; by apply lookup_insert_ne].
Qed.

Lemma gained_twice k1 k2 v ls s s' :
  registry s' v = vec_add ls k2 (vec_add ls k1 (registry s v)) →
  gained (k1 + k2) v ls s s'.
Proof.
  intros H. apply gained_vec_add. rewrite H. unfold vec_add.
  rewrite lookup_insert_eq, insert_insert_eq. cbn. f_equal. lia.
Qed.

(** Below the largest [uint64], [+= 1] is the successor. *)
Lemma add64_exact x : 0 ≤ x < uint64_max → add64 x 1 = x + 1.
Proof. unfold add64, uint64_max. intros H. apply Z.mod_small. lia. Qed.

(** At the largest [uint64], [+= 1] gives 0. *)
Lemma add64_wraps : add64 uint64_max 1 = 0.
Proof. reflexivity. Qed.

Lemma sub64_exact x y : 0 ≤ y ≤ x → x < 18446744073709551616 → sub64 x y = x - y.
Proof. unfold sub64. intros H1 H2. apply Z.mod_small. lia. Qed.

(** Below 2^53 the conversion to [float64] is exact. *)
Lemma float64_exact x : 0 ≤ x < 2 ^ 53 → float64 x = x.
Proof.
  intros H. unfold float64. rewrite Z.abs_eq by lia.
  destruct (decide (x = 0)) as [->|Hne]; [done|].
  assert (Z.log2 x < 53) by (apply Z.log2_lt_pow2; lia).
  by rewrite (proj2 (Z.leb_le _ _)) by lia.
Qed.

(** A difference of [uint64] below zero comes out 2^64 higher. *)
Lemma sub64_wraps x y :
  0 ≤ x < y → y < 18446744073709551616 →
  sub64 x y = x - y + 18446744073709551616.
Proof.
  intros H1 H2. unfold sub64.
  rewrite <- (Z_mod_plus_full (x - y) 1 18446744073709551616).
  apply Z.mod_small. lia.
Qed.

(** [v] now reads [x] on the series [ls]; no other series of [v] changed. *)
Definition set_to (x : Z) (v : metricVar) (ls : labels) (s s' : state) : Prop :=
  value s' v ls = Some x ∧ ∀ ls', ls' ≠ ls → value s' v ls' = value s v ls'.

Lemma set_to_vec_set x v ls s s' :
  registry s' v = vec_set ls x (registry s v) → set_to x v ls s s'.
Proof.
  intros H. unfold set_to, value. rewrite H. unfold vec_set. split.
  - apply lookup_insert_eq.
  - intros ls' Hne. by apply lookup_insert_ne.
Qed.

(** Close a goal about the vectors of the state a run ended in. *)
Ltac read_reg := cbn [registry]; eval_reg; done.

Ltac close_vec :=
  first [ apply gained_vec_add; read_reg | apply gained_vec_touch; read_reg
        | apply set_to_vec_set; read_reg | read_reg ].

(** * The accounting rules, as the specification words them *)

(** Stacks and services (rules S1, S2): what a node entering the state
    [new] with health [health] adds to (bootstrap, failure). *)
Definition transition_rule (new health : string) : bool * bool :=
  if decide (new = "active") then (true, bool_decide (health = "unhealthy"))
  else if decide (new = "error") then (true, true)
  else (false, false).

(** Instances already in the model (rules I1, I2): what entering the state
    [new] adds to (bootstrap, failure). *)
Definition instance_rule (new : string) : bool * bool :=
  if decide (new = "running") then (true, false)
  else if decide (new = "error") then (true, true)
  else (false, false).

(** Instances seen for the first time (rules I1, I2, I3). *)
Definition instance_first_rule (new : string) : bool * bool :=
  if decide (new = "error") then (true, true)
  else if decide (new = "stopped" ∨ new = "running") then (true, false)
  else (false, false).

(** Is the startup time measured when the instance enters [new]?  On first
    sight [stopped] counts like [running]. *)
Definition measures (first : bool) (new : string) : bool :=
  bool_decide (new = "running" ∨ (first = true ∧ new = "stopped")).

(** [instanceStartupTime] of lines 307 and 318-319. *)
Definition startup_of (d : targetData.t) : Z :=
  if decide (targetData.FirstRunningTS d ≠ 0)
  then sub64 (targetData.FirstRunningTS d) (targetData.CreatedTS d)
  else 0.

(** A counter moves by one on the series [ls], or not at all. *)
Definition moved (b : bool) (v : metricVar) (ls : labels) (s s' : state) : Prop :=
  if b then gained 1 v ls s s' else untouched v s s'.

(** The object of a node after it was seen again: id, type and state as
    observed, the name as stored, the two fields counted up as told. *)
Definition observed_object (d : targetData.t) (tk : object.t) (b f : bool)
  : object.t :=
  object.mk (targetData.ID d) (object.Name tk) (targetData.State d)
    (targetData.Type_ d)
    (if b then add64 (object.BootstrapCount tk) 1 else object.BootstrapCount tk)
    (if f then add64 (object.FailureCount tk) 1 else object.FailureCount tk).

(** The object of a node created on first sight. *)
Definition created_object (d : targetData.t) (b f : bool) : object.t :=
  object.mk (targetData.ID d) (targetData.Name d) (targetData.State d)
    (targetData.Type_ d) (Z.b2z b) (Z.b2z f).

Ltac split_all := repeat match goal with |- _ ∧ _ => split end.

Ltac settle_prop :=
  first [ done | by left | by right | by intros [?|[??]] | by apply dec_stable
        | by intros [??] | by intuition idtac
        | intros [?|[??]]; congruence ].

Ltac decide_all :=
  repeat first
    [ rewrite bool_decide_true by settle_prop
    | rewrite bool_decide_false by settle_prop
    | rewrite decide_True by settle_prop
    | rewrite decide_False by settle_prop ].

(** * One observation *)

(** ** Stacks (project.fetch) *)

Lemma stack_seen_again (o : project.t) (d : targetData.t) (s : state)
    oo m take tk :
  objects s !! project.object o = Some oo →
  stackMaps s !! project.Stacks o = Some m →
  m !! targetData.Name d = Some take →
  objects s !! stack.object take = Some tk →
  wp (project_fetch_stack o d) s (λ r s',
    let ls := [object.Name oo; targetData.Name d;
               FormatBool (targetData.System d); targetData.Type_ d] in
    let '(b, f) :=
      if decide (object.State tk = targetData.State d) then (false, false)
      else transition_rule (targetData.State d) (targetData.HealthState d) in
    r = Done (Some (stack.set_System (targetData.System d) take)) ∧
    objects s' = <[stack.object take := observed_object d tk b f]> (objects s) ∧
    stackMaps s' = stackMaps s ∧ serviceMaps s' = serviceMaps s ∧
    instanceMaps s' = instanceMaps s ∧ Projects s' = Projects s ∧
    moved b extendingTotalStackBootstrap ls s s' ∧
    moved f extendingTotalStackFailure ls s s' ∧
    untouched extendingTotalServiceBootstrap s s' ∧
    untouched extendingTotalServiceFailure s s' ∧
    untouched extendingTotalInstanceBootstrap s s' ∧
    untouched extendingTotalInstanceFailure s s' ∧
    untouched extendingInstanceBootstrapMsCost s s').
Proof.
  intros Hoo Hm Htake Htk.
  unfold project_fetch_stack, transition_rule.
  wp_run.
  all: decide_all.
  all: unfold moved, untouched, observed_object.
  all: rewrite ?insert_insert_eq.
  all: destruct tk; cbn [object.Id object.Name object.State object.Type_
    object.BootstrapCount object.FailureCount object.set_Id object.set_State
    object.set_Type object.set_BootstrapCount object.set_FailureCount].
  all: split_all; try done; close_vec.
Qed.

Lemma stack_first_sight (o : project.t) (d : targetData.t) (s : state) oo m :
  objects s !! project.object o = Some oo →
  stackMaps s !! project.Stacks o = Some m →
  m !! targetData.Name d = None →
  wp (project_fetch_stack o d) s (λ r s',
    let ls := [object.Name oo; targetData.Name d;
               FormatBool (targetData.System d); targetData.Type_ d] in
    let '(b, f) :=
      transition_rule (targetData.State d) (targetData.HealthState d) in
    let obj := fresh (dom (objects s)) in
    let svcs := fresh (dom (serviceMaps s)) in
    r = Done None ∧
    objects s' = <[obj := created_object d b f]> (objects s) ∧
    stackMaps s' =
      <[project.Stacks o :=
          <[targetData.Name d := stack.mk obj svcs (targetData.System d) o]> m]>
        (stackMaps s) ∧
    serviceMaps s' = <[svcs := ∅]> (serviceMaps s) ∧
    instanceMaps s' = instanceMaps s ∧ Projects s' = Projects s ∧
    gained (Z.b2z b) extendingTotalStackBootstrap ls s s' ∧
    gained (Z.b2z f) extendingTotalStackFailure ls s s' ∧
    untouched extendingTotalServiceBootstrap s s' ∧
    untouched extendingTotalServiceFailure s s' ∧
    untouched extendingTotalInstanceBootstrap s s' ∧
    untouched extendingTotalInstanceFailure s s' ∧
    untouched extendingInstanceBootstrapMsCost s s').
Proof.
  intros Hoo Hm Hnone.
  unfold project_fetch_stack, transition_rule.
  wp_run.
  all: decide_all.
  all: unfold untouched, created_object; cbn [Z.b2z].
  all: split_all; try done; close_vec.
Qed.

(** ** Services (stack.fetch) *)

Lemma service_seen_again (o : stack.t) (d : targetData.t) (s : state)
    oo po m take tk :
  objects s !! stack.object o = Some oo →
  objects s !! project.object (stack.parent o) = Some po →
  serviceMaps s !! stack.Services o = Some m →
  m !! targetData.Name d = Some take →
  objects s !! service.object take = Some tk →
  wp (stack_fetch_service o d) s (λ r s',
    let ls := [object.Name po; object.Name oo; targetData.Name d;
               FormatBool (targetData.System d); targetData.Type_ d] in
    let '(b, f) :=
      if decide (object.State tk = targetData.State d) then (false, false)
      else transition_rule (targetData.State d) (targetData.HealthState d) in
    r = Done (Some (service.set_System (targetData.System d) take)) ∧
    objects s' = <[service.object take := observed_object d tk b f]> (objects s) ∧
    stackMaps s' = stackMaps s ∧ serviceMaps s' = serviceMaps s ∧
    instanceMaps s' = instanceMaps s ∧ Projects s' = Projects s ∧
    moved b extendingTotalServiceBootstrap ls s s' ∧
    moved f extendingTotalServiceFailure ls s s' ∧
    untouched extendingTotalStackBootstrap s s' ∧
    untouched extendingTotalStackFailure s s' ∧
    untouched extendingTotalInstanceBootstrap s s' ∧
    untouched extendingTotalInstanceFailure s s' ∧
    untouched extendingInstanceBootstrapMsCost s s').
Proof.
  intros Hoo Hpo Hm Htake Htk.
  unfold stack_fetch_service, transition_rule.
  wp_run.
  all: decide_all.
  all: unfold moved, untouched, observed_object.
  all: rewrite ?insert_insert_eq.
  all: destruct tk; cbn [object.Id object.Name object.State object.Type_
    object.BootstrapCount object.FailureCount object.set_Id object.set_State
    object.set_Type object.set_BootstrapCount object.set_FailureCount].
  all: split_all; try done; close_vec.
Qed.

Lemma service_first_sight (o : stack.t) (d : targetData.t) (s : state)
    oo po m :
  objects s !! stack.object o = Some oo →
  objects s !! project.object (stack.parent o) = Some po →
  serviceMaps s !! stack.Services o = Some m →
  m !! targetData.Name d = None →
  wp (stack_fetch_service o d) s (λ r s',
    let ls := [object.Name po; object.Name oo; targetData.Name d;
               FormatBool (targetData.System d); targetData.Type_ d] in
    let '(b, f) :=
      transition_rule (targetData.State d) (targetData.HealthState d) in
    let obj := fresh (dom (objects s)) in
    let ins := fresh (dom (instanceMaps s)) in
    r = Done None ∧
    objects s' = <[obj := created_object d b f]> (objects s) ∧
    serviceMaps s' =
      <[stack.Services o :=
          <[targetData.Name d := service.mk obj ins (targetData.System d) o]> m]>
        (serviceMaps s) ∧
    instanceMaps s' = <[ins := ∅]> (instanceMaps s) ∧
    stackMaps s' = stackMaps s ∧ Projects s' = Projects s ∧
    gained (Z.b2z b) extendingTotalServiceBootstrap ls s s' ∧
    gained (Z.b2z f) extendingTotalServiceFailure ls s s' ∧
    untouched extendingTotalStackBootstrap s s' ∧
    untouched extendingTotalStackFailure s s' ∧
    untouched extendingTotalInstanceBootstrap s s' ∧
    untouched extendingTotalInstanceFailure s s' ∧
    untouched extendingInstanceBootstrapMsCost s s').
Proof.
  intros Hoo Hpo Hm Hnone.
  unfold stack_fetch_service, transition_rule.
  wp_run.
  all: decide_all.
  all: unfold untouched, created_object; cbn [Z.b2z].
  all: split_all; try done; close_vec.
Qed.

(** ** Instances (service.fetch) *)

(** The local copy [take] as an iteration that found the instance leaves it. *)
Definition observed_instance (d : targetData.t) (tk : object.t)
    (take : instance.t) : instance.t :=
  instance.set_System (targetData.System d)
    (if decide (object.State tk ≠ targetData.State d
                ∧ targetData.State d = "running")
     then instance.set_StartupTime (startup_of d) take
     else take).

(** The startup gauge after an observation in which it is measured or not:
    it is handed the [float64] of the [uint64] difference. *)
Definition measured (yes : bool) (d : targetData.t) (ls : labels)
    (s s' : state) : Prop :=
  if yes && bool_decide (targetData.FirstRunningTS d ≠ 0)
  then set_to (float64 (sub64 (targetData.FirstRunningTS d)
                              (targetData.CreatedTS d)))
              extendingInstanceBootstrapMsCost ls s s'
  else untouched extendingInstanceBootstrapMsCost s s'.

Lemma instance_seen_again (o : service.t) (d : targetData.t) (s : state)
    oo po ppo m take tk :
  objects s !! service.object o = Some oo →
  objects s !! stack.object (service.parent o) = Some po →
  objects s !! project.object (stack.parent (service.parent o)) = Some ppo →
  instanceMaps s !! service.Instances o = Some m →
  m !! targetData.Name d = Some take →
  objects s !! instance.object take = Some tk →
  wp (service_fetch_instance o d) s (λ r s',
    let ls := [object.Name ppo; object.Name po; object.Name oo;
               targetData.Name d; FormatBool (targetData.System d);
               targetData.Type_ d] in
    let changed := bool_decide (object.State tk ≠ targetData.State d) in
    let '(b, f) :=
      if changed then instance_rule (targetData.State d) else (false, false) in
    r = Done (Some (observed_instance d tk take)) ∧
    objects s' = <[instance.object take := observed_object d tk b f]> (objects s) ∧
    stackMaps s' = stackMaps s ∧ serviceMaps s' = serviceMaps s ∧
    instanceMaps s' = instanceMaps s ∧ Projects s' = Projects s ∧
    moved b extendingTotalInstanceBootstrap ls s s' ∧
    moved f extendingTotalInstanceFailure ls s s' ∧
    measured (changed && measures false (targetData.State d)) d ls s s' ∧
    untouched extendingTotalStackBootstrap s s' ∧
    untouched extendingTotalStackFailure s s' ∧
    untouched extendingTotalServiceBootstrap s s' ∧
    untouched extendingTotalServiceFailure s s').
Proof.
  intros Hoo Hpo Hppo Hm Htake Htk.
  unfold service_fetch_instance, instance_rule, observed_instance, measured,
    measures, startup_of.
  wp_run.
  all: decide_all.
  all: unfold moved, untouched, observed_object;
    cbn [andb instance.object instance.set_StartupTime].
  all: rewrite ?insert_insert_eq.
  all: destruct tk; cbn [object.Id object.Name object.State object.Type_
    object.BootstrapCount object.FailureCount object.set_Id object.set_State
    object.set_Type object.set_BootstrapCount object.set_FailureCount].
  all: split_all; try done; close_vec.
Qed.

Lemma instance_first_sight (o : service.t) (d : targetData.t) (s : state)
    oo po ppo m :
  objects s !! service.object o = Some oo →
  objects s !! stack.object (service.parent o) = Some po →
  objects s !! project.object (stack.parent (service.parent o)) = Some ppo →
  instanceMaps s !! service.Instances o = Some m →
  m !! targetData.Name d = None →
  wp (service_fetch_instance o d) s (λ r s',
    let ls := [object.Name ppo; object.Name po; object.Name oo;
               targetData.Name d; FormatBool (targetData.System d);
               targetData.Type_ d] in
    let '(b, f) := instance_first_rule (targetData.State d) in
    let yes := measures true (targetData.State d) in
    let obj := fresh (dom (objects s)) in
    r = Done None ∧
    objects s' = <[obj := created_object d b f]> (objects s) ∧
    instanceMaps s' =
      <[service.Instances o :=
          <[targetData.Name d :=
              instance.mk obj (targetData.System d)
                (if yes then startup_of d else 0) o]> m]>
        (instanceMaps s) ∧
    stackMaps s' = stackMaps s ∧ serviceMaps s' = serviceMaps s ∧
    Projects s' = Projects s ∧
    gained (Z.b2z b) extendingTotalInstanceBootstrap ls s s' ∧
    gained (Z.b2z f) extendingTotalInstanceFailure ls s s' ∧
    measured yes d ls s s' ∧
    untouched extendingTotalStackBootstrap s s' ∧
    untouched extendingTotalStackFailure s s' ∧
    untouched extendingTotalServiceBootstrap s s' ∧
    untouched extendingTotalServiceFailure s s').
Proof.
  intros Hoo Hpo Hppo Hm Hnone.
  unfold service_fetch_instance, instance_first_rule, measured, measures,
    startup_of.
  wp_run.
  all: decide_all.
  all: unfold untouched, created_object; cbn [Z.b2z andb].
  all: split_all; try done; close_vec.
Qed.

(** * Whole runs *)

(** [m] takes every state to one that is [R]-related to it, however it ends. *)
Definition preserves (R : relation state) {A} (m : M A) : Prop :=
  ∀ s, wp m s (λ _ s', R s s').

Section Lifting.

Context (R : relation state) `{!PreOrder R}.

Lemma preserves_ret {A} (a : A) : preserves R (ret a).
Proof. intros s. apply wp_ret. reflexivity. Qed.
Lemma preserves_panic {A} : preserves R (@panic A).
Proof. intros s. apply wp_panic. reflexivity. Qed.
Lemma preserves_spin {A} : preserves R (@spin A).
Proof. intros s. apply wp_spin. reflexivity. Qed.
Lemma preserves_gets {A} (f : state → A) : preserves R (gets f).
Proof. intros s. apply wp_gets. reflexivity. Qed.
Lemma preserves_deref {A} (p : option A) : preserves R (deref p).
Proof. intros s. apply wp_deref. destruct p; reflexivity. Qed.
Lemma preserves_load_object l : preserves R (load_object l).
Proof. intros s. apply wp_load_object. destruct (_ !! _); reflexivity. Qed.

Lemma preserves_bind {A B} (m : M A) (f : A → M B) :
  preserves R m → (∀ a, preserves R (f a)) → preserves R (bind m f).
Proof.
  intros Hm Hf s. apply wp_bind. eapply wp_wand; [apply Hm|].
  intros [a| |] s' Hs'; cbn; [|done..].
  eapply wp_wand; [apply Hf|]. intros r s'' Hs''. cbn in Hs''.
  by etrans.
Qed.

Lemma preserves_forM {A} (l : list A) (f : A → M unit) :
  (∀ a, preserves R (f a)) → preserves R (forM l f).
Proof.
  intros Hf. induction l as [|a l IH]; [apply preserves_ret|].
  cbn [forM]. apply preserves_bind; [apply Hf | intros _; apply IH].
Qed.

Lemma preserves_recovered {A} (m : M A) :
  (∀ l, preserves R (log l)) → preserves R m → preserves R (recovered m).
Proof.
  intros Hlog Hm s. apply wp_recovered. eapply wp_wand; [apply Hm|].
  intros [a| |] s' Hs'; cbn; try done.
  etrans; [exact Hs'|]. apply (Hlog LvlError s').
Qed.

Lemma preserves_recovering (m : M unit) :
  (∀ l, preserves R (log l)) → preserves R m → preserves R (recovering m).
Proof.
  intros Hlog Hm. apply preserves_bind; [by apply preserves_recovered|].
  intros _. apply preserves_ret.
Qed.

(** What [R] has to survive: a request going out, a line being logged, a
    POST being recorded, and each body of a loop over observed data. *)
Hypothesis R_tick : ∀ s, R s (set_clock S s).
Hypothesis R_log : ∀ l, preserves R (log l).
Hypothesis R_posted : ∀ url b c e, preserves R (emit (Posted url b c e)).
Hypothesis R_instance : ∀ o d, preserves R (service_fetch_instance o d).
Hypothesis R_service : ∀ o d, preserves R (stack_fetch_service o d).
Hypothesis R_stack : ∀ o d, preserves R (project_fetch_stack o d).
Hypothesis R_host : ∀ d, preserves R (metric_fetch_host d).
Hypothesis R_upsert : ∀ d, preserves R (metric_upsert_project d).
Hypothesis R_reset : preserves R metric_fetch_reset.

Variable cattleURL genObjName : string.
Variable hideSys : bool.
Variable W : world.

Ltac pres :=
  repeat match goal with
  | |- preserves _ (ret _) => apply preserves_ret
  | |- preserves _ panic => apply preserves_panic
  | |- preserves _ spin => apply preserves_spin
  | |- preserves _ (gets _) => apply preserves_gets
  | |- preserves _ (deref _) => apply preserves_deref
  | |- preserves _ (load_object _) => apply preserves_load_object
  | |- preserves _ (log _) => apply R_log
  | |- preserves _ (emit (Posted _ _ _ _)) => apply R_posted
  | |- preserves _ (service_fetch_instance _ _) => apply R_instance
  | |- preserves _ (stack_fetch_service _ _) => apply R_service
  | |- preserves _ (project_fetch_stack _ _) => apply R_stack
  | |- preserves _ (metric_fetch_host _) => apply R_host
  | |- preserves _ (metric_upsert_project _) => apply R_upsert
  | |- preserves _ metric_fetch_reset => apply R_reset
  | |- preserves _ (recovering _) => apply preserves_recovering; [apply R_log|]
  | |- preserves _ (recovered _) => apply preserves_recovered; [apply R_log|]
  | |- preserves _ (forM _ _) => apply preserves_forM; intros ?
  | |- preserves _ (bind _ _) => apply preserves_bind; [|intros ?]
  | |- preserves _ (if ?c then _ else _) => destruct c
  | |- preserves _ (match ?x with Some _ => _ | None => _ end) => destruct x
  | |- preserves _ (match ?x with
                    | BadRequest => _ | Failed _ => _ | Replied _ => _
                    end) => destruct x
  | |- preserves _ (match ?x with
                    | PostBadRequest => _ | PostFailed => _
                    | PostReplied _ => _
                    end) => destruct x
  | |- preserves _ (let '(_, _) := ?x in _) => destruct x
  | |- preserves _ (let _ := _ in _) => cbv zeta
  end.

Lemma preserves_get url : preserves R (rancherClient_get W url).
Proof.
  unfold rancherClient_get, get_decode.
  apply preserves_bind; [intros s; apply R_tick|]. intros r. pres.
Qed.

Lemma preserves_post url b : preserves R (rancherClient_post W url b).
Proof.
  unfold rancherClient_post.
  apply preserves_bind; [intros s; apply R_tick|]. intros r. pres.
Qed.

Lemma preserves_service_fetch_pages fuel o url :
  preserves R (service_fetch_pages W fuel o url).
Proof.
  revert url. induction fuel as [|fuel IH]; intros url; cbn; [pres|].
  apply preserves_bind; [apply preserves_get|]. intros t.
  unfold service_fetch_item. pres. apply IH.
Qed.

Lemma preserves_service_fetch fuel o :
  preserves R (service_fetch cattleURL W fuel o).
Proof. unfold service_fetch. pres. apply preserves_service_fetch_pages. Qed.

Lemma preserves_stack_fetch_pages fuel o url :
  preserves R (stack_fetch_pages W fuel o url).
Proof.
  revert url. induction fuel as [|fuel IH]; intros url; cbn; [pres|].
  apply preserves_bind; [apply preserves_get|]. intros t.
  unfold stack_fetch_item. pres. apply IH.
Qed.

Lemma preserves_stack_fetch fuel o :
  preserves R (stack_fetch cattleURL hideSys W fuel o).
Proof.
  unfold stack_fetch, range_services. pres.
  - apply preserves_stack_fetch_pages.
  - apply preserves_service_fetch.
Qed.

Lemma preserves_project_fetch_pages fuel o url :
  preserves R (project_fetch_pages W fuel o url).
Proof.
  revert url. induction fuel as [|fuel IH]; intros url; cbn; [pres|].
  apply preserves_bind; [apply preserves_get|]. intros t.
  unfold project_fetch_item. pres. apply IH.
Qed.

Lemma preserves_project_fetch fuel o :
  preserves R (project_fetch cattleURL hideSys W fuel o).
Proof.
  unfold project_fetch, range_stacks. pres.
  - apply preserves_project_fetch_pages.
  - apply preserves_stack_fetch.
Qed.

Lemma preserves_metric_fetch_hosts :
  preserves R (metric_fetch_hosts cattleURL W).
Proof.
  unfold metric_fetch_hosts, metric_fetch_host_item.
  apply preserves_bind; [apply preserves_get|]. intros t. pres.
Qed.

Lemma preserves_metric_fetch_projects fuel :
  preserves R (metric_fetch_projects cattleURL hideSys W fuel).
Proof.
  unfold metric_fetch_projects, metric_upsert_item, range_Projects.
  apply preserves_bind; [apply preserves_get|]. intros t. pres.
  apply preserves_project_fetch.
Qed.

Lemma preserves_metric_fetch fuel :
  preserves R (metric_fetch cattleURL hideSys W fuel).
Proof.
  unfold metric_fetch. pres.
  - apply preserves_metric_fetch_hosts.
  - apply preserves_metric_fetch_projects.
Qed.

Lemma preserves_backup_listing l m : preserves R (backup_listing l m).
Proof. revert m. induction l as [|od l IH]; intros m; cbn; pres. apply IH. Qed.

Lemma preserves_metric_backup :
  preserves R (metric_backup cattleURL genObjName W).
Proof.
  unfold metric_backup, range_Projects, backup_project, backup_remove.
  apply preserves_bind.
  - apply preserves_recovered; [apply R_log|].
    apply preserves_bind; [apply preserves_get|]. intros t.
    apply preserves_backup_listing.
  - intros listed. pres; try apply preserves_post.
    all: pres; try apply preserves_post.
Qed.

End Lifting.

(** ** What every run keeps *)

(** An observation that finds the node in the state it is stored in. *)
Definition quiet (e : event) : Prop :=
  match e with Seen st ob => st = Some ob | _ => True end.

(** A [+= 1] applied below the largest [uint64]. *)
Definition no_wrap (e : event) : Prop :=
  match e with Incremented old => 0 ≤ old < uint64_max | _ => True end.

(** Nothing leaves the model: every object stays where it is under its
    name, every map keeps the entries it has, struct for struct. *)
Record persists (s s' : state) : Prop := mkPersists {
  persists_objects : ∀ l o, objects s !! l = Some o →
    ∃ o', objects s' !! l = Some o' ∧ object.Name o' = object.Name o;
  persists_stackMaps : ∀ m c, stackMaps s !! m = Some c →
    ∃ c', stackMaps s' !! m = Some c' ∧ c ⊆ c';
  persists_serviceMaps : ∀ m c, serviceMaps s !! m = Some c →
    ∃ c', serviceMaps s' !! m = Some c' ∧ c ⊆ c';
  persists_instanceMaps : ∀ m c, instanceMaps s !! m = Some c →
    ∃ c', instanceMaps s' !! m = Some c' ∧ c ⊆ c';
  persists_Projects : Projects s ⊆ Projects s'
}.

(** The counter fields of the objects did not go down, resp. did not move. *)
Definition counts_le (s s' : state) : Prop :=
  ∀ l o o', objects s !! l = Some o → objects s' !! l = Some o' →
    object.BootstrapCount o ≤ object.BootstrapCount o' ∧
    object.FailureCount o ≤ object.FailureCount o'.
Definition counts_eq (s s' : state) : Prop :=
  ∀ l o o', objects s !! l = Some o → objects s' !! l = Some o' →
    object.BootstrapCount o' = object.BootstrapCount o ∧
    object.FailureCount o' = object.FailureCount o.

(** The counter vectors are what they were, series for series. *)
Definition counters_eq (s s' : state) : Prop :=
  ∀ v, is_counter v = true → registry s' v = registry s v.

(** What a run from [s] to [s'] is known to keep; [new] is what it added to
    the trace. *)
Definition summary (s s' : state) : Prop :=
  ∃ new, trace s' = new ++ trace s ∧
    persists s s' ∧
    (Forall no_wrap new → counts_le s s') ∧
    (Forall quiet new → counts_eq s s' ∧ counters_eq s s').

Lemma persists_refl s : persists s s.
Proof. split; eauto. Qed.

Lemma persists_trans s1 s2 s3 : persists s1 s2 → persists s2 s3 → persists s1 s3.
Proof.
  intros [Ho Hst Hsv Hin Hp] [Ho' Hst' Hsv' Hin' Hp']. split.
  - intros l o H. destruct (Ho _ _ H) as (o2 & H2 & E2).
    destruct (Ho' _ _ H2) as (o3 & H3 & E3). exists o3. split; [done|congruence].
  - intros m c H. destruct (Hst _ _ H) as (c2 & H2 & E2).
    destruct (Hst' _ _ H2) as (c3 & H3 & E3). exists c3. split; [done|by etrans].
  - intros m c H. destruct (Hsv _ _ H) as (c2 & H2 & E2).
    destruct (Hsv' _ _ H2) as (c3 & H3 & E3). exists c3. split; [done|by etrans].
  - intros m c H. destruct (Hin _ _ H) as (c2 & H2 & E2).
    destruct (Hin' _ _ H2) as (c3 & H3 & E3). exists c3. split; [done|by etrans].
  - by etrans.
Qed.

#[global] Instance summary_preorder : PreOrder summary.
Proof.
  split.
  - intros s. exists []. split; [done|]. split; [apply persists_refl|].
    split; [intros _ l o o' H H'|intros _; split; [intros l o o' H H'|done]];
      assert (o' = o) as -> by congruence; lia.
  - intros s1 s2 s3 (n1 & T1 & P1 & L1 & Q1) (n2 & T2 & P2 & L2 & Q2).
    exists (n2 ++ n1). split; [by rewrite T2, T1, app_assoc|].
    split; [by eapply persists_trans|]. split.
    + intros [F2 F1]%Forall_app l o o' H H'.
      destruct (persists_objects _ _ P1 _ _ H) as (o2 & H2 & _).
      destruct (L1 F1 _ _ _ H H2), (L2 F2 _ _ _ H2 H'). lia.
    + intros [F2 F1]%Forall_app.
      destruct (Q1 F1) as [C1 V1], (Q2 F2) as [C2 V2]. split.
      * intros l o o' H H'.
        destruct (persists_objects _ _ P1 _ _ H) as (o2 & H2 & _).
        destruct (C1 _ _ _ H H2), (C2 _ _ _ H2 H'). lia.
      * intros v Hv. rewrite (V2 v Hv). by apply V1.
Qed.

(** ** The steps keep the summary *)

Lemma keeps_insert (objs : gmap loc object.t) l o o' :
  objs !! l = Some o → object.Name o' = object.Name o →
  ∀ l0 o0, objs !! l0 = Some o0 →
    ∃ o1, <[l := o']> objs !! l0 = Some o1 ∧ object.Name o1 = object.Name o0.
Proof.
  intros Hl HN l0 o0 H0. destruct (decide (l0 = l)) as [->|Hne].
  - exists o'. rewrite lookup_insert_eq. split; [done|congruence].
  - exists o0. by rewrite lookup_insert_ne.
Qed.

Lemma fresh_None {V} (ms : gmap loc V) : ms !! fresh (dom ms) = None.
Proof. apply not_elem_of_dom, is_fresh. Qed.

Lemma keeps_fresh (objs : gmap loc object.t) o :
  ∀ l0 o0, objs !! l0 = Some o0 →
    ∃ o1, <[fresh (dom objs) := o]> objs !! l0 = Some o1
          ∧ object.Name o1 = object.Name o0.
Proof.
  intros l0 o0 H0. exists o0. split; [|done].
  rewrite lookup_insert_ne; [done|]. intros E.
  by rewrite <- E, fresh_None in H0.
Qed.

Lemma grows_refl {V} (ms : gmap loc (gmap string V)) :
  ∀ m c, ms !! m = Some c → ∃ c', ms !! m = Some c' ∧ c ⊆ c'.
Proof. intros m c H. by exists c. Qed.

Lemma grows_insert {V} (ms : gmap loc (gmap string V)) m c k v :
  ms !! m = Some c → c !! k = None →
  ∀ m0 c0, ms !! m0 = Some c0 →
    ∃ c', <[m := <[k := v]> c]> ms !! m0 = Some c' ∧ c0 ⊆ c'.
Proof.
  intros Hm Hk m0 c0 H0. destruct (decide (m0 = m)) as [->|Hne].
  - exists (<[k := v]> c). rewrite lookup_insert_eq. split; [done|].
    assert (c0 = c) as -> by congruence. by apply insert_subseteq.
  - exists c0. by rewrite lookup_insert_ne.
Qed.

Lemma grows_fresh {V} (ms : gmap loc (gmap string V)) c :
  ∀ m0 c0, ms !! m0 = Some c0 →
    ∃ c', <[fresh (dom ms) := c]> ms !! m0 = Some c' ∧ c0 ⊆ c'.
Proof.
  intros m0 c0 H0. exists c0. split; [|done].
  rewrite lookup_insert_ne; [done|]. intros E.
  by rewrite <- E, fresh_None in H0.
Qed.

(** Reading an object back after the writes of a step. *)
Lemma read_insert (objs : gmap loc object.t) l o' l0 o0 o1 :
  objs !! l0 = Some o0 → <[l := o']> objs !! l0 = Some o1 →
  (l0 = l ∧ o1 = o') ∨ o1 = o0.
Proof.
  intros H0 H1. destruct (decide (l0 = l)) as [->|Hne].
  - rewrite lookup_insert_eq in H1. left. split; congruence.
  - rewrite lookup_insert_ne in H1 by done. right. congruence.
Qed.

Lemma read_fresh (objs : gmap loc object.t) o l0 o0 o1 :
  objs !! l0 = Some o0 → <[fresh (dom objs) := o]> objs !! l0 = Some o1 →
  o1 = o0.
Proof.
  intros H0 H1. rewrite lookup_insert_ne in H1; [congruence|].
  intros E. by rewrite <- E, fresh_None in H0.
Qed.

(** The summary, field by field. *)
Lemma summary_of objs objs' ims ims' svms svms' stms stms' prjs prjs'
    reg reg' clk clk' tr new :
  (∀ l o, objs !! l = Some o →
     ∃ o', objs' !! l = Some o' ∧ object.Name o' = object.Name o) →
  (∀ m c, stms !! m = Some c → ∃ c', stms' !! m = Some c' ∧ c ⊆ c') →
  (∀ m c, svms !! m = Some c → ∃ c', svms' !! m = Some c' ∧ c ⊆ c') →
  (∀ m c, ims !! m = Some c → ∃ c', ims' !! m = Some c' ∧ c ⊆ c') →
  prjs ⊆ prjs' →
  (Forall no_wrap new → ∀ l o o', objs !! l = Some o → objs' !! l = Some o' →
     object.BootstrapCount o ≤ object.BootstrapCount o' ∧
     object.FailureCount o ≤ object.FailureCount o') →
  (Forall quiet new →
     (∀ l o o', objs !! l = Some o → objs' !! l = Some o' →
        object.BootstrapCount o' = object.BootstrapCount o ∧
        object.FailureCount o' = object.FailureCount o) ∧
     (∀ v, is_counter v = true → reg' v = reg v)) →
  summary (mkState objs ims svms stms prjs reg clk tr)
          (mkState objs' ims' svms' stms' prjs' reg' clk' (new ++ tr)).
Proof.
  intros Ho Hst Hsv Hin Hp Hle Hq. exists new. split; [done|].
  split; [by split|]. split; [exact Hle|exact Hq].
Qed.

(** What a run added in front of the trace [tr]. *)
Ltac new_of t tr :=
  lazymatch t with
  | tr => constr:(@nil event)
  | ?e :: ?t' => let n := new_of t' tr in constr:(e :: n)
  end.

Ltac obj_fields :=
  cbn [object.Id object.Name object.State object.Type_ object.BootstrapCount
       object.FailureCount object.set_Id object.set_State object.set_Type
       object.set_BootstrapCount object.set_FailureCount] in *.

(** The object read at [l0] before and after the writes of a step. *)
Ltac read_back H0 H1 :=
  lazymatch type of H1 with
  | <[fresh (dom _) := _]> _ !! _ = Some _ =>
      apply (read_fresh _ _ _ _ _ H0) in H1 as ->
  | <[_ := _]> _ !! _ = Some _ =>
      destruct (read_insert _ _ _ _ _ _ H0 H1) as [[-> ->]| ->];
      [ match goal with
        | E : ?x = Some _ |- _ =>
            lazymatch type of H0 with x = _ =>
              rewrite E in H0; injection H0 as <- end
        end |]
  | _ => rewrite H0 in H1; injection H1 as <-
  end.

(** The events of a run, one by one. *)
Ltac events :=
  repeat match goal with
  | H : Forall _ (_ :: _) |- _ => apply Forall_cons in H as [? H]
  end; cbn [no_wrap quiet] in *.

(** A state written out against the state it came from. *)
Ltac close_summary :=
  lazymatch goal with
  | |- summary (mkState ?a ?b ?c ?e ?f ?g ?h ?tr)
               (mkState ?a' ?b' ?c' ?e' ?f' ?g' ?h' ?t) =>
     let n := new_of t tr in
     change (summary (mkState a b c e f g h tr)
                     (mkState a' b' c' e' f' g' h' (n ++ tr)));
     cbn [instance.object instance.set_StartupTime];
     rewrite ?insert_insert_eq;
     apply summary_of
  end;
  [ first [ by eauto | eapply keeps_insert; [eassumption | reflexivity]
          | apply keeps_fresh ]
  | first [ apply grows_refl | eapply grows_insert; eassumption
          | apply grows_fresh ]
  | first [ apply grows_refl | eapply grows_insert; eassumption
          | apply grows_fresh ]
  | first [ apply grows_refl | eapply grows_insert; eassumption
          | apply grows_fresh ]
  | first [ done | by apply insert_subseteq ]
  | let HF := fresh "HF" in let H0 := fresh "H0" in let H1 := fresh "H1" in
    intros HF ??? H0 H1; read_back H0 H1; events; obj_fields;
    rewrite ?add64_exact by lia; lia
  | let HF := fresh "HF" in let H0 := fresh "H0" in let H1 := fresh "H1" in
    intros HF; events; try congruence;
    (split;
     [ intros ??? H0 H1; read_back H0 H1; obj_fields; lia
     | let v := fresh "v" in let Hv := fresh "Hv" in
       intros v Hv; destruct v; try discriminate Hv; eval_reg; done ]) ].

Lemma summary_project_fetch_stack o d :
  preserves summary (project_fetch_stack o d).
Proof.
  intros s. unfold project_fetch_stack. wp_run.
  all: close_summary.
Qed.

Lemma summary_stack_fetch_service o d :
  preserves summary (stack_fetch_service o d).
Proof.
  intros s. unfold stack_fetch_service. wp_run.
  all: close_summary.
Qed.

Lemma summary_service_fetch_instance o d :
  preserves summary (service_fetch_instance o d).
Proof.
  intros s. unfold service_fetch_instance. wp_run.
  all: close_summary.
Qed.

Lemma summary_tick s : summary s (set_clock S s).
Proof.
  destruct s as [objs ims svms stms prjs reg clk tr]. unfold set_clock.
  cbn [objects instanceMaps serviceMaps stackMaps Projects registry clock
       trace].
  close_summary.
Qed.

Lemma summary_log l : preserves summary (log l).
Proof. intros s. unfold log. wp_run. close_summary. Qed.

Lemma summary_posted url b c e : preserves summary (emit (Posted url b c e)).
Proof. intros s. wp_run. close_summary. Qed.

Lemma summary_metric_fetch_host d : preserves summary (metric_fetch_host d).
Proof. intros s. unfold metric_fetch_host. wp_run. close_summary. Qed.

Lemma summary_metric_upsert_project d :
  preserves summary (metric_upsert_project d).
Proof. intros s. unfold metric_upsert_project. wp_run. all: close_summary. Qed.

Lemma summary_metric_fetch_reset : preserves summary metric_fetch_reset.
Proof. intros s. unfold metric_fetch_reset. wp_run. close_summary. Qed.

(** Whatever the server answers and however the scrape ends, it keeps the
    summary. *)
Lemma summary_metric_fetch cattleURL hideSys W fuel :
  preserves summary (metric_fetch cattleURL hideSys W fuel).
Proof.
  apply preserves_metric_fetch; auto using summary_tick, summary_log,
    summary_posted, summary_service_fetch_instance,
    summary_stack_fetch_service, summary_project_fetch_stack,
    summary_metric_fetch_host, summary_metric_upsert_project,
    summary_metric_fetch_reset with typeclass_instances.
Qed.

Lemma summary_metric_backup cattleURL genObjName W :
  preserves summary (metric_backup cattleURL genObjName W).
Proof.
  apply preserves_metric_backup; auto using summary_tick, summary_log,
    summary_posted with typeclass_instances.
Qed.

(** * The claims *)

(** ** Fixtures: a server with one environment and one stack *)

Module Example.

Definition node (name state health id ty : string) : targetData.t :=
  targetData.mk health "" name state false 0 "" id "" "" ty "" 0 0 None.

Definition page (l : list targetData.t) : transport :=
  Replied (mkBody (target.mk (Some <$> l) (Some (targetPagination.mk ""))) false).

(** Every listing of projects shows the environment [env]; the listing of
    its stacks shows [st]; every other listing is empty. *)
Definition server (st : list targetData.t) : world :=
  mkWorld
    (λ _ url,
       if decide (url = "U/projects")
       then page [node "env" "active" "healthy" "1a5" "project"]
       else if decide (url = "U/projects/1a5/stacks?limit=100&sort=id")
       then page st
       else page [])
    (λ _ _ _, PostFailed).

Definition web (state health : string) : targetData.t :=
  node "web" state health "1st1" "stack".

Definition scrape (st : targetData.t) (s : state) : state :=
  (metric_fetch "U" false (server [st]) 5 s).2.

(** The four scrapes of the stack flap. *)
Definition flap1 : state := scrape (web "active" "healthy") newMetric.
Definition flap2 : state := scrape (web "upgrading" "healthy") flap1.
Definition flap3 : state := scrape (web "active" "unhealthy") flap2.
Definition flap4 : state := scrape (web "active" "unhealthy") flap3.

Definition stack_totals (s : state) : option Z * option Z :=
  (value s extendingTotalStackBootstrap ["env"; "web"; "false"; "stack"],
   value s extendingTotalStackFailure ["env"; "web"; "false"; "stack"]).

End Example.

(** The two counter fields of the node at [l], counted up as [b] and [f]
    tell: by the [+= 1] of [uint64], which below the largest value is the
    successor. *)
Definition counted (b f : bool) (l : loc) (s s' : state) : Prop :=
  ∃ o o', objects s !! l = Some o ∧ objects s' !! l = Some o' ∧
    object.BootstrapCount o' =
      (if b then add64 (object.BootstrapCount o) 1 else object.BootstrapCount o) ∧
    object.FailureCount o' =
      (if f then add64 (object.FailureCount o) 1 else object.FailureCount o) ∧
    (0 ≤ object.BootstrapCount o < uint64_max →
     object.BootstrapCount o' = object.BootstrapCount o + Z.b2z b) ∧
    (0 ≤ object.FailureCount o < uint64_max →
     object.FailureCount o' = object.FailureCount o + Z.b2z f).

(** A node created at [l] with its two counter fields at [b] and [f]. *)
Definition created (b f : bool) (l : loc) (s s' : state) : Prop :=
  objects s !! l = None ∧
  ∃ o', objects s' !! l = Some o' ∧
    object.BootstrapCount o' = Z.b2z b ∧ object.FailureCount o' = Z.b2z f.

Lemma counted_observed d tk b f l s s' :
  objects s !! l = Some tk →
  objects s' = <[l := observed_object d tk b f]> (objects s) →
  counted b f l s s'.
Proof.
  intros Hl Hs. exists tk, (observed_object d tk b f).
  rewrite Hs, lookup_insert_eq. unfold observed_object.
  cbn [object.BootstrapCount object.FailureCount].
  split_all; try done.
  - intros H. destruct b; cbn [Z.b2z]; [by apply add64_exact | lia].
  - intros H. destruct f; cbn [Z.b2z]; [by apply add64_exact | lia].
Qed.

Lemma created_fresh d b f s s' :
  objects s' = <[fresh (dom (objects s)) := created_object d b f]> (objects s) →
  created b f (fresh (dom (objects s))) s s'.
Proof.
  intros Hs. split; [apply fresh_None|].
  exists (created_object d b f). by rewrite Hs, lookup_insert_eq.
Qed.

(** C1: a stack or a service that is in the model and is observed in a
    state other than the stored one adds to (bootstrap, failure): (1, 1 iff
    the health is unhealthy) when the new state is active, (1, 1) when it is
    error, nothing otherwise, on the counter series of the node and on its
    two fields; a node seen for the first time is counted by the same rule,
    its fields starting at what was added; and over the four scrapes of the
    stack flap the totals read bootstrap 1, 1, 2, 2 and failure 0, 0, 1, 1. *)
Theorem C1_transition_accounting :
  (∀ o d s oo m take tk,
     objects s !! project.object o = Some oo →
     stackMaps s !! project.Stacks o = Some m →
     m !! targetData.Name d = Some take →
     objects s !! stack.object take = Some tk →
     object.State tk ≠ targetData.State d →
     wp (project_fetch_stack o d) s (λ _ s',
       let ls := [object.Name oo; targetData.Name d;
                  FormatBool (targetData.System d); targetData.Type_ d] in
       let '(b, f) :=
         transition_rule (targetData.State d) (targetData.HealthState d) in
       moved b extendingTotalStackBootstrap ls s s' ∧
       moved f extendingTotalStackFailure ls s s' ∧
       counted b f (stack.object take) s s')) ∧
  (∀ o d s oo po m take tk,
     objects s !! stack.object o = Some oo →
     objects s !! project.object (stack.parent o) = Some po →
     serviceMaps s !! stack.Services o = Some m →
     m !! targetData.Name d = Some take →
     objects s !! service.object take = Some tk →
     object.State tk ≠ targetData.State d →
     wp (stack_fetch_service o d) s (λ _ s',
       let ls := [object.Name po; object.Name oo; targetData.Name d;
                  FormatBool (targetData.System d); targetData.Type_ d] in
       let '(b, f) :=
         transition_rule (targetData.State d) (targetData.HealthState d) in
       moved b extendingTotalServiceBootstrap ls s s' ∧
       moved f extendingTotalServiceFailure ls s s' ∧
       counted b f (service.object take) s s')) ∧
  (∀ o d s oo m,
     objects s !! project.object o = Some oo →
     stackMaps s !! project.Stacks o = Some m →
     m !! targetData.Name d = None →
     wp (project_fetch_stack o d) s (λ _ s',
       let ls := [object.Name oo; targetData.Name d;
                  FormatBool (targetData.System d); targetData.Type_ d] in
       let '(b, f) :=
         transition_rule (targetData.State d) (targetData.HealthState d) in
       gained (Z.b2z b) extendingTotalStackBootstrap ls s s' ∧
       gained (Z.b2z f) extendingTotalStackFailure ls s s' ∧
       created b f (fresh (dom (objects s))) s s')) ∧
  (∀ o d s oo po m,
     objects s !! stack.object o = Some oo →
     objects s !! project.object (stack.parent o) = Some po →
     serviceMaps s !! stack.Services o = Some m →
     m !! targetData.Name d = None →
     wp (stack_fetch_service o d) s (λ _ s',
       let ls := [object.Name po; object.Name oo; targetData.Name d;
                  FormatBool (targetData.System d); targetData.Type_ d] in
       let '(b, f) :=
         transition_rule (targetData.State d) (targetData.HealthState d) in
       gained (Z.b2z b) extendingTotalServiceBootstrap ls s s' ∧
       gained (Z.b2z f) extendingTotalServiceFailure ls s s' ∧
       created b f (fresh (dom (objects s))) s s')) ∧
  Example.stack_totals <$>
    [Example.flap1; Example.flap2; Example.flap3; Example.flap4]
  = [(Some 1, Some 0); (Some 1, Some 0); (Some 2, Some 1); (Some 2, Some 1)].
Proof.
  split_all.
  - intros o d s oo m take tk Hoo Hm Htake Htk Hne.
    eapply wp_wand; [by apply (stack_seen_again o d s oo m take tk)|].
    intros r s'. cbv zeta. rewrite decide_False by done.
    destruct (transition_rule _ _) as [b f]. intros H.
    destruct H as (_ & Ho & _ & _ & _ & _ & Hb & Hf & _).
    split_all; [done..|]. by eapply counted_observed.
  - intros o d s oo po m take tk Hoo Hpo Hm Htake Htk Hne.
    eapply wp_wand; [by apply (service_seen_again o d s oo po m take tk)|].
    intros r s'. cbv zeta. rewrite decide_False by done.
    destruct (transition_rule _ _) as [b f]. intros H.
    destruct H as (_ & Ho & _ & _ & _ & _ & Hb & Hf & _).
    split_all; [done..|]. by eapply counted_observed.
  - intros o d s oo m Hoo Hm Hnone.
    eapply wp_wand; [by apply (stack_first_sight o d s oo m)|].
    intros r s'. cbv zeta.
    destruct (transition_rule _ _) as [b f]. intros H.
    destruct H as (_ & Ho & _ & _ & _ & _ & Hb & Hf & _).
    split_all; [done..|]. by eapply created_fresh.
  - intros o d s oo po m Hoo Hpo Hm Hnone.
    eapply wp_wand; [by apply (service_first_sight o d s oo po m)|].
    intros r s'. cbv zeta.
    destruct (transition_rule _ _) as [b f]. intros H.
    destruct H as (_ & Ho & _ & _ & _ & _ & Hb & Hf & _).
    split_all; [done..|]. by eapply created_fresh.
  - vm_compute. reflexivity.
Qed.

Lemma C1_witness :
  let o := project.mk 1 1 in
  let d := Example.web "active" "unhealthy" in
  let s := Example.flap2 in
  let oo := object.mk "1a5" "env" "" "" 0 0 in
  let take := stack.mk 2 1 false o in
  let tk := object.mk "1st1" "web" "upgrading" "stack" 1 0 in
  let ls := ["env"; "web"; "false"; "stack"] in
  objects s !! project.object o = Some oo ∧
  stackMaps s !! project.Stacks o = Some {[ "web" := take ]} ∧
  objects s !! stack.object take = Some tk ∧
  object.State tk ≠ targetData.State d ∧
  wp (project_fetch_stack o d) s (λ _ s',
    moved true extendingTotalStackBootstrap ls s s' ∧
    moved true extendingTotalStackFailure ls s s' ∧
    counted true true (stack.object take) s s').
Proof.
  cbv zeta.
  assert (objects Example.flap2 !! 1%positive
          = Some (object.mk "1a5" "env" "" "" 0 0)) as Hoo
    by (vm_compute; reflexivity).
  assert (stackMaps Example.flap2 !! 1%positive
          = Some {[ "web" := stack.mk 2 1 false (project.mk 1 1) ]}) as Hm
    by (vm_compute; reflexivity).
  assert (objects Example.flap2 !! 2%positive
          = Some (object.mk "1st1" "web" "upgrading" "stack" 1 0)) as Htk
    by (vm_compute; reflexivity).
  split_all; [done | done | done | discriminate |].
  exact (proj1 C1_transition_accounting (project.mk 1 1)
           (Example.web "active" "unhealthy") Example.flap2 _ _
           (stack.mk 2 1 false (project.mk 1 1)) _
           Hoo Hm eq_refl Htk ltac:(discriminate)).
Defined.

(** ** Fixtures: a server with an environment, a stack and a service *)

Module Cluster.

(** The listing of the stacks shows [web], that of its services [api], and
    that of the instances of [api] shows [ins]. *)
Definition server (ins : list targetData.t) : world :=
  mkWorld
    (λ _ url,
       if decide (url = "U/projects")
       then Example.page [Example.node "env" "active" "healthy" "1a5" "project"]
       else if decide (url = "U/projects/1a5/stacks?limit=100&sort=id")
       then Example.page [Example.node "web" "active" "healthy" "1st1" "stack"]
       else if decide (url = "U/stacks/1st1/services?limit=100&sort=id")
       then Example.page [Example.node "api" "active" "healthy" "1s1" "service"]
       else if decide (url = "U/services/1s1/instances?limit=100&sort=id")
       then Example.page ins
       else Example.page [])
    (λ _ _ _, PostFailed).

(** An instance of [api] with its two time stamps. *)
Definition box (state : string) (created firstRunning : Z) : targetData.t :=
  targetData.mk "healthy" "" "api-1" state false 0 "" "1i1" "" "" "container"
    "" created firstRunning None.

Definition scrape (ins : list targetData.t) (s : state) : state :=
  (metric_fetch "U" false (server ins) 5 s).2.

(** The model once the service is known and has no instance yet. *)
Definition bare : state := scrape [] newMetric.

Definition env : project.t := project.mk 1 1.
Definition web : stack.t := stack.mk 2 1 false env.
Definition api : service.t := service.mk 3 1 false web.

End Cluster.

(** C2, as stated, fails: an instance first seen running whose createdTS
    (5000) is later than its firstRunningTS (2000) does not set the startup
    gauge to firstRunningTS - createdTS but to the [float64] of the [uint64]
    difference, 2^64 - 3000 rounded to 53 bits. *)
Lemma C2_counterexample :
  let d := Cluster.box "running" 5000 2000 in
  let ls := ["env"; "web"; "api"; "api-1"; "false"; "container"] in
  let s' := (service_fetch_instance Cluster.api d Cluster.bare).2 in
  value s' extendingInstanceBootstrapMsCost ls = Some 18446744073709549568 ∧
  value s' extendingInstanceBootstrapMsCost ls
    ≠ Some (targetData.FirstRunningTS d - targetData.CreatedTS d).
Proof. cbv zeta. split; [vm_compute; reflexivity|]. vm_compute. discriminate. Qed.

(** C2, amended: an instance seen for the first time in running or stopped,
    or one in the model that turns to running from another state, adds 1 to
    the bootstrap counter and nothing to the failure counter, and the
    startup gauge is set exactly when firstRunningTS is not zero, to the
    [float64] of the [uint64] difference firstRunningTS - createdTS: this
    is the plain difference when createdTS is not the later one and the
    difference is below 2^53, and it is the difference plus 2^64, rounded,
    when createdTS is the later one.  An instance seen for the first time
    in error, or turning to error, adds 1 to both counters; one seen for
    the first time in any other state has both series created without
    anything added. *)
Theorem C2_instance_accounting :
  (∀ o d s oo po ppo m,
     objects s !! service.object o = Some oo →
     objects s !! stack.object (service.parent o) = Some po →
     objects s !! project.object (stack.parent (service.parent o)) = Some ppo →
     instanceMaps s !! service.Instances o = Some m →
     m !! targetData.Name d = None →
     wp (service_fetch_instance o d) s (λ _ s',
       let ls := [object.Name ppo; object.Name po; object.Name oo;
                  targetData.Name d; FormatBool (targetData.System d);
                  targetData.Type_ d] in
       let '(b, f) := instance_first_rule (targetData.State d) in
       gained (Z.b2z b) extendingTotalInstanceBootstrap ls s s' ∧
       gained (Z.b2z f) extendingTotalInstanceFailure ls s s' ∧
       measured (bool_decide (targetData.State d = "running"
                              ∨ targetData.State d = "stopped")) d ls s s' ∧
       created b f (fresh (dom (objects s))) s s')) ∧
  (∀ o d s oo po ppo m take tk,
     objects s !! service.object o = Some oo →
     objects s !! stack.object (service.parent o) = Some po →
     objects s !! project.object (stack.parent (service.parent o)) = Some ppo →
     instanceMaps s !! service.Instances o = Some m →
     m !! targetData.Name d = Some take →
     objects s !! instance.object take = Some tk →
     object.State tk ≠ targetData.State d →
     wp (service_fetch_instance o d) s (λ _ s',
       let ls := [object.Name ppo; object.Name po; object.Name oo;
                  targetData.Name d; FormatBool (targetData.System d);
                  targetData.Type_ d] in
       let '(b, f) := instance_rule (targetData.State d) in
       moved b extendingTotalInstanceBootstrap ls s s' ∧
       moved f extendingTotalInstanceFailure ls s s' ∧
       measured (bool_decide (targetData.State d = "running")) d ls s s' ∧
       counted b f (instance.object take) s s')) ∧
  (∀ new,
     instance_first_rule new =
       if bool_decide (new = "running" ∨ new = "stopped") then (true, false)
       else if bool_decide (new = "error") then (true, true)
       else (false, false)) ∧
  (∀ new,
     instance_rule new =
       if bool_decide (new = "running") then (true, false)
       else if bool_decide (new = "error") then (true, true)
       else (false, false)) ∧
  (∀ created firstRunning,
     0 ≤ created ≤ firstRunning → firstRunning - created < 2 ^ 53 →
     firstRunning < 2 ^ 64 →
     float64 (sub64 firstRunning created) = firstRunning - created) ∧
  (∀ created firstRunning,
     0 ≤ firstRunning < created → created < 2 ^ 64 →
     float64 (sub64 firstRunning created)
     = float64 (firstRunning - created + 2 ^ 64)).
Proof.
  split_all.
  - intros o d s oo po ppo m Hoo Hpo Hppo Hm Hnone.
    eapply wp_wand; [by apply (instance_first_sight o d s oo po ppo m)|].
    intros r s'. cbv zeta.
    destruct (instance_first_rule _) as [b f]. intros H.
    destruct H as (_ & Ho & _ & _ & _ & _ & Hb & Hf & Hg & _).
    split_all; [done..| |by eapply created_fresh].
    unfold measures in Hg.
    erewrite bool_decide_ext; [exact Hg|]. intuition idtac.
  - intros o d s oo po ppo m take tk Hoo Hpo Hppo Hm Htake Htk Hne.
    eapply wp_wand;
      [by apply (instance_seen_again o d s oo po ppo m take tk)|].
    intros r s'. cbv zeta. rewrite bool_decide_true by done.
    destruct (instance_rule _) as [b f]. intros H.
    destruct H as (_ & Ho & _ & _ & _ & _ & Hb & Hf & Hg & _).
    split_all; [done..| |by eapply counted_observed].
    unfold measures in Hg. cbn [andb] in Hg.
    erewrite bool_decide_ext; [exact Hg|]. intuition congruence.
  - intros new. unfold instance_first_rule.
    destruct (decide (new = "error")) as [->|Hne]; [done|].
    rewrite (bool_decide_false (new = "error")) by done.
    destruct (decide (new = "stopped" ∨ new = "running")).
    + rewrite bool_decide_true; [done|]. intuition idtac.
    + rewrite bool_decide_false; [done|]. intuition idtac.
  - intros new. unfold instance_rule.
    destruct (decide (new = "running")) as [->|Hne]; [done|].
    rewrite (bool_decide_false (new = "running")) by done.
    destruct (decide (new = "error")).
    + by rewrite bool_decide_true.
    + by rewrite bool_decide_false.
  - intros c f H1 H2 H3. rewrite sub64_exact by lia. apply float64_exact. lia.
  - intros c f H1 H2. by rewrite sub64_wraps by lia.
Qed.

Lemma C2_witness :
  let d := Cluster.box "running" 2000 5000 in
  let s := Cluster.bare in
  let ls := ["env"; "web"; "api"; "api-1"; "false"; "container"] in
  objects s !! 3%positive = Some (object.mk "1s1" "api" "active" "service" 1 0) ∧
  objects s !! 2%positive = Some (object.mk "1st1" "web" "active" "stack" 1 0) ∧
  objects s !! 1%positive = Some (object.mk "1a5" "env" "" "" 0 0) ∧
  instanceMaps s !! 1%positive = Some ∅ ∧
  wp (service_fetch_instance Cluster.api d) s (λ _ s',
    gained 1 extendingTotalInstanceBootstrap ls s s' ∧
    gained 0 extendingTotalInstanceFailure ls s s' ∧
    set_to 3000 extendingInstanceBootstrapMsCost ls s s' ∧
    created true false 4%positive s s').
Proof.
  cbv zeta.
  assert (objects Cluster.bare !! 3%positive
          = Some (object.mk "1s1" "api" "active" "service" 1 0)) as Hoo
    by (vm_compute; reflexivity).
  assert (objects Cluster.bare !! 2%positive
          = Some (object.mk "1st1" "web" "active" "stack" 1 0)) as Hpo
    by (vm_compute; reflexivity).
  assert (objects Cluster.bare !! 1%positive
          = Some (object.mk "1a5" "env" "" "" 0 0)) as Hppo
    by (vm_compute; reflexivity).
  assert (instanceMaps Cluster.bare !! 1%positive = Some ∅) as Hm
    by (vm_compute; reflexivity).
  split_all; [done..|].
  exact (proj1 C2_instance_accounting Cluster.api
           (Cluster.box "running" 2000 5000) Cluster.bare _ _ _ _
           Hoo Hpo Hppo Hm eq_refl).
Defined.

(** No counter vector moved, and the node at [l] kept its two fields. *)
Definition nothing_counted (l : loc) (s s' : state) : Prop :=
  counters_eq s s' ∧ counted false false l s s'.

Lemma counters_eq_intro s s' :
  untouched extendingTotalStackBootstrap s s' →
  untouched extendingTotalStackFailure s s' →
  untouched extendingTotalServiceBootstrap s s' →
  untouched extendingTotalServiceFailure s s' →
  untouched extendingTotalInstanceBootstrap s s' →
  untouched extendingTotalInstanceFailure s s' →
  counters_eq s s'.
Proof. intros ?????? v Hv. by destruct v. Qed.

(** What a scrape adds to the trace and what it keeps. *)
Lemma scrape_summary cattleURL hideSys W fuel s new :
  trace (metric_fetch cattleURL hideSys W fuel s).2 = new ++ trace s →
  persists s (metric_fetch cattleURL hideSys W fuel s).2 ∧
  (Forall no_wrap new → counts_le s (metric_fetch cattleURL hideSys W fuel s).2) ∧
  (Forall quiet new →
   counts_eq s (metric_fetch cattleURL hideSys W fuel s).2 ∧
   counters_eq s (metric_fetch cattleURL hideSys W fuel s).2).
Proof.
  intros Hnew.
  destruct (summary_metric_fetch cattleURL hideSys W fuel s)
    as (new' & Ht & Hp & Hle & Hq).
  rewrite Hnew in Ht. apply app_inv_tail in Ht as <-. done.
Qed.

(** C3, as stated, fails in its last part: against a server whose listing
    of the stacks names [web] twice, active and then upgrading, every
    scrape finds [web] stored as upgrading and listed as active, and counts
    it.  The second of two identical scrapes moves the bootstrap counter of
    [web] from 1 to 2 and its bootstrapCount with it; a third one moves
    them to 3. *)
Lemma C3_counterexample :
  let W := Example.server [Example.web "active" "healthy";
                           Example.web "upgrading" "healthy"] in
  let s1 := (metric_fetch "U" false W 5 newMetric).2 in
  let s2 := (metric_fetch "U" false W 5 s1).2 in
  let s3 := (metric_fetch "U" false W 5 s2).2 in
  (metric_fetch "U" false W 5 newMetric).1 = Done tt ∧
  (metric_fetch "U" false W 5 s1).1 = Done tt ∧
  Example.stack_totals s1 = (Some 1, Some 0) ∧
  Example.stack_totals s2 = (Some 2, Some 0) ∧
  Example.stack_totals s3 = (Some 3, Some 0) ∧
  object.BootstrapCount <$> objects s1 !! 2%positive = Some 1 ∧
  object.BootstrapCount <$> objects s2 !! 2%positive = Some 2.
Proof. cbv zeta. split_all; vm_compute; reflexivity. Qed.

(** C3, amended: a stack, a service or an instance that is in the model and
    is observed in the state it is stored in moves no bootstrap or failure
    counter and keeps its bootstrapCount and failureCount; and a scrape all
    of whose observations find the stored state moves no counter vector and
    no counter field of any node. *)
Theorem C3_same_state_counts_nothing :
  (∀ o d s oo m take tk,
     objects s !! project.object o = Some oo →
     stackMaps s !! project.Stacks o = Some m →
     m !! targetData.Name d = Some take →
     objects s !! stack.object take = Some tk →
     object.State tk = targetData.State d →
     wp (project_fetch_stack o d) s (λ _ s',
       nothing_counted (stack.object take) s s')) ∧
  (∀ o d s oo po m take tk,
     objects s !! stack.object o = Some oo →
     objects s !! project.object (stack.parent o) = Some po →
     serviceMaps s !! stack.Services o = Some m →
     m !! targetData.Name d = Some take →
     objects s !! service.object take = Some tk →
     object.State tk = targetData.State d →
     wp (stack_fetch_service o d) s (λ _ s',
       nothing_counted (service.object take) s s')) ∧
  (∀ o d s oo po ppo m take tk,
     objects s !! service.object o = Some oo →
     objects s !! stack.object (service.parent o) = Some po →
     objects s !! project.object (stack.parent (service.parent o)) = Some ppo →
     instanceMaps s !! service.Instances o = Some m →
     m !! targetData.Name d = Some take →
     objects s !! instance.object take = Some tk →
     object.State tk = targetData.State d →
     wp (service_fetch_instance o d) s (λ _ s',
       nothing_counted (instance.object take) s s')) ∧
  (∀ cattleURL hideSys W fuel s new,
     let s' := (metric_fetch cattleURL hideSys W fuel s).2 in
     trace s' = new ++ trace s →
     Forall quiet new →
     counts_eq s s' ∧ counters_eq s s').
Proof.
  split_all.
  - intros o d s oo m take tk Hoo Hm Htake Htk He.
    eapply wp_wand; [by apply (stack_seen_again o d s oo m take tk)|].
    intros r s'. cbv zeta. rewrite decide_True by done.
    intros (_ & Ho & _ & _ & _ & _ & Hb & Hf & H1 & H2 & H3 & H4 & _).
    split; [by apply counters_eq_intro | by eapply counted_observed].
  - intros o d s oo po m take tk Hoo Hpo Hm Htake Htk He.
    eapply wp_wand; [by apply (service_seen_again o d s oo po m take tk)|].
    intros r s'. cbv zeta. rewrite decide_True by done.
    intros (_ & Ho & _ & _ & _ & _ & Hb & Hf & H1 & H2 & H3 & H4 & _).
    split; [by apply counters_eq_intro | by eapply counted_observed].
  - intros o d s oo po ppo m take tk Hoo Hpo Hppo Hm Htake Htk He.
    eapply wp_wand;
      [by apply (instance_seen_again o d s oo po ppo m take tk)|].
    intros r s'. cbv zeta. rewrite bool_decide_false by (by intros []).
    intros (_ & Ho & _ & _ & _ & _ & Hb & Hf & _ & H1 & H2 & H3 & H4).
    split; [by apply counters_eq_intro | by eapply counted_observed].
  - intros cattleURL hideSys W fuel s new s' Hnew Hq.
    by apply (scrape_summary cattleURL hideSys W fuel s new).
Qed.

Lemma C3_witness :
  let s := Cluster.bare in
  let s' := (metric_fetch "U" false (Cluster.server []) 5 s).2 in
  let new := [Seen (Some "active") "active"; Seen (Some "active") "active"] in
  trace s' = new ++ trace s ∧ Forall quiet new ∧
  counts_eq s s' ∧ counters_eq s s'.
Proof.
  cbv zeta.
  assert (trace (metric_fetch "U" false (Cluster.server []) 5 Cluster.bare).2
          = [Seen (Some "active") "active"; Seen (Some "active") "active"]
            ++ trace Cluster.bare) as Hnew
    by (vm_compute; reflexivity).
  assert (Forall quiet
            [Seen (Some "active") "active"; Seen (Some "active") "active"])
    as Hq by (repeat constructor).
  split; [exact Hnew|]. split; [exact Hq|].
  exact (proj2 (proj2 (proj2 C3_same_state_counts_nothing))
           "U" false (Cluster.server []) 5%nat Cluster.bare _ Hnew Hq).
Defined.

(** The entries of the maps of the model are kept by a scrape, struct for
    struct. *)
Definition entries_kept {V} (ms ms' : gmap loc (gmap string V)) : Prop :=
  ∀ m c k take, ms !! m = Some c → c !! k = Some take →
    ∃ c', ms' !! m = Some c' ∧ c' !! k = Some take.

Lemma entries_kept_intro {V} (ms ms' : gmap loc (gmap string V)) :
  (∀ m c, ms !! m = Some c → ∃ c', ms' !! m = Some c' ∧ c ⊆ c') →
  entries_kept ms ms'.
Proof.
  intros H m c k take Hm Hk. destruct (H m c Hm) as (c' & Hm' & Hsub).
  exists c'. split; [done|]. by eapply lookup_weaken.
Qed.

(** C10: when a stack, a service or an instance of the model is observed
    again, the object behind its pointer takes the observed id, type and
    state and the counted fields, while the observed System (and, for an
    instance, the startup time) goes to the copy of the struct that the
    iteration holds: the entry of the map is the struct it was, and it still
    is after a whole scrape. *)
Theorem C10_struct_copy_updates_lost :
  (∀ o d s oo m take tk,
     objects s !! project.object o = Some oo →
     stackMaps s !! project.Stacks o = Some m →
     m !! targetData.Name d = Some take →
     objects s !! stack.object take = Some tk →
     wp (project_fetch_stack o d) s (λ r s',
       let '(b, f) :=
         if decide (object.State tk = targetData.State d) then (false, false)
         else transition_rule (targetData.State d) (targetData.HealthState d) in
       r = Done (Some (stack.set_System (targetData.System d) take)) ∧
       stackMaps s' !! project.Stacks o = Some m ∧
       objects s' !! stack.object take = Some (observed_object d tk b f))) ∧
  (∀ o d s oo po m take tk,
     objects s !! stack.object o = Some oo →
     objects s !! project.object (stack.parent o) = Some po →
     serviceMaps s !! stack.Services o = Some m →
     m !! targetData.Name d = Some take →
     objects s !! service.object take = Some tk →
     wp (stack_fetch_service o d) s (λ r s',
       let '(b, f) :=
         if decide (object.State tk = targetData.State d) then (false, false)
         else transition_rule (targetData.State d) (targetData.HealthState d) in
       r = Done (Some (service.set_System (targetData.System d) take)) ∧
       serviceMaps s' !! stack.Services o = Some m ∧
       objects s' !! service.object take = Some (observed_object d tk b f))) ∧
  (∀ o d s oo po ppo m take tk,
     objects s !! service.object o = Some oo →
     objects s !! stack.object (service.parent o) = Some po →
     objects s !! project.object (stack.parent (service.parent o)) = Some ppo →
     instanceMaps s !! service.Instances o = Some m →
     m !! targetData.Name d = Some take →
     objects s !! instance.object take = Some tk →
     wp (service_fetch_instance o d) s (λ r s',
       let '(b, f) :=
         if decide (object.State tk = targetData.State d) then (false, false)
         else instance_rule (targetData.State d) in
       r = Done (Some (observed_instance d tk take)) ∧
       instanceMaps s' !! service.Instances o = Some m ∧
       objects s' !! instance.object take = Some (observed_object d tk b f))) ∧
  (∀ d tk take,
     instance.System (observed_instance d tk take) = targetData.System d ∧
     (object.State tk ≠ targetData.State d → targetData.State d = "running" →
      instance.StartupTime (observed_instance d tk take) = startup_of d)) ∧
  (∀ cattleURL hideSys W fuel s,
     let s' := (metric_fetch cattleURL hideSys W fuel s).2 in
     entries_kept (stackMaps s) (stackMaps s') ∧
     entries_kept (serviceMaps s) (serviceMaps s') ∧
     entries_kept (instanceMaps s) (instanceMaps s')).
Proof.
  split_all.
  - intros o d s oo m take tk Hoo Hm Htake Htk.
    eapply wp_wand; [by apply (stack_seen_again o d s oo m take tk)|].
    intros r s'. cbv zeta.
    destruct (if decide _ then _ else _) as [b f].
    intros (Hr & Ho & Hst & _). split_all; [done|congruence|].
    by rewrite Ho, lookup_insert_eq.
  - intros o d s oo po m take tk Hoo Hpo Hm Htake Htk.
    eapply wp_wand; [by apply (service_seen_again o d s oo po m take tk)|].
    intros r s'. cbv zeta.
    destruct (if decide _ then _ else _) as [b f].
    intros (Hr & Ho & _ & Hsv & _). split_all; [done|congruence|].
    by rewrite Ho, lookup_insert_eq.
  - intros o d s oo po ppo m take tk Hoo Hpo Hppo Hm Htake Htk.
    eapply wp_wand;
      [by apply (instance_seen_again o d s oo po ppo m take tk)|].
    intros r s'. cbv zeta.
    replace (if bool_decide (object.State tk ≠ targetData.State d)
             then instance_rule (targetData.State d) else (false, false))
      with (if decide (object.State tk = targetData.State d)
            then (false, false) else instance_rule (targetData.State d)).
    2: { destruct (decide (object.State tk = targetData.State d));
         [by rewrite bool_decide_false by (by intros [])
         |by rewrite bool_decide_true]. }
    destruct (if decide _ then _ else _) as [b f].
    intros (Hr & Ho & _ & _ & Hin & _). split_all; [done|congruence|].
    by rewrite Ho, lookup_insert_eq.
  - intros d tk take. unfold observed_instance. split; [done|].
    intros Hne Hrun. by rewrite decide_True.
  - intros cattleURL hideSys W fuel s s'.
    destruct (summary_metric_fetch cattleURL hideSys W fuel s)
      as (new & _ & [_ Hst Hsv Hin _] & _).
    split_all; by apply entries_kept_intro.
Qed.

Lemma C10_witness :
  let o := project.mk 1 1 in
  let d := targetData.mk "healthy" "" "web" "active" true 0 "" "9st9" "" ""
             "stack" "" 0 0 None in
  let s := Example.flap2 in
  let take := stack.mk 2 1 false o in
  let tk := object.mk "1st1" "web" "upgrading" "stack" 1 0 in
  objects s !! project.object o = Some (object.mk "1a5" "env" "" "" 0 0) ∧
  stackMaps s !! project.Stacks o = Some {[ "web" := take ]} ∧
  objects s !! stack.object take = Some tk ∧
  wp (project_fetch_stack o d) s (λ r s',
    r = Done (Some (stack.mk 2 1 true o)) ∧
    stackMaps s' !! project.Stacks o = Some {[ "web" := take ]} ∧
    objects s' !! stack.object take
      = Some (object.mk "9st9" "web" "active" "stack" 2 0)).
Proof.
  cbv zeta.
  assert (objects Example.flap2 !! 1%positive
          = Some (object.mk "1a5" "env" "" "" 0 0)) as Hoo
    by (vm_compute; reflexivity).
  assert (stackMaps Example.flap2 !! 1%positive
          = Some {[ "web" := stack.mk 2 1 false (project.mk 1 1) ]}) as Hm
    by (vm_compute; reflexivity).
  assert (objects Example.flap2 !! 2%positive
          = Some (object.mk "1st1" "web" "upgrading" "stack" 1 0)) as Htk
    by (vm_compute; reflexivity).
  split_all; [done..|].
  exact (proj1 C10_struct_copy_updates_lost (project.mk 1 1)
           (targetData.mk "healthy" "" "web" "active" true 0 "" "9st9" "" ""
              "stack" "" 0 0 None)
           Example.flap2 _ _ (stack.mk 2 1 false (project.mk 1 1)) _
           Hoo Hm eq_refl Htk).
Defined.

(** ** The lifetime of a process *)

(** After the recovery a process runs its two periodic tasks, one at a
    time (they share a lock), each against the server as it is then. *)
Inductive cycle : Type :=
  | Scrape (W : world) (fuel : nat)
  | Backup (W : world).

Definition run_cycle (cattleURL genObjName : string) (hideSys : bool)
    (c : cycle) : M unit :=
  match c with
  | Scrape W fuel => metric_fetch cattleURL hideSys W fuel
  | Backup W => metric_backup cattleURL genObjName W
  end.

(** The cycles in turn; a panic that nothing recovers ends the process. *)
Definition run_cycles (cattleURL genObjName : string) (hideSys : bool)
    (cs : list cycle) : M unit :=
  forM cs (run_cycle cattleURL genObjName hideSys).

Lemma summary_run_cycles cattleURL genObjName hideSys cs :
  preserves summary (run_cycles cattleURL genObjName hideSys cs).
Proof.
  apply preserves_forM; [apply _|]. intros [W fuel|W].
  - apply summary_metric_fetch.
  - apply summary_metric_backup.
Qed.

(** ** The API client *)

Module Refused.

(** A server that cannot be reached: [client.Do] returns no response. *)
Definition server : world :=
  mkWorld (λ _ _, Failed None) (λ _ _ _, PostFailed).

End Refused.

(** C4 asks that a GET whose transport fails is logged and answered by an
    empty page, the scrape going on.  The code logs the error and goes on to
    [defer resp.Body.Close()] with the response it did not get: when
    [client.Do] fails without a response, [get] logs one error and panics,
    and a scrape whose listing of the hosts fails so ends in that panic,
    which nothing recovers; only a body that fails to decode is logged and
    answered by what was decoded, without a panic. *)
Theorem C4_get_panics_on_transport_failure (W : world) (url : string)
    (s : state) :
  http_get W (clock s) url = Failed None →
  (rancherClient_get W url s).1 = Panic ∧
  trace (rancherClient_get W url s).2 = Logged LvlError :: trace s ∧
  (∀ cattleURL hideSys fuel, url = cattleURL +:+ "/hosts" →
     (metric_fetch cattleURL hideSys W fuel s).1 = Panic) ∧
  (∀ W' b, http_get W' (clock s) url = Replied b →
     (rancherClient_get W' url s).1 = Done (decoded b) ∧
     trace (rancherClient_get W' url s).2 =
       (if decode_err b then [Logged LvlError] else []) ++ trace s).
Proof.
  intros Hfail. split_all.
  - unfold rancherClient_get, exchange_get, bind. cbn. by rewrite Hfail.
  - unfold rancherClient_get, exchange_get, bind. cbn. by rewrite Hfail.
  - intros cattleURL hideSys fuel ->.
    destruct s as [objs ims svms stms prjs reg clk tr].
    cbn [clock] in Hfail.
    unfold metric_fetch, metric_fetch_reset, metric_fetch_hosts,
      rancherClient_get, exchange_get, ResetVec, on_vec, modify, bind.
    cbn. by rewrite Hfail.
  - intros W' b Hb.
    unfold rancherClient_get, exchange_get, get_decode, bind. cbn.
    rewrite Hb. by destruct (decode_err b).
Qed.

Lemma C4_witness :
  http_get Refused.server (clock newMetric) "U/hosts" = Failed None ∧
  (rancherClient_get Refused.server "U/hosts" newMetric).1 = Panic ∧
  trace (rancherClient_get Refused.server "U/hosts" newMetric).2
    = Logged LvlError :: trace newMetric ∧
  (metric_fetch "U" false Refused.server 5 newMetric).1 = Panic.
Proof.
  split; [reflexivity|].
  destruct (C4_get_panics_on_transport_failure Refused.server "U/hosts"
              newMetric eq_refl) as (H1 & H2 & H3 & _).
  split; [exact H1|]. split; [exact H2|].
  exact (H3 "U" false 5%nat eq_refl).
Defined.

(** ** The start of a scrape *)

(** The gauge families that the specification lists as reset. *)
Definition is_reset (v : metricVar) : bool :=
  match v with
  | infinityWorksHostsState | infinityWorksHostAgentsState
  | infinityWorksStacksHealth | infinityWorksStacksState
  | infinityWorksServicesScale | infinityWorksServicesHealth
  | infinityWorksServicesState
  | extendingInstanceHeartbeat | extendingServiceHeartbeat
  | extendingStackHeartbeat => true
  | _ => false
  end.

(** C7: a scrape starts by emptying exactly the ten gauge families
    host-state, host-agent-state, stacks-health, stacks-state,
    services-scale, services-health, services-state and the three
    heartbeats; the six bootstrap and failure counters and the startup
    gauge are what they were, and so is the model. *)
Theorem C7_reset_at_scrape_start :
  (∀ s,
     (metric_fetch_reset s).1 = Done tt ∧
     (∀ v, registry (metric_fetch_reset s).2 v
           = if is_reset v then ∅ else registry s v) ∧
     objects (metric_fetch_reset s).2 = objects s ∧
     stackMaps (metric_fetch_reset s).2 = stackMaps s ∧
     serviceMaps (metric_fetch_reset s).2 = serviceMaps s ∧
     instanceMaps (metric_fetch_reset s).2 = instanceMaps s ∧
     Projects (metric_fetch_reset s).2 = Projects s) ∧
  (∀ v, is_reset v = false ↔
        (is_counter v = true ∨ v = extendingInstanceBootstrapMsCost)) ∧
  length (filter (λ v, is_reset v = true)
            [infinityWorksHostsState; infinityWorksHostAgentsState;
             infinityWorksStacksHealth; infinityWorksStacksState;
             infinityWorksServicesScale; infinityWorksServicesHealth;
             infinityWorksServicesState; extendingInstanceHeartbeat;
             extendingServiceHeartbeat; extendingStackHeartbeat;
             extendingTotalStackBootstrap; extendingTotalStackFailure;
             extendingTotalServiceBootstrap; extendingTotalServiceFailure;
             extendingTotalInstanceBootstrap; extendingTotalInstanceFailure;
             extendingInstanceBootstrapMsCost]) = 10%nat ∧
  (∀ cattleURL hideSys W fuel s,
     metric_fetch cattleURL hideSys W fuel s =
     (metric_fetch_hosts cattleURL W;; metric_fetch_projects cattleURL hideSys W fuel)
       (metric_fetch_reset s).2).
Proof.
  split_all.
  - intros s. destruct s as [objs ims svms stms prjs reg clk tr].
    split_all; try reflexivity. intros v. by destruct v.
  - intros v. destruct v; cbn; intuition discriminate.
  - reflexivity.
  - intros cattleURL hideSys W fuel s.
    assert (metric_fetch_reset s = (Done tt, (metric_fetch_reset s).2)) as H
      by (by destruct s).
    unfold metric_fetch. unfold bind at 1. by rewrite H.
Qed.

(** ** The requests of a backup *)

(** The POSTs a trace records, oldest first, each with its answer. *)
Definition posted (e : event) : option (string * option postBody * Z * bool) :=
  match e with
  | Posted url b c err => Some (url, b, c, err)
  | _ => None
  end.
Definition requests (tr : list event)
  : list (string * option postBody * Z * bool) :=
  omap posted (reverse tr).

(** What was sent, without the answers. *)
Definition sent (tr : list event) : list (string * option postBody) :=
  (λ x, x.1.1) <$> requests tr.

(** A task that only talks to the server: the model and the vectors are
    what they were, and [new] is what the task added to the trace. *)
Definition only_talked (s s' : state) (new : list event) : Prop :=
  trace s' = new ++ trace s ∧
  objects s' = objects s ∧ instanceMaps s' = instanceMaps s ∧
  serviceMaps s' = serviceMaps s ∧ stackMaps s' = stackMaps s ∧
  Projects s' = Projects s ∧ registry s' = registry s.

Lemma requests_app new old : requests (new ++ old) = requests old ++ requests new.
Proof. unfold requests. by rewrite reverse_app, omap_app. Qed.

Lemma sent_app new old : sent (new ++ old) = sent old ++ sent new.
Proof. unfold sent. by rewrite requests_app, fmap_app. Qed.

Lemma only_talked_refl s : only_talked s s [].
Proof. unfold only_talked. by split_all. Qed.

Lemma only_talked_trans s1 s2 s3 n1 n2 :
  only_talked s1 s2 n1 → only_talked s2 s3 n2 → only_talked s1 s3 (n2 ++ n1).
Proof.
  intros (T1 & A1 & B1 & C1 & D1 & E1 & F1) (T2 & A2 & B2 & C2 & D2 & E2 & F2).
  unfold only_talked. split_all; try congruence. by rewrite T2, T1, app_assoc.
Qed.

Lemma only_talked_emit s s' new e :
  only_talked s s' new → only_talked s (set_trace (cons e) s') (e :: new).
Proof.
  intros (T & H). destruct s'. cbn in *. split; [by rewrite T|done].
Qed.

(** The answer of [rancherClient.post] to the answer of the server. *)
Definition post_result (r : postTransport) : Z * bool :=
  match r with
  | PostBadRequest => (0, true)
  | PostFailed => (0, true)
  | PostReplied c => (c, false)
  end.

Lemma rancherClient_post_run W url b s :
  rancherClient_post W url b s =
  (Done (post_result (http_post W (clock s) url b)),
   set_trace (cons (Posted url b (post_result (http_post W (clock s) url b)).1
                                 (post_result (http_post W (clock s) url b)).2))
     (set_clock S s)).
Proof.
  unfold rancherClient_post, exchange_post, bind, emit, modify, ret.
  destruct s as [objs ims svms stms prjs reg clk tr]; cbn.
  by destruct (http_post W clk url b).
Qed.

Lemma wp_rancherClient_post W url b s Q :
  Q (Done (post_result (http_post W (clock s) url b)))
    (set_trace (cons (Posted url b (post_result (http_post W (clock s) url b)).1
                                   (post_result (http_post W (clock s) url b)).2))
       (set_clock S s)) →
  wp (rancherClient_post W url b) s Q.
Proof. unfold wp. by rewrite rancherClient_post_run. Qed.

Definition create_url (cattleURL : string) : string :=
  cattleURL +:+ "/genericobjects".
Definition remove_url (cattleURL genObjId : string) : string :=
  cattleURL +:+ "/genericobjects/" +:+ genObjId +:+ "?action=remove".

Section Backup.

Variables (cattleURL genObjName : string) (W : world).

Lemma backup_remove_sent g s :
  wp (backup_remove cattleURL W g) s (λ r s',
    r = Done tt ∧ ∃ new, only_talked s s' new ∧
      sent new = [(remove_url cattleURL g, None)]).
Proof.
  unfold backup_remove. apply wp_bind, wp_rancherClient_post.
  destruct s as [objs ims svms stms prjs reg clk tr]. cbn [clock after].
  set (r := post_result _).
  destruct (r.2); [|destruct (decide _)].
  - apply wp_log. split; [done|]. eexists [_; _]. unfold only_talked. by split_all.
  - apply wp_log. split; [done|]. eexists [_; _]. unfold only_talked. by split_all.
  - apply wp_ret. split; [done|]. eexists [_]. unfold only_talked. by split_all.
Qed.

Lemma backup_removes_sent gs s :
  wp (forM gs (backup_remove cattleURL W)) s (λ r s',
    r = Done tt ∧ ∃ new, only_talked s s' new ∧
      sent new = (λ g, (remove_url cattleURL g, None)) <$> gs).
Proof.
  revert s. induction gs as [|g gs IH]; intros s.
  - apply wp_ret. split; [done|]. exists []. split; [apply only_talked_refl|done].
  - cbn [forM]. apply wp_bind.
    eapply wp_wand; [apply backup_remove_sent|].
    intros r s1 (-> & n1 & H1 & S1). cbn [after].
    eapply wp_wand; [apply IH|].
    intros r s2 (-> & n2 & H2 & S2). split; [done|].
    exists (n2 ++ n1). split; [by eapply only_talked_trans|].
    by rewrite sent_app, S1, S2.
Qed.

(** The task of one project (lines 874-909): the create is sent, and the
    removes follow it when, and only when, it was answered 201. *)
Lemma backup_project_sent ids pro po s :
  objects s !! project.object pro = Some po →
  wp (backup_project cattleURL genObjName W ids pro) s (λ r s',
    let data := mkPostBody genericobjectKind genObjName (object.Id po) pro in
    let answer := http_post W (clock s) (create_url cattleURL) (Some data) in
    r = Done tt ∧ ∃ new, only_talked s s' new ∧
      requests new !! 0%nat =
        Some (create_url cattleURL, Some data,
              (post_result answer).1, (post_result answer).2) ∧
      sent new =
        (create_url cattleURL, Some data) ::
        (if bool_decide (post_result answer = (StatusCreated, false))
         then (λ g, (remove_url cattleURL g, None))
                <$> default [] (ids !! object.Id po)
         else [])).
Proof.
  intros Hpo. unfold backup_project. apply wp_bind, wp_load_object.
  rewrite Hpo. cbn [after]. cbv zeta.
  apply wp_bind, wp_rancherClient_post. fold (create_url cattleURL).
  set (data := mkPostBody _ _ _ _).
  set (answer := http_post W (clock s) (create_url cattleURL) (Some data)).
  set (s1 := set_trace _ _).
  assert (only_talked s s1
            [Posted (create_url cattleURL) (Some data)
               (post_result answer).1 (post_result answer).2]) as H1
    by (by destruct s).
  cbn [after].
  destruct answer as [| |c] eqn:Ha; cbn [post_result fst snd] in *.
  - apply wp_log. split; [done|]. eexists [_; _].
    split; [by apply only_talked_emit|]. split; [done|].
    by rewrite bool_decide_false.
  - apply wp_log. split; [done|]. eexists [_; _].
    split; [by apply only_talked_emit|]. split; [done|].
    by rewrite bool_decide_false.
  - destruct (decide (c ≠ StatusCreated)) as [Hc|Hc].
    + apply wp_log. split; [done|]. eexists [_; _].
      split; [by apply only_talked_emit|]. split; [done|].
      rewrite bool_decide_false; [done|]. by intros [=].
    + apply dec_stable in Hc as ->.
      rewrite bool_decide_true by done.
      destruct (ids !! object.Id po) as [gs|]; cbn [default].
      * eapply wp_wand; [apply backup_removes_sent|].
        intros r s2 (-> & n2 & H2 & S2). split; [done|].
        eexists (n2 ++ [_]). split; [by eapply only_talked_trans|].
        by rewrite requests_app, sent_app, S2.
      * apply wp_ret. split; [done|]. eexists [_]. by split.
Qed.

End Backup.

(** A loop all of whose iterations return keeps an invariant of what it
    has gone through. *)
Lemma wp_forM_inv {A} (f : A → M unit) (I : list A → state → Prop) l :
  ∀ done s,
  I done s →
  (∀ done x s, x ∈ l → I done s →
     wp (f x) s (λ r s', r = Done tt ∧ I (done ++ [x]) s')) →
  wp (forM l f) s (λ r s', r = Done tt ∧ I (done ++ l) s').
Proof.
  induction l as [|x l IH]; intros done s HI Hf.
  - apply wp_ret. by rewrite app_nil_r.
  - cbn [forM]. apply wp_bind.
    eapply wp_wand; [apply (Hf done x s); [left|done]|].
    intros r s1 (-> & H1). cbn [after].
    eapply wp_wand; [apply (IH (done ++ [x]) s1 H1)|].
    + intros d y s2 Hy. apply Hf. by right.
    + intros r s2 (-> & H2). by rewrite <- app_assoc in H2.
Qed.

(** The listing of lines 858-865 when no element of [t.Data] is nil. *)
Lemma backup_listing_run l m :
  backup_listing (Some <$> l) m = ret (foldl backup_group m l).
Proof.
  revert m. induction l as [|d l IH]; intros m; [done|].
  cbn [fmap list_fmap backup_listing foldl].
  change (backup_listing (Some <$> l) (backup_group m d)
          = ret (foldl backup_group (backup_group m d) l)).
  apply IH.
Qed.

Lemma rancherClient_get_replied W url s b :
  http_get W (clock s) url = Replied b →
  ∃ new, (rancherClient_get W url s).1 = Done (decoded b) ∧
    only_talked s (rancherClient_get W url s).2 new ∧ requests new = [].
Proof.
  intros H. unfold rancherClient_get, exchange_get, get_decode, bind.
  destruct s as [objs ims svms stms prjs reg clk tr]. cbn in *. rewrite H.
  destruct (decode_err b); cbn.
  - exists [Logged LvlError]. by split_all.
  - exists []. by split_all.
Qed.

(** Every remove among the requests [rs] follows a create that was answered
    201 and whose key holds the id that is removed. *)
Definition justified (cattleURL genObjName : string)
    (ids : gmap string (list string))
    (rs : list (string * option postBody * Z * bool)) : Prop :=
  ∀ i url c e, rs !! i = Some (url, None, c, e) →
    ∃ j id pro gs g,
      (j < i)%nat ∧
      rs !! j = Some (create_url cattleURL,
                      Some (mkPostBody genericobjectKind genObjName id pro),
                      StatusCreated, false) ∧
      ids !! id = Some gs ∧ g ∈ gs ∧ url = remove_url cattleURL g.

Lemma justified_nil cattleURL genObjName ids : justified cattleURL genObjName ids [].
Proof. intros i url c e H. by rewrite lookup_nil in H. Qed.

Lemma justified_app cattleURL genObjName ids rs1 rs2 :
  justified cattleURL genObjName ids rs1 →
  justified cattleURL genObjName ids rs2 →
  justified cattleURL genObjName ids (rs1 ++ rs2).
Proof.
  intros H1 H2 i url c e Hi.
  apply lookup_app_Some in Hi as [Hi|[Hlen Hi]].
  - destruct (H1 i url c e Hi) as (j & id & pro & gs & g & Hj & Hc & Hr).
    exists j, id, pro, gs, g. split; [done|]. split; [|done].
    by apply lookup_app_l_Some.
  - destruct (H2 _ url c e Hi) as (j & id & pro & gs & g & Hj & Hc & Hr).
    exists (length rs1 + j)%nat, id, pro, gs, g. split; [lia|].
    split; [|done]. by rewrite lookup_app_r, Nat.add_comm, Nat.add_sub by lia.
Qed.

(** The requests of one task are justified. *)
Lemma task_justified cattleURL genObjName ids id pro c e new :
  requests new !! 0%nat
    = Some (create_url cattleURL,
            Some (mkPostBody genericobjectKind genObjName id pro), c, e) →
  sent new =
    (create_url cattleURL, Some (mkPostBody genericobjectKind genObjName id pro))
    :: (if bool_decide ((c, e) = (StatusCreated, false))
        then (λ g, (remove_url cattleURL g, None)) <$> default [] (ids !! id)
        else []) →
  justified cattleURL genObjName ids (requests new).
Proof.
  intros H0 Hs i url c' e' Hi.
  assert (sent new !! i = Some (url, None)) as Hsi.
  { unfold sent. by rewrite list_lookup_fmap, Hi. }
  rewrite Hs in Hsi. destruct i as [|i]; [done|].
  change (?l !! S i) with (tail l !! i) in Hsi. cbn [tail] in Hsi.
  destruct (bool_decide _) eqn:Hb; [|done].
  apply bool_decide_eq_true in Hb as [= -> ->].
  rewrite list_lookup_fmap in Hsi.
  destruct (default [] (ids !! id) !! i) as [g|] eqn:Hg; [|done].
  injection Hsi as <-.
  destruct (ids !! id) as [gs|] eqn:Hid; cbn [default] in Hg; [|done].
  exists 0%nat, id, pro, gs, g. split; [lia|]. split; [done|].
  split; [done|]. split; [|done]. by eapply list_elem_of_lookup_2.
Qed.

Section WholeBackup.

Variables (cattleURL genObjName : string) (W : world).

(** C9: in a backup, the task of a project first POSTs the new checkpoint,
    and POSTs the removal of the checkpoints listed under the project's key
    after that and only when the create was answered 201 without error: a
    create that fails is followed by no request of that task.  Every task
    returns, so each project of the model has its create sent whatever the
    others were answered, and every removal that a backup sends follows a
    create answered 201 for the key that lists the removed id. *)
Theorem C9_remove_only_after_created :
  (∀ ids pro po s,
     objects s !! project.object pro = Some po →
     wp (backup_project cattleURL genObjName W ids pro) s (λ r s',
       let data := mkPostBody genericobjectKind genObjName (object.Id po) pro in
       let answer := http_post W (clock s) (create_url cattleURL) (Some data) in
       r = Done tt ∧ ∃ new, only_talked s s' new ∧
         requests new !! 0%nat =
           Some (create_url cattleURL, Some data,
                 (post_result answer).1, (post_result answer).2) ∧
         sent new =
           (create_url cattleURL, Some data) ::
           (if bool_decide (post_result answer = (StatusCreated, false))
            then (λ g, (remove_url cattleURL g, None))
                   <$> default [] (ids !! object.Id po)
            else []))) ∧
  (∀ s b l,
     http_get W (clock s)
       (cattleURL +:+ "/genericobjects?name=" +:+ genObjName
        +:+ "&kind=" +:+ genericobjectKind) = Replied b →
     target.Data (decoded b) = Some <$> l →
     (∀ k pro, Projects s !! k = Some pro →
        is_Some (objects s !! project.object pro)) →
     wp (metric_backup cattleURL genObjName W) s (λ r s',
       r = Done tt ∧ ∃ new, only_talked s s' new ∧
         justified cattleURL genObjName (foldl backup_group ∅ l)
           (requests new) ∧
         ∀ k pro po, Projects s !! k = Some pro →
           objects s !! project.object pro = Some po →
           (create_url cattleURL,
            Some (mkPostBody genericobjectKind genObjName (object.Id po) pro))
           ∈ sent new)).
Proof.
  split; [intros; by apply backup_project_sent|].
  intros s b l Hget Hdata Hwf.
  unfold metric_backup. apply wp_bind, wp_recovered, wp_bind.
  destruct (rancherClient_get_replied W _ s b Hget) as (n0 & Hr & H0 & R0).
  unfold wp at 1. rewrite Hr. cbn [after].
  set (s0 := (rancherClient_get W _ s).2) in *.
  rewrite Hdata, backup_listing_run. apply wp_ret. cbn [after].
  set (ids := foldl backup_group ∅ l).
  unfold range_Projects. apply wp_bind, wp_gets. cbn [after].
  set (I := λ (done : list (string * project.t)) (s' : state),
    ∃ new, only_talked s s' new ∧
      justified cattleURL genObjName ids (requests new) ∧
      ∀ d po, d ∈ done → objects s !! project.object d.2 = Some po →
        (create_url cattleURL,
         Some (mkPostBody genericobjectKind genObjName (object.Id po) d.2))
        ∈ sent new).
  eapply wp_wand.
  - apply (wp_forM_inv _ I (map_to_list (Projects s0)) [] s0).
    + exists n0. split; [done|]. split.
      * rewrite R0. apply justified_nil.
      * intros d po Hd. by apply elem_of_nil in Hd.
    + intros done [k pro] s1 Hin (n1 & H1 & J1 & C1).
      assert (Projects s0 = Projects s) as HP by apply H0.
      rewrite HP in Hin. apply elem_of_map_to_list in Hin.
      destruct (Hwf k pro Hin) as [po Hpo].
      assert (objects s1 !! project.object pro = Some po) as Hpo1.
      { destruct H1 as (_ & -> & _). done. }
      eapply wp_wand; [by apply (backup_project_sent _ _ _ ids pro po)|].
      intros r s2. cbv zeta. intros (-> & n2 & H2 & Q2 & S2). split; [done|].
      exists (n2 ++ n1). split; [by eapply only_talked_trans|]. split.
      * rewrite requests_app. apply justified_app; [done|].
        eapply task_justified; [exact Q2|].
        rewrite S2. by destruct (post_result _).
      * intros d po' [Hd|Hd%list_elem_of_singleton]%elem_of_app Hpo'.
        -- rewrite sent_app. apply elem_of_app. left. by apply C1.
        -- subst d. cbn [snd] in *. assert (po' = po) as -> by congruence.
           rewrite sent_app, S2. apply elem_of_app. right. left.
  - intros r s' (-> & new & H & J & C). split; [done|].
    exists new. split; [done|]. split; [done|].
    intros k pro po Hk Hpo. apply (C (k, pro) po); [|done].
    apply elem_of_app. right. apply elem_of_map_to_list.
    destruct H0 as (_ & _ & _ & _ & _ & -> & _). done.
Qed.

End WholeBackup.

Module Archive.

(** A checkpoint of the environment [1a5] on the server. *)
Definition checkpoint (id : string) : targetData.t :=
  targetData.mk "" "1a5" "g" "" false 0 "" id "" "" "genericObject" ""
    0 0 None.

(** The server lists two checkpoints, answers a create with [created] and
    a remove with 202. *)
Definition server (created : Z) : world :=
  mkWorld
    (λ _ url,
       if decide (url = "U/genericobjects?name=g&kind=rancherMetrics")
       then Example.page [checkpoint "1go1"; checkpoint "1go2"]
       else Example.page [])
    (λ _ _ b, match b with
              | Some _ => PostReplied created
              | None => PostReplied StatusAccepted
              end).

End Archive.

Lemma C9_witness :
  let W := Archive.server 201 in
  let s := Example.flap1 in
  let l := [Archive.checkpoint "1go1"; Archive.checkpoint "1go2"] in
  http_get W (clock s)
    ("U" +:+ "/genericobjects?name=" +:+ "g" +:+ "&kind=" +:+ genericobjectKind)
    = Example.page l ∧
  (∀ k pro, Projects s !! k = Some pro →
     is_Some (objects s !! project.object pro)) ∧
  wp (metric_backup "U" "g" W) s (λ r s',
    r = Done tt ∧ ∃ new, only_talked s s' new ∧
      justified "U" "g" (foldl backup_group ∅ l) (requests new) ∧
      ∀ k pro po, Projects s !! k = Some pro →
        objects s !! project.object pro = Some po →
        (create_url "U",
         Some (mkPostBody genericobjectKind "g" (object.Id po) pro))
        ∈ sent new).
Proof.
  cbv zeta.
  assert (∀ k pro, Projects Example.flap1 !! k = Some pro →
            is_Some (objects Example.flap1 !! project.object pro)) as Hwf.
  { intros k pro.
    assert (Projects Example.flap1 = {[ "env" := project.mk 1 1 ]}) as ->
      by (vm_compute; reflexivity).
    intros [_ <-]%lookup_singleton_Some.
    exists (object.mk "1a5" "env" "" "" 0 0). vm_compute. reflexivity. }
  split; [reflexivity|]. split; [exact Hwf|].
  exact (proj2 (C9_remove_only_after_created "U" "g" (Archive.server 201))
           Example.flap1 _
           [Archive.checkpoint "1go1"; Archive.checkpoint "1go2"]
           eq_refl eq_refl Hwf).
Defined.

(** ** What the server delivers *)

(** [d] is an item of a list that the server [W] sends at some time. *)
Definition delivered (W : world) (d : targetData.t) : Prop :=
  ∃ n url b,
    (http_get W n url = Replied b ∨ http_get W n url = Failed (Some b)) ∧
    Some d ∈ target.Data (decoded b).

Lemma get_delivered W url s t :
  (rancherClient_get W url s).1 = Done t →
  ∀ d, Some d ∈ target.Data t → delivered W d.
Proof.
  unfold rancherClient_get, exchange_get, get_decode, bind.
  destruct s as [objs ims svms stms prjs reg clk tr]. cbn.
  destruct (http_get W clk url) as [|[b|]|b] eqn:E; cbn; try done.
  all: destruct (decode_err b); cbn; intros [= <-] d Hd;
    exists clk, url, b; split; auto.
Qed.

(** What is true of every step of a scrape on an item that the server
    delivers is true of the scrape. *)
Section Observing.

Context (R : relation state) `{!PreOrder R}.
Variable W : world.

Hypothesis R_tick : ∀ s, R s (set_clock S s).
Hypothesis R_log : ∀ l, preserves R (log l).
Hypothesis R_instance :
  ∀ o d, delivered W d → preserves R (service_fetch_instance o d).
Hypothesis R_service :
  ∀ o d, delivered W d → preserves R (stack_fetch_service o d).
Hypothesis R_stack :
  ∀ o d, delivered W d → preserves R (project_fetch_stack o d).
Hypothesis R_host : ∀ d, delivered W d → preserves R (metric_fetch_host d).
Hypothesis R_upsert :
  ∀ d, delivered W d → preserves R (metric_upsert_project d).

Variable cattleURL : string.
Variable hideSys : bool.

Lemma observing_forM {A} (l : list A) (f : A → M unit) :
  (∀ a, a ∈ l → preserves R (f a)) → preserves R (forM l f).
Proof.
  induction l as [|a l IH]; intros Hf; [apply (preserves_ret R)|].
  cbn [forM]. apply (preserves_bind R).
  - apply Hf. left.
  - intros _. apply IH. intros a' Ha'. apply Hf. by right.
Qed.

(** A page: its items are delivered. *)
Lemma observing_get {A} url (k : target.t → M A) :
  (∀ t, (∀ d, Some d ∈ target.Data t → delivered W d) → preserves R (k t)) →
  preserves R (let* t := rancherClient_get W url in k t).
Proof.
  intros Hk s. apply wp_bind.
  pose proof (preserves_get R R_tick R_log W url s) as HR.
  pose proof (get_delivered W url s) as Hdel. unfold wp in HR. unfold wp at 1.
  destruct (rancherClient_get W url s) as [[t| |] s1]; cbn [fst snd after] in *;
    [|done..].
  eapply wp_wand; [apply (Hk t (Hdel t eq_refl))|].
  intros r s2 H2. cbn in H2. by etrans.
Qed.

(** The loop over the items of a page. *)
Lemma observing_items {A} (step : targetData.t → M A) (l : list (option targetData.t))
    (item : option targetData.t → M unit) :
  (∀ od, item od = (let* d := deref od in step d;; ret tt)) →
  (∀ d, Some d ∈ l → delivered W d) →
  (∀ d, delivered W d → preserves R (step d)) →
  preserves R (forM l item).
Proof.
  intros Hitem Hl Hstep. apply observing_forM. intros od Hod s.
  rewrite Hitem. apply wp_bind, wp_deref.
  destruct od as [d|]; [|cbn; reflexivity].
  cbn [after]. apply wp_bind. eapply wp_wand; [by apply Hstep, Hl|].
  intros [a| |] s' HR; cbn; done.
Qed.

Ltac observing :=
  repeat match goal with
  | |- preserves _ (ret _) => apply (preserves_ret R)
  | |- preserves _ panic => apply (preserves_panic R)
  | |- preserves _ spin => apply (preserves_spin R)
  | |- preserves _ (gets _) => apply (preserves_gets R)
  | |- preserves _ (deref _) => apply (preserves_deref R)
  | |- preserves _ (load_object _) => apply (preserves_load_object R)
  | |- preserves _ (log _) => apply R_log
  | |- preserves _ (recovering _) =>
      apply (preserves_recovering R); [apply R_log|]
  | |- preserves _ (forM _ _) => apply (preserves_forM R); intros ?
  | |- preserves _ (bind _ _) => apply (preserves_bind R); [|intros ?]
  | |- preserves _ (if ?c then _ else _) => destruct c
  | |- preserves _ (let _ := _ in _) => cbv zeta
  end.

Lemma observing_service_fetch_pages fuel o url :
  preserves R (service_fetch_pages W fuel o url).
Proof.
  revert url. induction fuel as [|fuel IH]; intros url; cbn;
    [apply (preserves_spin R)|].
  apply observing_get. intros t Ht. apply (preserves_bind R).
  - apply (observing_items (service_fetch_instance o)); [by intros od|exact Ht|].
    intros d Hd. by apply R_instance.
  - intros _. observing. apply IH.
Qed.

Lemma observing_service_fetch fuel o :
  preserves R (service_fetch cattleURL W fuel o).
Proof. unfold service_fetch. observing. apply observing_service_fetch_pages. Qed.

Lemma observing_stack_fetch_pages fuel o url :
  preserves R (stack_fetch_pages W fuel o url).
Proof.
  revert url. induction fuel as [|fuel IH]; intros url; cbn;
    [apply (preserves_spin R)|].
  apply observing_get. intros t Ht. apply (preserves_bind R).
  - apply (observing_items (stack_fetch_service o)); [by intros od|exact Ht|].
    intros d Hd. by apply R_service.
  - intros _. observing. apply IH.
Qed.

Lemma observing_stack_fetch fuel o :
  preserves R (stack_fetch cattleURL hideSys W fuel o).
Proof.
  unfold stack_fetch, range_services. observing.
  - apply observing_stack_fetch_pages.
  - apply observing_service_fetch.
Qed.

Lemma observing_project_fetch_pages fuel o url :
  preserves R (project_fetch_pages W fuel o url).
Proof.
  revert url. induction fuel as [|fuel IH]; intros url; cbn;
    [apply (preserves_spin R)|].
  apply observing_get. intros t Ht. apply (preserves_bind R).
  - apply (observing_items (project_fetch_stack o)); [by intros od|exact Ht|].
    intros d Hd. by apply R_stack.
  - intros _. observing. apply IH.
Qed.

Lemma observing_project_fetch fuel o :
  preserves R (project_fetch cattleURL hideSys W fuel o).
Proof.
  unfold project_fetch, range_stacks. observing.
  - apply observing_project_fetch_pages.
  - apply observing_stack_fetch.
Qed.

(** The two goroutines of a scrape, after the reset. *)
Lemma observing_scrape fuel :
  preserves R (metric_fetch_hosts cattleURL W;;
               metric_fetch_projects cattleURL hideSys W fuel).
Proof.
  apply (preserves_bind R); [|intros _].
  - unfold metric_fetch_hosts. apply observing_get. intros t Ht.
    apply observing_forM. intros od Hod s. unfold metric_fetch_host_item.
    apply wp_bind, wp_deref. destruct od as [d|]; [|cbn; reflexivity].
    cbn [after]. by apply R_host, Ht.
  - unfold metric_fetch_projects. apply observing_get. intros t Ht.
    apply (preserves_bind R).
    + apply observing_forM. intros od Hod s. unfold metric_upsert_item.
      apply wp_bind, wp_deref. destruct od as [d|]; [|cbn; reflexivity].
      cbn [after]. by apply R_upsert, Ht.
    + intros _. unfold range_Projects. observing.
      apply observing_project_fetch.
Qed.

End Observing.

(** ** One-hot gauges *)

Definition sum_over (enum : list string) (f : string → Z) : Z :=
  foldr (λ y acc, f y + acc) 0 enum.

Lemma one_hot_fill_in enum at_ x m y :
  (∀ y y', at_ y = at_ y' → y = y') →
  y ∈ enum →
  one_hot_fill enum at_ x m !! at_ y = Some (if decide (x = y) then 1 else 0).
Proof.
  intros Hinj. unfold one_hot_fill. revert m.
  induction enum as [|z l IH] using rev_ind; intros m Hy.
  - by apply elem_of_nil in Hy.
  - rewrite foldl_app. cbn [foldl]. unfold vec_set at 1.
    destruct (decide (y = z)) as [->|Hne].
    + by rewrite lookup_insert_eq.
    + rewrite lookup_insert_ne by (intros E; by apply Hinj in E).
      apply IH. apply elem_of_app in Hy as [Hy|Hy]; [done|].
      by apply list_elem_of_singleton in Hy.
Qed.

Lemma one_hot_fill_out enum at_ x m ls :
  (∀ y, y ∈ enum → ls ≠ at_ y) →
  one_hot_fill enum at_ x m !! ls = m !! ls.
Proof.
  unfold one_hot_fill. revert m.
  induction enum as [|z l IH] using rev_ind; intros m Hout; [done|].
  rewrite foldl_app. cbn [foldl]. unfold vec_set at 1.
  rewrite lookup_insert_ne.
  - apply IH. intros y Hy. apply Hout, elem_of_app. by left.
  - intros E. apply (Hout z); [|done]. apply elem_of_app. right. by left.
Qed.

(** Over an enumeration without repetitions, a row sums to 1 when its [x]
    is enumerated and to 0 when it is not. *)
Lemma one_hot_sum enum x (f : string → Z) :
  NoDup enum →
  (∀ y, y ∈ enum → f y = if decide (x = y) then 1 else 0) →
  sum_over enum f = if decide (x ∈ enum) then 1 else 0.
Proof.
  intros Hnd. induction Hnd as [|z l Hz Hnd IH]; intros Hf; [done|].
  cbn [sum_over foldr]. fold (sum_over l f).
  rewrite IH by (intros y Hy; apply Hf; by right).
  rewrite (Hf z) by left.
  destruct (decide (x = z)) as [->|Hne].
  - rewrite (decide_False (P := z ∈ l)) by done.
    by rewrite (decide_True (P := z ∈ z :: l)) by left.
  - destruct (decide (x ∈ l)) as [Hin|Hnin].
    + by rewrite (decide_True (P := x ∈ z :: l)) by (by right).
    + rewrite (decide_False (P := x ∈ z :: l)); [done|].
      by intros [?|?]%elem_of_cons.
Qed.

(** The vector [v] of a registry built by the steps, one step at a time. *)
Ltac reg_at :=
  repeat first
    [ rewrite upd_reg_ne by done
    | rewrite one_hot_reg_ne by done
    | rewrite upd_reg_eq
    | rewrite one_hot_reg_eq ].

Lemma metric_fetch_from_reset cattleURL hideSys W fuel s :
  metric_fetch cattleURL hideSys W fuel s =
  (metric_fetch_hosts cattleURL W;;
   metric_fetch_projects cattleURL hideSys W fuel) (metric_fetch_reset s).2.
Proof.
  assert (metric_fetch_reset s = (Done tt, (metric_fetch_reset s).2)) as H
    by (by destruct s).
  unfold metric_fetch. unfold bind at 1. by rewrite H.
Qed.

(** The name under which a host is labelled (lines 953-961). *)
Definition host_label (d : targetData.t) : string :=
  if is_empty (targetData.Name d) then targetData.HostName d
  else targetData.Name d.

(** A family of one-hot gauges: its vector, the enumeration it ranges
    over, the position of the state among its labels, which rows an item
    of a listing is written to, and the field of the item that is shown. *)
Record family : Type := mkFamily {
  fam_vec : metricVar;
  fam_enum : list string;
  fam_pos : nat;
  fam_row : targetData.t → labels → Prop;
  fam_field : targetData.t → string
}.

Definition host_row (d : targetData.t) (ls : labels) : Prop :=
  ls !! 0%nat = Some (targetData.ID d) ∧ ls !! 1%nat = Some (host_label d).
Definition stack_row (d : targetData.t) (ls : labels) : Prop :=
  ls !! 0%nat = Some (targetData.ID d) ∧
  ls !! 1%nat = Some (targetData.Name d) ∧
  ls !! 3%nat = Some (FormatBool (targetData.System d)).
Definition service_row (d : targetData.t) (ls : labels) : Prop :=
  ls !! 0%nat = Some (targetData.ID d) ∧
  ls !! 2%nat = Some (targetData.Name d) ∧
  ls !! 5%nat = Some (FormatBool (targetData.System d)).

Definition hosts_state : family :=
  mkFamily infinityWorksHostsState hostStates 2 host_row targetData.State.
Definition hosts_agent : family :=
  mkFamily infinityWorksHostAgentsState agentStates 2 host_row
           targetData.AgentState.
Definition stacks_health : family :=
  mkFamily infinityWorksStacksHealth healthStates 2 stack_row
           targetData.HealthState.
Definition stacks_state : family :=
  mkFamily infinityWorksStacksState stackStates 2 stack_row targetData.State.
Definition services_health : family :=
  mkFamily infinityWorksServicesHealth healthStates 4 service_row
           targetData.HealthState.
Definition services_state : family :=
  mkFamily infinityWorksServicesState serviceStates 4 service_row
           targetData.State.

Definition gauge_families : list family :=
  [hosts_state; hosts_agent; stacks_health; stacks_state; services_health;
   services_state].

(** The vector [m] is one-hot over [enum] in the label at position [k],
    and shows what [Q] allows: its series come in rows, one row for each
    identity (the labels other than the [k]-th), a row has a series for
    every value of [enum], and for some [x] that [Q] allows for the row the
    series of [y] reads 1 when [y] is [x] and 0 otherwise. *)
Definition shown (Q : labels → string → Prop) (enum : list string) (k : nat)
    (m : vec) : Prop :=
  ∀ ls, is_Some (m !! ls) →
    (∃ y, y ∈ enum ∧ ls !! k = Some y) ∧
    ∃ x, Q ls x ∧
      ∀ y, y ∈ enum → m !! <[k := y]> ls = Some (if decide (x = y) then 1 else 0).

(** [x] is what an item delivered by the server, and written to the row of
    [ls], has in the field that the family shows. *)
Definition observed (W : world) (f : family) (ls : labels) (x : string) : Prop :=
  ∃ d, delivered W d ∧ fam_row f d ls ∧ fam_field f d = x.

Definition all_shown (W : world) (s : state) : Prop :=
  Forall (λ f, shown (observed W f) (fam_enum f) (fam_pos f)
                     (registry s (fam_vec f))) gauge_families.

Lemma shown_empty Q enum k : shown Q enum k ∅.
Proof. intros ls [x H]. by rewrite lookup_empty in H. Qed.

(** A one-hot loop keeps a vector one-hot, and the row it writes shows the
    state it was given. *)
Lemma shown_filled Q enum k at_ x m :
  (∀ y, at_ y !! k = Some y) →
  (∀ y y', <[k := y']> (at_ y) = at_ y') →
  (∀ y, Q (at_ y) x) →
  shown Q enum k m →
  shown Q enum k (one_hot_fill enum at_ x m).
Proof.
  intros Hat Hrow HQ Hm ls Hls.
  assert (∀ y y', at_ y = at_ y' → y = y') as Hinj.
  { intros y y' E. pose proof (Hat y) as H. rewrite E, Hat in H. congruence. }
  destruct (decide (Exists (λ y, ls = at_ y) enum)) as [Hin|Hout].
  - apply Exists_exists in Hin as (y0 & Hy0 & ->). split.
    + exists y0. by rewrite Hat.
    + exists x. split; [done|]. intros y Hy. rewrite Hrow.
      by apply one_hot_fill_in.
  - assert (∀ y, y ∈ enum → ls ≠ at_ y) as Hout'.
    { intros y Hy E. apply Hout, Exists_exists. by exists y. }
    rewrite one_hot_fill_out in Hls by done.
    destruct (Hm ls Hls) as [(y0 & Hy0 & Hk) (x' & HQ' & Hx')]. split.
    + by exists y0.
    + exists x'. split; [done|]. intros y Hy.
      rewrite one_hot_fill_out; [by apply Hx'|].
      intros y' Hy' E. apply (Hout' y0 Hy0).
      assert (y = y') as <-.
      { pose proof (Hat y') as H. rewrite <- E in H.
        rewrite list_lookup_insert_eq in H by (by eapply lookup_lt_Some).
        congruence. }
      rewrite <- (Hrow y y0), <- E, list_insert_insert_eq.
      symmetry. by apply list_insert_id.
Qed.

Definition keeps_shown (W : world) (s s' : state) : Prop :=
  all_shown W s → all_shown W s'.

#[global] Instance keeps_shown_preorder W : PreOrder (keeps_shown W).
Proof. split; [by intros s H | intros s1 s2 s3 H1 H2 H; by apply H2, H1]. Qed.

Lemma all_shown_intro W s :
  shown (observed W hosts_state) hostStates 2
        (registry s infinityWorksHostsState) →
  shown (observed W hosts_agent) agentStates 2
        (registry s infinityWorksHostAgentsState) →
  shown (observed W stacks_health) healthStates 2
        (registry s infinityWorksStacksHealth) →
  shown (observed W stacks_state) stackStates 2
        (registry s infinityWorksStacksState) →
  shown (observed W services_health) healthStates 4
        (registry s infinityWorksServicesHealth) →
  shown (observed W services_state) serviceStates 4
        (registry s infinityWorksServicesState) →
  all_shown W s.
Proof.
  intros. unfold all_shown, gauge_families.
  repeat (apply Forall_cons_2; [assumption|]). apply Forall_nil_2.
Qed.

Lemma all_shown_elim W s :
  all_shown W s →
  shown (observed W hosts_state) hostStates 2
        (registry s infinityWorksHostsState) ∧
  shown (observed W hosts_agent) agentStates 2
        (registry s infinityWorksHostAgentsState) ∧
  shown (observed W stacks_health) healthStates 2
        (registry s infinityWorksStacksHealth) ∧
  shown (observed W stacks_state) stackStates 2
        (registry s infinityWorksStacksState) ∧
  shown (observed W services_health) healthStates 4
        (registry s infinityWorksServicesHealth) ∧
  shown (observed W services_state) serviceStates 4
        (registry s infinityWorksServicesState).
Proof.
  intros H. unfold all_shown, gauge_families in H.
  repeat (apply Forall_cons in H as [? H]). by split_all.
Qed.

Ltac close_shown Hd :=
  let H := fresh "H" in
  intros H; apply all_shown_elim in H;
  destruct H as (? & ? & ? & ? & ? & ?);
  apply all_shown_intro; cbn [registry]; reg_at;
  first [ assumption
        | apply shown_filled;
          [ done | done
          | intros ?; eexists; split; [exact Hd|]; by split_all
          | assumption ] ].

Lemma shown_tick W s : keeps_shown W s (set_clock S s).
Proof. destruct s. by intros H. Qed.

Lemma shown_log W l : preserves (keeps_shown W) (log l).
Proof. intros s. unfold log. wp_run. by intros H. Qed.

Lemma shown_service_fetch_instance W o d :
  preserves (keeps_shown W) (service_fetch_instance o d).
Proof.
  intros s. unfold service_fetch_instance. wp_run.
  all: unfold keeps_shown; close_shown I.
Qed.

Lemma shown_stack_fetch_service W o d :
  delivered W d → preserves (keeps_shown W) (stack_fetch_service o d).
Proof.
  intros Hd s. unfold stack_fetch_service. wp_run.
  all: unfold keeps_shown; close_shown Hd.
Qed.

Lemma shown_project_fetch_stack W o d :
  delivered W d → preserves (keeps_shown W) (project_fetch_stack o d).
Proof.
  intros Hd s. unfold project_fetch_stack. wp_run.
  all: unfold keeps_shown; close_shown Hd.
Qed.

Lemma shown_metric_fetch_host W d :
  delivered W d → preserves (keeps_shown W) (metric_fetch_host d).
Proof.
  intros Hd s. unfold metric_fetch_host. wp_run.
  unfold keeps_shown; close_shown Hd.
Qed.

Lemma shown_metric_upsert_project W d :
  preserves (keeps_shown W) (metric_upsert_project d).
Proof.
  intros s. unfold metric_upsert_project. wp_run.
  all: unfold keeps_shown; close_shown I.
Qed.

Lemma shown_metric_fetch_reset W s : all_shown W (metric_fetch_reset s).2.
Proof.
  destruct s as [objs ims svms stms prjs reg clk tr].
  apply all_shown_intro; apply shown_empty.
Qed.

(** After a scrape, however it went, every row of the six families shows
    the state of an item that the server has delivered for it. *)
Lemma shown_metric_fetch cattleURL hideSys W fuel s :
  all_shown W (metric_fetch cattleURL hideSys W fuel s).2.
Proof.
  rewrite metric_fetch_from_reset.
  apply (observing_scrape (keeps_shown W) W (shown_tick W) (shown_log W)
           (λ o d _, shown_service_fetch_instance W o d)
           (shown_stack_fetch_service W) (shown_project_fetch_stack W)
           (shown_metric_fetch_host W)
           (λ d _, shown_metric_upsert_project W d)
           cattleURL hideSys fuel (metric_fetch_reset s).2).
  apply shown_metric_fetch_reset.
Qed.

(** The row of [v] with the labels [at_ y] reads 1 at [x] and 0 at every
    other value of [enum]. *)
Definition row_reads (x : string) (enum : list string) (at_ : string → labels)
    (v : metricVar) (s : state) : Prop :=
  ∀ y, y ∈ enum → value s v (at_ y) = Some (if decide (x = y) then 1 else 0).

Ltac close_row :=
  let y := fresh "y" in let Hy := fresh "Hy" in
  intros y Hy; unfold value; cbn [registry]; reg_at;
  lazymatch goal with
  | |- one_hot_fill ?enum ?at_ ?x ?m !! _ = _ =>
      apply (one_hot_fill_in enum at_ x m y); [by intros ? ? [= ->]|done]
  end.

Lemma host_row_reads d s :
  wp (metric_fetch_host d) s (λ r s',
    r = Done tt ∧
    row_reads (targetData.State d) hostStates
      (λ y, [targetData.ID d; host_label d; y]) infinityWorksHostsState s' ∧
    row_reads (targetData.AgentState d) agentStates
      (λ y, [targetData.ID d; host_label d; y])
      infinityWorksHostAgentsState s').
Proof.
  unfold metric_fetch_host, host_label. wp_run.
  split; [done|]. split; close_row.
Qed.

Lemma stack_row_reads o d s po :
  objects s !! project.object o = Some po →
  wp (project_fetch_stack o d) s (λ _ s',
    let at_ := λ y, [targetData.ID d; targetData.Name d; y;
                     FormatBool (targetData.System d)] in
    row_reads (targetData.HealthState d) healthStates at_
      infinityWorksStacksHealth s' ∧
    row_reads (targetData.State d) stackStates at_
      infinityWorksStacksState s').
Proof.
  intros Hpo. unfold project_fetch_stack. wp_run.
  all: cbv zeta; split; close_row.
Qed.

Lemma service_row_reads o d s oo po :
  objects s !! stack.object o = Some oo →
  objects s !! project.object (stack.parent o) = Some po →
  wp (stack_fetch_service o d) s (λ _ s',
    let at_ := λ y, [targetData.ID d; object.Id oo; targetData.Name d;
                     object.Name oo; y; FormatBool (targetData.System d)] in
    row_reads (targetData.HealthState d) healthStates at_
      infinityWorksServicesHealth s' ∧
    row_reads (targetData.State d) serviceStates at_
      infinityWorksServicesState s').
Proof.
  intros Hoo Hpo. unfold stack_fetch_service. wp_run.
  all: cbv zeta; split; close_row.
Qed.

(** *** Two goroutines on one row *)

(** The [Set] calls of a one-hot loop, in the order of the loop. *)
Definition one_hot_sets (v : metricVar) (enum : list string)
    (at_ : string → labels) (x : string) : list (metricVar * labels * Z) :=
  (λ y, (v, at_ y, if decide (x = y) then 1 else 0)) <$> enum.

Definition run_sets (ws : list (metricVar * labels * Z)) : M unit :=
  forM ws (λ w, SetValue w.1.1 w.1.2 w.2).

Lemma set_one_hot_sets v enum at_ x s :
  set_one_hot v enum at_ x s = run_sets (one_hot_sets v enum at_ x) s.
Proof.
  unfold set_one_hot, run_sets, one_hot_sets. revert s.
  induction enum as [|y l IH]; intros s; [done|].
  cbn [forM fmap list_fmap]. unfold bind. cbn [fst snd].
  destruct (decide (x = y)); cbn; apply IH.
Qed.

(** The calls of two goroutines in the order in which a scheduler lets
    them through: [true] is a turn of the first, a turn of a goroutine that
    is through is lost, and when the turns are over the first finishes and
    then the second. *)
Fixpoint merge {A} (turns : list bool) (a b : list A) : list A :=
  match turns with
  | [] => a ++ b
  | true :: turns =>
      match a with x :: a' => x :: merge turns a' b | [] => merge turns a b end
  | false :: turns =>
      match b with y :: b' => y :: merge turns a b' | [] => merge turns a b end
  end.

Lemma merge_Permutation {A} turns (a b : list A) : merge turns a b ≡ₚ a ++ b.
Proof.
  revert a b. induction turns as [|[] turns IH]; intros a b; [done| |].
  - destruct a as [|x a]; cbn; [apply IH|]. by rewrite IH.
  - destruct b as [|y b]; cbn; [apply IH|].
    by rewrite IH, Permutation_middle.
Qed.

(** The registry after a list of [Set] calls. *)
Definition after_sets (ws : list (metricVar * labels * Z))
    (r : metricVar → vec) : metricVar → vec :=
  foldl (λ r w, upd_reg w.1.1 (vec_set w.1.2 w.2) r) r ws.

Lemma run_sets_registry ws s :
  run_sets ws s = (Done tt, set_registry (after_sets ws) s).
Proof.
  unfold run_sets, after_sets. revert s.
  induction ws as [|w ws IH]; intros s; [by destruct s|].
  cbn [forM foldl]. unfold bind. cbn. rewrite IH. by destruct s.
Qed.

(** Calls that agree on a series leave it with what they agree on. *)
Lemma after_sets_agree ws v ls c r :
  (∀ w, w ∈ ws → w.1 = (v, ls) → w.2 = c) →
  after_sets ws r v !! ls = Some c
  ∨ ((∀ w, w ∈ ws → w.1 ≠ (v, ls)) ∧ after_sets ws r v !! ls = r v !! ls).
Proof.
  unfold after_sets. revert r.
  induction ws as [|w ws IH]; intros r Hc; [right; split; [|done]|].
  { intros w Hw. by apply elem_of_nil in Hw. }
  cbn [foldl].
  destruct (IH (upd_reg w.1.1 (vec_set w.1.2 w.2) r)) as [H|[Hno H]].
  - intros w' Hw'. apply Hc. by right.
  - by left.
  - rewrite H. destruct (decide (w.1 = (v, ls))) as [E|Hne].
    + left. destruct w as [[v' ls'] c']. cbn in *. injection E as -> ->.
      rewrite upd_reg_eq. unfold vec_set. rewrite lookup_insert_eq.
      f_equal. apply (Hc (v, ls, c')); [left|done].
    + right. split.
      * intros w' [->|Hw']%elem_of_cons; [done|by apply Hno].
      * destruct w as [[v' ls'] c']. cbn in *.
        destruct (decide (v = v')) as [<-|Hv].
        -- rewrite upd_reg_eq. unfold vec_set.
           rewrite lookup_insert_ne; [done|]. congruence.
        -- by rewrite upd_reg_ne.
Qed.

(** Two goroutines that write a row for the same state leave it reading
    that state, whatever the scheduler does. *)
Lemma agreeing_writers turns v enum at_ x s :
  (∀ y y', at_ y = at_ y' → y = y') →
  row_reads x enum at_ v
    (run_sets (merge turns (one_hot_sets v enum at_ x)
                           (one_hot_sets v enum at_ x)) s).2.
Proof.
  intros Hinj y Hy. rewrite run_sets_registry. unfold value.
  destruct s as [objs ims svms stms prjs reg clk tr]. cbn [snd registry set_registry].
  set (ws := merge _ _ _).
  assert (∀ w, w ∈ ws ↔ w ∈ one_hot_sets v enum at_ x) as Hws.
  { intros w. unfold ws. rewrite merge_Permutation, elem_of_app. tauto. }
  destruct (after_sets_agree ws v (at_ y) (if decide (x = y) then 1 else 0) reg)
    as [H|[Hno _]]; [|done|].
  - intros w Hw E. apply Hws in Hw. unfold one_hot_sets in Hw.
    apply list_elem_of_fmap in Hw as (y' & -> & _). cbn in *.
    injection E as E. by apply Hinj in E as ->.
  - exfalso. apply (Hno (v, at_ y, if decide (x = y) then 1 else 0)); [|done].
    apply Hws. unfold one_hot_sets. apply list_elem_of_fmap. by exists y.
Qed.

Lemma gauge_enumerations_NoDup : Forall (λ f, NoDup (fam_enum f)) gauge_families.
Proof.
  unfold gauge_families.
  repeat (apply Forall_cons_2;
          [by apply (bool_decide_unpack _); vm_compute|]).
  apply Forall_nil_2.
Qed.

(** C6, as stated, fails: the goroutines of a scrape run at the same time
    (lines 1007-1016, 531-540 and 679-688), and two of them can write one
    row.  Two entries of [Projects] with the same id (a project that was
    renamed keeps its old entry) both list the stack [web]; one goroutine
    sees it active, the other one upgrading.  When the second is let through
    for its first two [Set] calls, then the first for its whole loop, then
    the second for the rest, the row of [web] reads 1 for active and for
    upgrading, and the values over the enumeration sum to 2. *)
Lemma C6_counterexample :
  let at_ := λ y, ["1st1"; "web"; y; "false"] in
  let turns := [false; false] ++ replicate 15 true in
  let s' :=
    (run_sets
       (merge turns
          (one_hot_sets infinityWorksStacksState stackStates at_ "active")
          (one_hot_sets infinityWorksStacksState stackStates at_ "upgrading"))
       newMetric).2 in
  value s' infinityWorksStacksState (at_ "active") = Some 1 ∧
  value s' infinityWorksStacksState (at_ "upgrading") = Some 1 ∧
  sum_over stackStates
    (λ y, default 0 (value s' infinityWorksStacksState (at_ y))) = 2.
Proof. cbv zeta. split_all; vm_compute; reflexivity. Qed.

(** C6, amended.  When the goroutines of a scrape run one after the other,
    then after the scrape, whatever the registry held before and however
    the scrape went, every row of the host-state, host-agent-state,
    stack-health, stack-state, service-health and service-state gauges is
    one-hot over its enumeration and shows what was observed: the server
    has delivered an item with the identity of the row, the gauge reads 1
    for the label equal to the state (or health) of that item and 0 for
    every other label, so that the values over the enumeration sum to 1
    when that state is enumerated and to 0 when it is not.  Each
    observation of a host, a stack or a service leaves the rows of that
    item reading its state and its health.  The loop that writes a row is a
    sequence of [Set] calls, and two goroutines that write one row for the
    same state leave it reading that state however their calls are
    interleaved. *)
Theorem C6_one_hot_gauges :
  (∀ cattleURL hideSys W fuel s f ls,
     let s' := (metric_fetch cattleURL hideSys W fuel s).2 in
     f ∈ gauge_families →
     is_Some (value s' (fam_vec f) ls) →
     ∃ d, delivered W d ∧ fam_row f d ls ∧
       (∀ y, y ∈ fam_enum f →
          value s' (fam_vec f) (<[fam_pos f := y]> ls)
          = Some (if decide (fam_field f d = y) then 1 else 0)) ∧
       sum_over (fam_enum f)
         (λ y, default 0 (value s' (fam_vec f) (<[fam_pos f := y]> ls)))
       = (if decide (fam_field f d ∈ fam_enum f) then 1 else 0)) ∧
  (∀ d s,
     wp (metric_fetch_host d) s (λ r s',
       r = Done tt ∧
       row_reads (targetData.State d) hostStates
         (λ y, [targetData.ID d; host_label d; y]) infinityWorksHostsState s' ∧
       row_reads (targetData.AgentState d) agentStates
         (λ y, [targetData.ID d; host_label d; y])
         infinityWorksHostAgentsState s')) ∧
  (∀ o d s po,
     objects s !! project.object o = Some po →
     wp (project_fetch_stack o d) s (λ _ s',
       let at_ := λ y, [targetData.ID d; targetData.Name d; y;
                        FormatBool (targetData.System d)] in
       row_reads (targetData.HealthState d) healthStates at_
         infinityWorksStacksHealth s' ∧
       row_reads (targetData.State d) stackStates at_
         infinityWorksStacksState s')) ∧
  (∀ o d s oo po,
     objects s !! stack.object o = Some oo →
     objects s !! project.object (stack.parent o) = Some po →
     wp (stack_fetch_service o d) s (λ _ s',
       let at_ := λ y, [targetData.ID d; object.Id oo; targetData.Name d;
                        object.Name oo; y; FormatBool (targetData.System d)] in
       row_reads (targetData.HealthState d) healthStates at_
         infinityWorksServicesHealth s' ∧
       row_reads (targetData.State d) serviceStates at_
         infinityWorksServicesState s')) ∧
  (∀ v enum at_ x s,
     set_one_hot v enum at_ x s = run_sets (one_hot_sets v enum at_ x) s) ∧
  (∀ turns v enum at_ x s,
     (∀ y y', at_ y = at_ y' → y = y') →
     row_reads x enum at_ v
       (run_sets (merge turns (one_hot_sets v enum at_ x)
                              (one_hot_sets v enum at_ x)) s).2).
Proof.
  split_all.
  - intros cattleURL hideSys W fuel s f ls s' Hf Hls.
    pose proof (shown_metric_fetch cattleURL hideSys W fuel s) as H.
    fold s' in H. unfold all_shown in H.
    rewrite Forall_forall in H. specialize (H _ Hf).
    pose proof gauge_enumerations_NoDup as Hnd.
    rewrite Forall_forall in Hnd. specialize (Hnd _ Hf).
    destruct (H ls Hls) as [_ (x & (d & Hd & Hrow & <-) & Hx)].
    exists d. split; [done|]. split; [done|]. split; [exact Hx|].
    apply one_hot_sum; [done|]. intros y Hy. unfold value. by rewrite Hx.
  - apply host_row_reads.
  - apply stack_row_reads.
  - apply service_row_reads.
  - apply set_one_hot_sets.
  - apply agreeing_writers.
Qed.

Lemma C6_witness :
  let W := Example.server [Example.web "active" "healthy"] in
  let s' := (metric_fetch "U" false W 5 newMetric).2 in
  let ls := ["1st1"; "web"; "active"; "false"] in
  stacks_state ∈ gauge_families ∧
  is_Some (value s' infinityWorksStacksState ls) ∧
  ∃ d, delivered W d ∧ stack_row d ls ∧
    (∀ y, y ∈ stackStates →
       value s' infinityWorksStacksState (<[2%nat := y]> ls)
       = Some (if decide (targetData.State d = y) then 1 else 0)) ∧
    sum_over stackStates
      (λ y, default 0 (value s' infinityWorksStacksState (<[2%nat := y]> ls)))
    = (if decide (targetData.State d ∈ stackStates) then 1 else 0).
Proof.
  cbv zeta.
  assert (stacks_state ∈ gauge_families)
    as Hf by (unfold gauge_families; do 3 right; left).
  assert (is_Some (value (metric_fetch "U" false
                     (Example.server [Example.web "active" "healthy"]) 5
                     newMetric).2
                     infinityWorksStacksState ["1st1"; "web"; "active"; "false"]))
    as Hls by (exists 1; vm_compute; reflexivity).
  split; [exact Hf|]. split; [exact Hls|].
  exact (proj1 C6_one_hot_gauges "U" false
           (Example.server [Example.web "active" "healthy"]) 5%nat newMetric
           stacks_state _ Hf Hls).
Defined.

(** ** Recovery *)

(** The model is sound for a backup: every project has its object. *)
Definition projects_sound (s : state) : Prop :=
  ∀ k pro, Projects s !! k = Some pro →
    is_Some (objects s !! project.object pro).

Lemma get_only_talks W url s :
  wp (rancherClient_get W url) s (λ r s',
    r ≠ Spin ∧ ∃ new, only_talked s s' new ∧ requests new = [] ∧
      (r = Panic → Logged LvlError ∈ new)).
Proof.
  unfold wp, rancherClient_get, exchange_get, get_decode, bind.
  destruct s as [objs ims svms stms prjs reg clk tr]. cbn.
  destruct (http_get W clk url) as [|[b|]|b]; cbn.
  - split; [done|]. exists [Logged LvlError]. unfold only_talked.
    split_all; try done. intros _. by left.
  - destruct (decode_err b); cbn; (split; [done|]).
    + exists [Logged LvlError; Logged LvlError]. unfold only_talked.
      by split_all.
    + exists [Logged LvlError]. unfold only_talked. by split_all.
  - split; [done|]. exists [Logged LvlError]. unfold only_talked.
    split_all; try done. intros _. by left.
  - destruct (decode_err b); cbn; (split; [done|]).
    + exists [Logged LvlError]. unfold only_talked. by split_all.
    + exists []. unfold only_talked. by split_all.
Qed.

(** Listing a project keeps the model sound, and the project is in it. *)
Lemma upsert_sound d s :
  projects_sound s →
  wp (metric_upsert_project d) s (λ r s',
    r = Done tt ∧ projects_sound s' ∧ clock s' = clock s ∧
    is_Some (Projects s' !! targetData.Name d)).
Proof.
  intros Hwf. unfold metric_upsert_project.
  destruct s as [objs ims svms stms prjs reg clk tr].
  lazymatch goal with |- wp _ _ ?Q => set (Post := Q) end.
  repeat wp_step; wp_open.
  - split; [done|]. split; [|split; [done|by eexists]].
    intros k pro Hk. cbn [Projects objects] in *.
    destruct (Hwf k pro Hk) as [po Hpo].
    destruct (decide (project.object pro = project.object t)) as [->|Hne].
    + rewrite lookup_insert_eq. by eexists.
    + rewrite lookup_insert_ne by done. by eexists.
  - exfalso. destruct (Hwf _ _ E) as [po Hpo]. cbn [objects] in Hpo.
    congruence.
  - split; [done|]. split; [|split; [done|]].
    + intros k pro. cbn [Projects objects] in *.
      destruct (decide (k = targetData.Name d)) as [->|Hne].
      * rewrite lookup_insert_eq. intros [= <-]. cbn.
        rewrite lookup_insert_eq. by eexists.
      * rewrite lookup_insert_ne by done. intros Hk.
        destruct (Hwf k pro Hk) as [po Hpo]. exists po.
        rewrite lookup_insert_ne; [done|]. intros E'.
        cbn [objects] in Hpo. by rewrite <- E', fresh_None in Hpo.
    + cbn [Projects]. rewrite lookup_insert_eq. by eexists.
Qed.

Lemma get_clock W url s : clock (rancherClient_get W url s).2 = S (clock s).
Proof.
  unfold rancherClient_get, exchange_get, get_decode, bind.
  destruct s as [objs ims svms stms prjs reg clk tr]. cbn.
  destruct (http_get W clk url) as [|[b|]|b]; cbn;
    try destruct (decode_err b); done.
Qed.

(** A checkpoint as the decoder leaves it: no stack in it has its object. *)
Definition unfilled (sp : stored.project) : Prop :=
  ∀ k st, stored.p_Stacks sp !! k = Some st → stored.st_object st = None.

Lemma decoded_unfilled b d sp :
  Some d ∈ target.Data (decoded b) →
  targetData.ResourceData d = Some sp →
  unfilled sp.
Proof.
  unfold decoded, json.target. cbn [target.Data]. intros Hin Hrd k st Hk.
  apply list_elem_of_fmap in Hin as ([d'|] & E & _); [|done].
  cbn in E. injection E as ->. cbn in Hrd.
  destruct (targetData.ResourceData d') as [p|]; [|done].
  cbn in Hrd. injection Hrd as <-. cbn in Hk. rewrite lookup_fmap in Hk.
  destruct (stored.p_Stacks p !! k); [|done]. cbn in Hk. by injection Hk as <-.
Qed.

Section Recovery.

Variables (cattleURL genObjName : string) (W : world).

(** What [get] hands back is what the decoder made of a body. *)
Lemma get_decoded url s t :
  (rancherClient_get W url s).1 = Done t → ∃ b, t = decoded b.
Proof.
  unfold rancherClient_get, exchange_get, get_decode, bind.
  destruct s as [objs ims svms stms prjs reg clk tr]. cbn.
  destruct (http_get W clk url) as [|[b|]|b]; cbn; try done.
  all: destruct (decode_err b); cbn; intros [= <-]; by exists b.
Qed.

(** The loop of line 751 over the stacks of a checkpoint: the first stack
    is dereferenced through its nil object. *)
Lemma recover_stacks_unfilled envName pro sp s :
  unfilled sp →
  forM (map_to_list (stored.p_Stacks sp))
       (λ d, recover_stack envName pro d.2) s
  = (if decide (stored.p_Stacks sp = ∅) then Done tt else Panic, s).
Proof.
  intros Hsp. destruct (map_to_list (stored.p_Stacks sp)) as [|[k st] l] eqn:E.
  - apply map_to_list_empty_iff in E. by rewrite decide_True.
  - assert (stored.p_Stacks sp !! k = Some st) as Hk.
    { apply elem_of_map_to_list. rewrite E. left. }
    rewrite decide_False.
    + cbn [forM snd]. unfold bind at 1, recover_stack at 1, bind at 1.
      by rewrite (Hsp k st Hk).
    + intros E'. by rewrite E', lookup_empty in Hk.
Qed.

Lemma get_talks_decoded url s :
  wp (rancherClient_get W url) s (λ r s',
    r ≠ Spin ∧ (∃ new, only_talked s s' new ∧ requests new = []) ∧
    ∀ t, r = Done t → ∃ b, t = decoded b).
Proof.
  pose proof (get_only_talks W url s) as H.
  pose proof (get_decoded url s) as Hd. unfold wp in *.
  destruct H as (Hspin & new & H0 & Hr & _).
  split; [done|]. split; [by exists new|]. exact Hd.
Qed.

(** The goroutine of a project either dies or has only talked. *)
Lemma recover_project_run pro s :
  wp (recover_project cattleURL genObjName W pro) s (λ r s',
    r ≠ Spin ∧ ∃ new, only_talked s s' new ∧ requests new = []).
Proof.
  unfold recover_project. apply wp_bind, wp_load_object.
  destruct (objects s !! project.object pro) as [po|]; cbn [after];
    [|split; [done|]; exists []; split; [apply only_talked_refl|done]].
  cbv zeta. apply wp_bind.
  eapply wp_wand; [apply get_talks_decoded|].
  intros r s1 (Hspin & Htalk & Hdec).
  destruct r as [t| |]; cbn [after]; [|done..].
  destruct (Hdec t eq_refl) as [b ->].
  destruct (last (target.Data (decoded b))) as [od|] eqn:Hlast;
    [|by apply wp_ret].
  apply last_Some_elem_of in Hlast.
  apply wp_bind, wp_deref. destruct od as [d|]; cbn [after]; [|done].
  apply wp_bind, wp_deref.
  destruct (targetData.ResourceData d) as [sp|] eqn:Hrd; cbn [after]; [|done].
  unfold wp.
  rewrite (recover_stacks_unfilled _ _ _ _ (decoded_unfilled _ _ _ Hlast Hrd)).
  cbn [fst snd]. split; [by destruct (decide _)|done].
Qed.

(** A checkpoint that holds a stack kills the goroutine of its project. *)
Lemma recover_project_dies pro po s b d sp :
  objects s !! project.object pro = Some po →
  http_get W (clock s)
    (cattleURL +:+ "/genericobjects?name=" +:+ genObjName +:+ "&key="
     +:+ object.Id po +:+ "&kind=" +:+ genericobjectKind) = Replied b →
  last (target.Data (decoded b)) = Some (Some d) →
  targetData.ResourceData d = Some sp →
  stored.p_Stacks sp ≠ ∅ →
  (recover_project cattleURL genObjName W pro s).1 = Panic.
Proof.
  intros Hpo Hget Hlast Hrd Hne.
  enough (wp (recover_project cattleURL genObjName W pro) s (λ r _, r = Panic))
    as H by exact H.
  unfold recover_project. apply wp_bind, wp_load_object. rewrite Hpo.
  cbn [after]. cbv zeta. apply wp_bind.
  destruct (rancherClient_get_replied W _ s b Hget) as (n0 & Hr & _).
  unfold wp at 1. rewrite Hr. cbn [after]. rewrite Hlast.
  apply wp_bind, wp_deref. cbn [after]. apply wp_bind, wp_deref.
  rewrite Hrd. cbn [after]. unfold wp.
  rewrite recover_stacks_unfilled.
  - cbn. by rewrite decide_False.
  - eapply decoded_unfilled; [|done]. by apply last_Some_elem_of.
Qed.

End Recovery.

(** What is true of every step of the recovery is true of the recovery,
    however it ends: of a request going out, of a line being logged and of
    a project being listed.  Nothing else happens in it, since the loop
    over the stacks of a checkpoint ends at its first stack. *)
Section RecoveryLifting.

Context (R : relation state) `{!PreOrder R}.
Hypothesis R_tick : ∀ s, R s (set_clock S s).
Hypothesis R_log : ∀ l, preserves R (log l).
Hypothesis R_upsert : ∀ d, preserves R (metric_upsert_project d).

Variables (cattleURL genObjName : string) (W : world).

Lemma preserves_recover_project pro :
  preserves R (recover_project cattleURL genObjName W pro).
Proof.
  intros s. unfold recover_project. apply wp_bind, wp_load_object.
  destruct (objects s !! project.object pro) as [po|]; cbn [after]; [|done].
  cbv zeta. apply wp_bind.
  set (url := cattleURL +:+ "/genericobjects?name=" +:+ genObjName +:+ "&key="
              +:+ object.Id po +:+ "&kind=" +:+ genericobjectKind).
  pose proof (preserves_get R R_tick R_log W url s) as HR.
  pose proof (get_decoded W url s) as Hdec. unfold wp in HR, Hdec. unfold wp at 1.
  destruct (rancherClient_get W url s) as [[t| |] s1]; cbn [fst snd after] in *;
    [|done..].
  destruct (Hdec t eq_refl) as [b ->].
  destruct (last (target.Data (decoded b))) as [od|] eqn:Hlast;
    [|by apply wp_ret].
  apply last_Some_elem_of in Hlast.
  apply wp_bind, wp_deref. destruct od as [d|]; cbn [after]; [|done].
  apply wp_bind, wp_deref.
  destruct (targetData.ResourceData d) as [sp|] eqn:Hrd; cbn [after]; [|done].
  unfold wp.
  by rewrite (recover_stacks_unfilled _ _ _ _ (decoded_unfilled _ _ _ Hlast Hrd)).
Qed.

Lemma preserves_metric_recover :
  preserves R (metric_recover cattleURL genObjName W).
Proof.
  unfold metric_recover, metric_upsert_item, range_Projects.
  apply (preserves_bind R).
  - apply (preserves_recovered R); [done|]. apply (preserves_bind R).
    + by apply (preserves_get R).
    + intros t. apply (preserves_forM R). intros od.
      apply (preserves_bind R); [apply (preserves_deref R)|done].
  - intros [u|]; [|apply (preserves_ret R)].
    apply (preserves_bind R); [apply (preserves_gets R)|]. intros pros.
    apply (preserves_forM R). intros d. apply preserves_recover_project.
Qed.

End RecoveryLifting.

(** Nothing of a checkpoint is in [s'] that was not in [s]: the vectors and
    the maps of services and of instances are the same, a map of stacks is
    what it was or empty, and an object has the counts it had or none. *)
Record brought_nothing (s s' : state) : Prop := mkBroughtNothing {
  nothing_registry : registry s' = registry s;
  nothing_serviceMaps : serviceMaps s' = serviceMaps s;
  nothing_instanceMaps : instanceMaps s' = instanceMaps s;
  nothing_stackMaps : ∀ m c, stackMaps s' !! m = Some c →
    stackMaps s !! m = Some c ∨ c = ∅;
  nothing_objects : ∀ l o', objects s' !! l = Some o' →
    (∃ o, objects s !! l = Some o ∧
       object.BootstrapCount o' = object.BootstrapCount o ∧
       object.FailureCount o' = object.FailureCount o)
    ∨ (object.BootstrapCount o' = 0 ∧ object.FailureCount o' = 0)
}.

#[global] Instance brought_nothing_preorder : PreOrder brought_nothing.
Proof.
  split.
  - intros s. split; eauto. all: intros l o H; left; by exists o.
  - intros s1 s2 s3 [Hr Hsv Hin Hst Ho] [Hr' Hsv' Hin' Hst' Ho']. split.
    + congruence.
    + congruence.
    + congruence.
    + intros m c H. destruct (Hst' m c H) as [H2| ->]; [by apply Hst|by right].
    + intros l o3 H. destruct (Ho' l o3 H) as [(o2 & H2 & E1 & E2)|H0];
        [|by right].
      destruct (Ho l o2 H2) as [(o1 & H1 & E3 & E4)|[E3 E4]].
      * left. exists o1. split; [done|]. split; congruence.
      * right. split; congruence.
Qed.

Lemma nothing_tick s : brought_nothing s (set_clock S s).
Proof. destruct s. split; eauto. all: intros l o H; left; by exists o. Qed.

Lemma nothing_log l : preserves brought_nothing (log l).
Proof.
  intros s. destruct s. split; eauto. all: intros l0 o H; left; by exists o.
Qed.

Lemma nothing_upsert d : preserves brought_nothing (metric_upsert_project d).
Proof.
  intros s. unfold metric_upsert_project.
  destruct s as [objs ims svms stms prjs reg clk tr].
  lazymatch goal with |- wp _ _ ?Q => set (Post := Q) end.
  repeat wp_step; wp_open.
  all: split; cbn [registry serviceMaps instanceMaps stackMaps objects]; eauto.
  - intros l o' H. destruct (decide (l = project.object t)) as [->|Hne].
    + rewrite lookup_insert_eq in H. injection H as <-. left. by eexists.
    + rewrite lookup_insert_ne in H by done. left. by exists o'.
  - intros m c H. destruct (decide (m = fresh (dom stms))) as [->|Hne].
    + rewrite lookup_insert_eq in H. injection H as <-. by right.
    + rewrite lookup_insert_ne in H by done. by left.
  - intros l o' H. destruct (decide (l = fresh (dom objs))) as [->|Hne].
    + rewrite lookup_insert_eq in H. injection H as <-. by right.
    + rewrite lookup_insert_ne in H by done. left. by exists o'.
Qed.

(** The query of lines 747-749 for the checkpoints of the project [id]. *)
Definition checkpoints_url (cattleURL genObjName id : string) : string :=
  cattleURL +:+ "/genericobjects?name=" +:+ genObjName +:+ "&key="
  +:+ id +:+ "&kind=" +:+ genericobjectKind.

(** The server answers [url] at time [n] with a list of checkpoints the
    last of which holds a stack. *)
Definition holds_checkpoint (W : world) (n : nat) (url : string) : Prop :=
  ∃ b e sp,
    http_get W n url = Replied b ∧
    last (target.Data (decoded b)) = Some (Some e) ∧
    targetData.ResourceData e = Some sp ∧
    stored.p_Stacks sp ≠ ∅.

(** Once the projects are listed, the recovery goes as the goroutine of the
    first project goes, when that one dies. *)
Lemma recover_dies_with_first_project cattleURL genObjName W s b d l :
  projects_sound s →
  http_get W (clock s) (cattleURL +:+ "/projects") = Replied b →
  target.Data (decoded b) = Some <$> (d :: l) →
  (∀ s' pro po,
     clock s' = S (clock s) → objects s' !! project.object pro = Some po →
     (recover_project cattleURL genObjName W pro s').1 = Panic) →
  (metric_recover cattleURL genObjName W s).1 = Panic.
Proof.
  intros Hwf Hget Hdata Hdies.
  enough (wp (metric_recover cattleURL genObjName W) s (λ r _, r = Panic))
    as H by exact H.
  unfold metric_recover. apply wp_bind, wp_recovered, wp_bind.
  destruct (rancherClient_get_replied W _ s b Hget) as (n0 & Hr & H0 & _).
  pose proof (get_clock W (cattleURL +:+ "/projects") s) as Hclk.
  unfold wp at 1. rewrite Hr. cbn [after].
  set (s1 := (rancherClient_get W _ s).2) in *.
  assert (projects_sound s1) as Hwf1.
  { intros k pro Hk. destruct H0 as (_ & Ho & _ & _ & _ & Hp & _).
    rewrite Ho. apply (Hwf k). by rewrite <- Hp. }
  rewrite Hdata.
  set (I := λ (done : list (option targetData.t)) (s' : state),
    projects_sound s' ∧ clock s' = clock s1 ∧
    (done ≠ [] → Projects s' ≠ ∅)).
  eapply wp_wand.
  - apply (wp_forM_inv _ I (Some <$> d :: l) [] s1); [by split_all|].
    intros done x s2 Hx (Hwf2 & Hc2 & _).
    apply list_elem_of_fmap in Hx as (d0 & -> & _).
    unfold metric_upsert_item. apply wp_bind, wp_deref. cbn [after].
    eapply wp_wand; [by apply upsert_sound|].
    intros r s3 (-> & Hwf3 & Hc3 & [pro Hpro]). split; [done|].
    split; [done|]. split; [congruence|]. intros _ E.
    by rewrite E, lookup_empty in Hpro.
  - intros r s2 (-> & Hwf2 & Hc2 & Hne). cbn [after].
    unfold range_Projects. apply wp_bind, wp_gets. cbn [after].
    destruct (map_to_list (Projects s2)) as [|[k pro] rest] eqn:E.
    { apply map_to_list_empty_iff in E. by destruct Hne. }
    assert (Projects s2 !! k = Some pro) as Hk.
    { apply elem_of_map_to_list. rewrite E. left. }
    destruct (Hwf2 k pro Hk) as [po Hpo].
    cbn [forM snd]. apply wp_bind.
    unfold wp at 1. rewrite (Hdies s2 pro po); [done| |done].
    by rewrite Hc2, Hclk.
Qed.

(** C8, against the code: the recovery rehydrates nothing.  The goroutine of
    a project whose query is answered by a list that is not empty takes the
    last entry, and at the first stack of it line 752 reads [sStack.Id]
    through the embedded [*object], which the decoder has left nil: the
    goroutine panics, nothing recovers it, and the process ends.  So it
    goes for the recovery as a whole once a project is listed and the
    server holds a checkpoint with a stack for whichever project is asked
    for first. *)
Theorem C8_recovery_dies_on_stored_stack cattleURL genObjName W :
  (∀ pro po s,
     objects s !! project.object pro = Some po →
     holds_checkpoint W (clock s)
       (checkpoints_url cattleURL genObjName (object.Id po)) →
     (recover_project cattleURL genObjName W pro s).1 = Panic) ∧
  (∀ s b d l,
     projects_sound s →
     http_get W (clock s) (cattleURL +:+ "/projects") = Replied b →
     target.Data (decoded b) = Some <$> (d :: l) →
     (∀ id, holds_checkpoint W (S (clock s))
              (checkpoints_url cattleURL genObjName id)) →
     (metric_recover cattleURL genObjName W s).1 = Panic).
Proof.
  assert (∀ pro po s,
     objects s !! project.object pro = Some po →
     holds_checkpoint W (clock s)
       (checkpoints_url cattleURL genObjName (object.Id po)) →
     (recover_project cattleURL genObjName W pro s).1 = Panic) as Hone.
  { intros pro po s Hpo (b & e & sp & Hget & Hlast & Hrd & Hne).
    by eapply recover_project_dies. }
  split; [exact Hone|].
  intros s b d l Hwf Hget Hdata Hall.
  eapply recover_dies_with_first_project; [done..|].
  intros s' pro po Hc Hpo. apply (Hone pro po s' Hpo). rewrite Hc. apply Hall.
Qed.

Module Checkpointed.

(** The checkpoint a backup has written for the environment [env] with its
    stack [web]: the document names the fields of every object. *)
Definition checkpoint : stored.project :=
  stored.mkProject (Some (object.mk "1a5" "env" "" "" 0 0))
    {[ "web" := stored.mkStack
         (Some (object.mk "1st1" "web" "active" "stack" 3 1)) ∅ false ]}.

Definition entry : targetData.t :=
  targetData.mk "" "1a5" "g" "" false 0 "" "1go1" "" "" "genericObject" ""
    0 0 (Some checkpoint).

(** The server lists the environment and then answers with the checkpoint. *)
Definition server : world :=
  mkWorld
    (λ n url,
       match n with
       | O => Example.page [Example.node "env" "active" "healthy" "1a5" "project"]
       | S _ => Example.page [entry]
       end)
    (λ _ _ _, PostFailed).

End Checkpointed.

Lemma C8_witness :
  projects_sound newMetric ∧
  http_get Checkpointed.server (clock newMetric) ("U" +:+ "/projects")
    = Example.page [Example.node "env" "active" "healthy" "1a5" "project"] ∧
  (∀ id, holds_checkpoint Checkpointed.server (S (clock newMetric))
           (checkpoints_url "U" "g" id)) ∧
  (metric_recover "U" "g" Checkpointed.server newMetric).1 = Panic.
Proof.
  assert (projects_sound newMetric) as Hwf.
  { intros k pro. unfold newMetric. cbn [Projects]. by rewrite lookup_empty. }
  assert (∀ id, holds_checkpoint Checkpointed.server (S (clock newMetric))
                  (checkpoints_url "U" "g" id)) as Hall.
  { intros id. eexists _, (json.targetData Checkpointed.entry), _.
    split; [reflexivity|]. split; [reflexivity|]. split; [reflexivity|].
    intros E. apply (f_equal (.!! "web")) in E. vm_compute in E. discriminate. }
  split; [exact Hwf|]. split; [reflexivity|]. split; [exact Hall|].
  exact (proj2 (C8_recovery_dies_on_stored_stack "U" "g" Checkpointed.server)
           newMetric _
           (Example.node "env" "active" "healthy" "1a5" "project") []
           Hwf eq_refl eq_refl Hall).
Defined.

(** ** The counts of a process *)

(** The observations of nodes that a trace records. *)
Fixpoint observations (tr : list event) : Z :=
  match tr with
  | [] => 0
  | Seen _ _ :: tr => observations tr + 1
  | _ :: tr => observations tr
  end.

(** Every [+= 1] of the trace was applied to a count that is below the
    number of observations made by then. *)
Fixpoint accounted (tr : list event) : Prop :=
  match tr with
  | [] => True
  | Incremented old :: tr => 0 ≤ old < observations tr ∧ accounted tr
  | _ :: tr => accounted tr
  end.

(** No count of the model is above the number of observations made. *)
Definition tame (s : state) : Prop :=
  accounted (trace s) ∧
  ∀ l o, objects s !! l = Some o →
    0 ≤ object.BootstrapCount o ≤ observations (trace s) ∧
    0 ≤ object.FailureCount o ≤ observations (trace s).

Definition keeps_tame (s s' : state) : Prop := tame s → tame s'.

#[global] Instance keeps_tame_preorder : PreOrder keeps_tame.
Proof. split; [by intros s H | intros s1 s2 s3 H1 H2 H; by apply H2, H1]. Qed.

Lemma observations_nonneg tr : 0 ≤ observations tr.
Proof. induction tr as [|[] tr IH]; cbn; lia. Qed.

Lemma add64_bounds x : 0 ≤ x → 0 ≤ add64 x 1 ≤ x + 1.
Proof.
  intros H. unfold add64. split.
  - apply Z.mod_pos_bound. lia.
  - apply Z.mod_le; lia.
Qed.

Lemma tame_newMetric : tame newMetric.
Proof. split; [done|]. intros l o H. cbn in H. by rewrite lookup_empty in H. Qed.

(** In a process that has made fewer than 2^64 observations no [+= 1] was
    applied at the largest [uint64]. *)
Lemma accounted_no_wrap new old :
  accounted (new ++ old) → observations (new ++ old) ≤ uint64_max →
  Forall no_wrap new.
Proof.
  induction new as [|e new IH]; [constructor|].
  cbn [app]. intros Ha Hb.
  pose proof (observations_nonneg (new ++ old)).
  destruct e; cbn [accounted observations] in *.
  - constructor; [done|]. by apply IH.
  - constructor; [done|]. by apply IH.
  - constructor; [done|]. apply IH; [done|lia].
  - destruct Ha as [Ho Ha]. constructor; [cbn; lia|]. by apply IH.
Qed.

(** The bounds of an object that a step has read. *)
Ltac known_bounds Hobj :=
  repeat match goal with
  | E : _ !! _ = Some ?o |- _ =>
      lazymatch goal with
      | _ : 0 ≤ object.BootstrapCount o ≤ _ ∧ _ |- _ => fail
      | _ => pose proof (Hobj _ _ E)
      end
  end.

Ltac split_inserts H :=
  repeat lazymatch type of H with
  | <[?k := _]> _ !! ?l = Some _ =>
      destruct (decide (l = k)) as [->|?];
      [ rewrite lookup_insert_eq in H; injection H as <-
      | rewrite lookup_insert_ne in H by done ]
  end.

Ltac add64_bounded :=
  repeat match goal with
  | |- context [add64 ?x 1] =>
      let H := fresh in
      assert (0 ≤ add64 x 1 ≤ x + 1) as H by (apply add64_bounds; lia);
      generalize dependent (add64 x 1); intros
  end.

Ltac close_tame :=
  let Hacc := fresh "Hacc" in let Hobj := fresh "Hobj" in
  let Hl := fresh "Hl" in
  intros [Hacc Hobj]; cbn [trace objects] in Hacc, Hobj;
  match type of Hacc with accounted ?tr =>
    pose proof (observations_nonneg tr) end;
  rewrite ?insert_insert_eq;
  cbn [instance.object instance.set_StartupTime];
  split; cbn [trace objects accounted observations];
  [ known_bounds Hobj; obj_fields; split_all; first [done | lia]
  | intros ? ? Hl; first [ split_inserts Hl | idtac ];
    known_bounds Hobj; try (pose proof (Hobj _ _ Hl));
    obj_fields; cbn [Z.b2z]; add64_bounded; lia ].

Lemma tame_tick s : keeps_tame s (set_clock S s).
Proof. destruct s. by intros H. Qed.

Lemma tame_log l : preserves keeps_tame (log l).
Proof. intros s. unfold log. wp_run. by intros H. Qed.

Lemma tame_posted url b c e : preserves keeps_tame (emit (Posted url b c e)).
Proof. intros s. wp_run. by intros H. Qed.

Lemma tame_project_fetch_stack o d : preserves keeps_tame (project_fetch_stack o d).
Proof.
  intros s. unfold project_fetch_stack. wp_run.
  all: unfold keeps_tame; close_tame.
Qed.

Lemma tame_stack_fetch_service o d : preserves keeps_tame (stack_fetch_service o d).
Proof.
  intros s. unfold stack_fetch_service. wp_run.
  all: unfold keeps_tame; close_tame.
Qed.

Lemma tame_service_fetch_instance o d :
  preserves keeps_tame (service_fetch_instance o d).
Proof.
  intros s. unfold service_fetch_instance. wp_run.
  all: unfold keeps_tame; close_tame.
Qed.

Lemma tame_metric_fetch_host d : preserves keeps_tame (metric_fetch_host d).
Proof. intros s. unfold metric_fetch_host. wp_run. by intros H. Qed.

Lemma tame_metric_upsert_project d :
  preserves keeps_tame (metric_upsert_project d).
Proof.
  intros s. unfold metric_upsert_project. wp_run.
  all: unfold keeps_tame; close_tame.
Qed.

Lemma tame_metric_fetch_reset : preserves keeps_tame metric_fetch_reset.
Proof. intros s. unfold metric_fetch_reset. wp_run. by intros H. Qed.

Lemma tame_run_cycles cattleURL genObjName hideSys cs :
  preserves keeps_tame (run_cycles cattleURL genObjName hideSys cs).
Proof.
  apply preserves_forM; [apply _|]. intros [W fuel|W].
  - apply preserves_metric_fetch; auto using tame_tick, tame_log,
      tame_posted, tame_service_fetch_instance, tame_stack_fetch_service,
      tame_project_fetch_stack, tame_metric_fetch_host,
      tame_metric_upsert_project, tame_metric_fetch_reset
      with typeclass_instances.
  - apply preserves_metric_backup; auto using tame_tick, tame_log,
      tame_posted with typeclass_instances.
Qed.

Lemma tame_metric_recover cattleURL genObjName W :
  preserves keeps_tame (metric_recover cattleURL genObjName W).
Proof.
  apply preserves_metric_recover; auto using tame_tick, tame_log,
    tame_metric_upsert_project with typeclass_instances.
Qed.

(** C5: in a process, from the empty model through the recovery and any
    cycles of fetch and backup, a node that is in the model at one point is
    in it at every later point under its name, and its bootstrapCount and
    failureCount are then at least what they were.  The counts are [uint64]
    and a [+= 1] at 2^64 - 1 would wrap; a count is never above the number
    of observations the process has made, so this is out of reach for a
    process that has made fewer than 2^64 of them. *)
Theorem C5_counts_never_go_down cattleURL genObjName hideSys (W0 : world)
    (before between : list cycle) :
  let s0 := (metric_recover cattleURL genObjName W0 newMetric).2 in
  let s1 := (run_cycles cattleURL genObjName hideSys before s0).2 in
  let s2 := (run_cycles cattleURL genObjName hideSys between s1).2 in
  observations (trace s2) ≤ uint64_max →
  ∀ l o, objects s1 !! l = Some o →
    ∃ o', objects s2 !! l = Some o' ∧ object.Name o' = object.Name o ∧
      object.BootstrapCount o ≤ object.BootstrapCount o' ∧
      object.FailureCount o ≤ object.FailureCount o'.
Proof.
  intros s0 s1 s2 Hobs l o Hl.
  assert (tame s2) as [Hacc _].
  { apply (tame_run_cycles cattleURL genObjName hideSys between s1).
    apply (tame_run_cycles cattleURL genObjName hideSys before s0).
    apply (tame_metric_recover cattleURL genObjName W0 newMetric).
    apply tame_newMetric. }
  destruct (summary_run_cycles cattleURL genObjName hideSys between s1)
    as (new & Ht & Hp & Hle & _).
  fold s2 in Ht, Hp, Hle. rewrite Ht in Hacc, Hobs.
  destruct (persists_objects _ _ Hp l o Hl) as (o' & Hl' & HN).
  exists o'. split; [done|]. split; [done|].
  apply (Hle (accounted_no_wrap _ _ Hacc Hobs) l o o' Hl Hl').
Qed.

Lemma C5_witness :
  let W0 := Example.server [] in
  let before := [Scrape (Example.server [Example.web "active" "healthy"]) 5] in
  let between :=
    [Scrape (Example.server [Example.web "upgrading" "healthy"]) 5;
     Backup (Example.server []);
     Scrape (Example.server [Example.web "active" "unhealthy"]) 5] in
  let s0 := (metric_recover "U" "g" W0 newMetric).2 in
  let s1 := (run_cycles "U" "g" false before s0).2 in
  let s2 := (run_cycles "U" "g" false between s1).2 in
  observations (trace s2) ≤ uint64_max ∧
  objects s1 !! 2%positive
    = Some (object.mk "1st1" "web" "active" "stack" 1 0) ∧
  objects s2 !! 2%positive
    = Some (object.mk "1st1" "web" "active" "stack" 2 1) ∧
  ∀ l o, objects s1 !! l = Some o →
    ∃ o', objects s2 !! l = Some o' ∧ object.Name o' = object.Name o ∧
      object.BootstrapCount o ≤ object.BootstrapCount o' ∧
      object.FailureCount o ≤ object.FailureCount o'.
Proof.
  cbv zeta.
  match goal with |- ?A ∧ ?B ∧ ?C ∧ _ =>
    assert A as Hobs by (vm_compute; discriminate);
    assert B as H1 by (vm_compute; reflexivity);
    assert C as H2 by (vm_compute; reflexivity)
  end.
  split; [exact Hobs|]. split; [exact H1|]. split; [exact H2|].
  exact (C5_counts_never_go_down "U" "g" false (Example.server [])
           [Scrape (Example.server [Example.web "active" "healthy"]) 5]
           [Scrape (Example.server [Example.web "upgrading" "healthy"]) 5;
            Backup (Example.server []);
            Scrape (Example.server [Example.web "active" "unhealthy"]) 5]
           Hobs).
Defined.

(** * Further properties of the code *)

(** ** A listing that fails inside a fetch *)

(** The listing at [url] gives the loop nothing to go on with: the request
    cannot be built, the transport fails without a response, or the body
    leaves [t] without data and without pagination (as a body that does not
    decode does). *)
Definition listing_fails (W : world) (n : nat) (url : string) : Prop :=
  match http_get W n url with
  | BadRequest => True
  | Failed None => True
  | Failed (Some b) | Replied b =>
      target.Data (decoded b) = [] ∧ target.Pagination (decoded b) = None
  end.

(** The fetch of a node was given up after one request: an error was logged,
    nothing was posted, and the model and the vectors are what they were. *)
Definition gave_up (s s' : state) : Prop :=
  clock s' = S (clock s) ∧
  ∃ new, only_talked s s' new ∧ Logged LvlError ∈ new ∧ requests new = [].

Lemma is_empty_true x : is_empty x = true ↔ x = "".
Proof. by destruct x. Qed.

Lemma failed_listing_panics W url s :
  listing_fails W (clock s) url →
  wp (rancherClient_get W url) s (λ r s',
    clock s' = S (clock s) ∧
    (∃ new, only_talked s s' new ∧ requests new = [] ∧
       (r = Panic → Logged LvlError ∈ new)) ∧
    match r with
    | Done t => target.Data t = [] ∧ target.Pagination t = None
    | Panic => True
    | Spin => False
    end).
Proof.
  unfold listing_fails, wp, rancherClient_get, exchange_get, get_decode, bind.
  destruct s as [objs ims svms stms prjs reg clk tr]. cbn.
  destruct (http_get W clk url) as [|[b|]|b]; cbn.
  - intros _. split; [done|]. split; [|done].
    exists [Logged LvlError]. unfold only_talked. split_all; try done.
    intros _. by left.
  - intros [Hd Hp]. destruct (decode_err b); cbn; (split; [done|]).
    + split; [|done]. exists [Logged LvlError; Logged LvlError].
      unfold only_talked. by split_all.
    + split; [|done]. exists [Logged LvlError]. unfold only_talked.
      by split_all.
  - intros _. split; [done|]. split; [|done].
    exists [Logged LvlError]. unfold only_talked. split_all; try done.
    intros _. by left.
  - intros [Hd Hp]. destruct (decode_err b); cbn; (split; [done|]).
    + split; [|done]. exists [Logged LvlError]. unfold only_talked.
      by split_all.
    + split; [|done]. exists []. unfold only_talked. by split_all.
Qed.

(** A recovered panic leaves a log. *)
Lemma gave_up_intro s s1 new :
  clock s1 = S (clock s) → only_talked s s1 new → requests new = [] →
  gave_up s (set_trace (cons (Logged LvlError)) s1).
Proof.
  intros Hc Ht Hr. split; [by destruct s1|].
  exists (Logged LvlError :: new). split; [by apply only_talked_emit|].
  split; [left|]. change (Logged LvlError :: new) with ([Logged LvlError] ++ new).
  by rewrite requests_app, Hr.
Qed.

Section FailedListing.

Variables (cattleURL : string) (hideSys : bool) (W : world).

(** What the three loops over the pages do with a listing that fails: they
    panic where they read [t.Pagination.Next], or before. *)
Lemma pages_give_up {A} (k : target.t → M A) url s :
  listing_fails W (clock s) url →
  (∀ t s1, target.Data t = [] → target.Pagination t = None →
     (k t s1).1 = Panic ∧ (k t s1).2 = s1) →
  wp (let* t := rancherClient_get W url in k t) s (λ r s',
    r = Panic ∧ gave_up s (set_trace (cons (Logged LvlError)) s')).
Proof.
  intros Hf Hk. apply wp_bind.
  eapply wp_wand; [exact (failed_listing_panics W url s Hf)|].
  intros r s1 (Hc & (new & Ht & Hr & Hl) & Hres).
  destruct r as [t| |]; cbn [after]; [| |done].
  - destruct Hres as [Hd Hp].
    destruct (Hk t s1 Hd Hp) as [H1 H2]. unfold wp. rewrite H1, H2.
    split; [done|]. by eapply gave_up_intro.
  - split; [done|]. by eapply gave_up_intro.
Qed.

Lemma service_pages_give_up fuel o url s :
  listing_fails W (clock s) url →
  wp (service_fetch_pages W (S fuel) o url) s (λ r s',
    r = Panic ∧ gave_up s (set_trace (cons (Logged LvlError)) s')).
Proof.
  intros Hf. cbn [service_fetch_pages]. apply pages_give_up; [done|].
  intros t s1 -> ->. done.
Qed.

Lemma stack_pages_give_up fuel o url s :
  listing_fails W (clock s) url →
  wp (stack_fetch_pages W (S fuel) o url) s (λ r s',
    r = Panic ∧ gave_up s (set_trace (cons (Logged LvlError)) s')).
Proof.
  intros Hf. cbn [stack_fetch_pages]. apply pages_give_up; [done|].
  intros t s1 -> ->. done.
Qed.

Lemma project_pages_give_up fuel o url s :
  listing_fails W (clock s) url →
  wp (project_fetch_pages W (S fuel) o url) s (λ r s',
    r = Panic ∧ gave_up s (set_trace (cons (Logged LvlError)) s')).
Proof.
  intros Hf. cbn [project_fetch_pages]. apply pages_give_up; [done|].
  intros t s1 -> ->. done.
Qed.

(** The urls of the three listings. *)
Definition stacks_url (id : string) : string :=
  if hideSys
  then cattleURL +:+ "/projects/" +:+ id +:+ "/stacks?limit=100&sort=id&system=false"
  else cattleURL +:+ "/projects/" +:+ id +:+ "/stacks?limit=100&sort=id".
Definition services_url (id : string) : string :=
  if hideSys
  then cattleURL +:+ "/stacks/" +:+ id +:+ "/services?limit=100&sort=id&system=false"
  else cattleURL +:+ "/stacks/" +:+ id +:+ "/services?limit=100&sort=id".
Definition instances_url (id : string) : string :=
  cattleURL +:+ "/services/" +:+ id +:+ "/instances?limit=100&sort=id".

(** When the listing of the children of a node fails, the fetch of the node
    returns all the same, after one request and with the error logged: its
    deferred recover takes the panic.  Nothing of the model or of the
    vectors has changed, and the children that the model knows are not
    fetched in this scrape. *)
Theorem failed_listing_abandons_node fuel s :
  (∀ o oo,
     objects s !! project.object o = Some oo → object.Id oo ≠ "" →
     listing_fails W (clock s) (stacks_url (object.Id oo)) →
     wp (project_fetch cattleURL hideSys W (S fuel) o) s (λ r s',
       r = Done tt ∧ gave_up s s')) ∧
  (∀ o oo po,
     objects s !! stack.object o = Some oo → object.Id oo ≠ "" →
     objects s !! project.object (stack.parent o) = Some po →
     listing_fails W (clock s) (services_url (object.Id oo)) →
     wp (stack_fetch cattleURL hideSys W (S fuel) o) s (λ r s',
       r = Done tt ∧ gave_up s s')) ∧
  (∀ o oo po ppo,
     objects s !! service.object o = Some oo → object.Id oo ≠ "" →
     objects s !! stack.object (service.parent o) = Some po →
     objects s !! project.object (stack.parent (service.parent o)) = Some ppo →
     listing_fails W (clock s) (instances_url (object.Id oo)) →
     wp (service_fetch cattleURL W (S fuel) o) s (λ r s',
       r = Done tt ∧ gave_up s s')).
Proof.
  split_all.
  - intros o oo Hoo Hid Hf. unfold project_fetch.
    apply wp_recovering, wp_bind, wp_load_object. rewrite Hoo. cbn [after].
    destruct (is_empty (object.Id oo)) eqn:E; [by apply is_empty_true in E|].
    cbv zeta. apply wp_bind. fold (stacks_url (object.Id oo)).
    eapply wp_wand; [by apply project_pages_give_up|].
    by intros r s' (-> & H).
  - intros o oo po Hoo Hid Hpo Hf. unfold stack_fetch.
    apply wp_recovering, wp_bind, wp_load_object. rewrite Hoo. cbn [after].
    destruct (is_empty (object.Id oo)) eqn:E; [by apply is_empty_true in E|].
    apply wp_bind, wp_load_object. rewrite Hpo. cbn [after].
    cbv zeta. apply wp_bind. fold (services_url (object.Id oo)).
    eapply wp_wand; [by apply stack_pages_give_up|].
    by intros r s' (-> & H).
  - intros o oo po ppo Hoo Hid Hpo Hppo Hf. unfold service_fetch.
    apply wp_recovering, wp_bind, wp_load_object. rewrite Hoo. cbn [after].
    destruct (is_empty (object.Id oo)) eqn:E; [by apply is_empty_true in E|].
    apply wp_bind, wp_load_object. rewrite Hpo. cbn [after].
    apply wp_bind, wp_load_object. rewrite Hppo. cbn [after].
    cbv zeta. fold (instances_url (object.Id oo)).
    eapply wp_wand; [by apply service_pages_give_up|].
    by intros r s' (-> & H).
Qed.

End FailedListing.

Lemma failed_listing_abandons_node_witness :
  let o := project.mk 1 1 in
  let oo := object.mk "1a5" "env" "" "" 0 0 in
  let s := Example.flap1 in
  objects s !! project.object o = Some oo ∧
  object.Id oo ≠ "" ∧
  listing_fails Refused.server (clock s) (stacks_url "U" false (object.Id oo)) ∧
  wp (project_fetch "U" false Refused.server 1 o) s (λ r s',
    r = Done tt ∧ gave_up s s').
Proof.
  cbv zeta.
  assert (objects Example.flap1 !! 1%positive
          = Some (object.mk "1a5" "env" "" "" 0 0)) as Hoo
    by (vm_compute; reflexivity).
  assert (listing_fails Refused.server (clock Example.flap1)
            (stacks_url "U" false "1a5")) as Hf by exact I.
  split; [exact Hoo|]. split; [discriminate|]. split; [exact Hf|].
  exact (proj1 (failed_listing_abandons_node "U" false Refused.server 0
                  Example.flap1)
           (project.mk 1 1) _ Hoo ltac:(discriminate) Hf).
Defined.

(** ** Pages without end *)

Lemma bind_spin_l {A B} (m : M A) (f : A → M B) s :
  (m s).1 = Spin → (bind m f s).1 = Spin.
Proof. unfold bind. by destruct (m s) as [[a| |] s1]. Qed.

Lemma bind_spin_r {A B} (m : M A) (f : A → M B) a s s1 :
  m s = (Done a, s1) → (f a s1).1 = Spin → (bind m f s).1 = Spin.
Proof. unfold bind. by intros ->. Qed.

Lemma recovering_spin (m : M unit) s : (m s).1 = Spin → (recovering m s).1 = Spin.
Proof.
  unfold recovering, recovered, bind. by destruct (m s) as [[a| |] s1].
Qed.

Section Endless.

Variables (cattleURL : string) (hideSys : bool) (W : world).

(** Every listing is answered by a page that has no data and names a next
    page. *)
Definition endless : Prop :=
  ∀ n url, ∃ b next,
    http_get W n url = Replied b ∧ target.Data (decoded b) = [] ∧
    target.Pagination (decoded b) = Some (targetPagination.mk next) ∧
    next ≠ "".

Lemma endless_get url s :
  endless →
  ∃ t next s1, rancherClient_get W url s = (Done t, s1) ∧
    target.Data t = [] ∧
    target.Pagination t = Some (targetPagination.mk next) ∧
    is_empty next = false.
Proof.
  intros H. destruct (H (clock s) url) as (b & next & Hb & Hd & Hp & Hn).
  unfold rancherClient_get, exchange_get, get_decode, bind.
  destruct s as [objs ims svms stms prjs reg clk tr]. cbn in *. rewrite Hb.
  destruct (decode_err b); cbn; eexists _, next, _; split_all; try done.
  all: by destruct next.
Qed.

Lemma project_pages_spin fuel o url s :
  endless → (project_fetch_pages W fuel o url s).1 = Spin.
Proof.
  intros H. revert url s. induction fuel as [|fuel IH]; intros url s; [done|].
  destruct (endless_get url s H) as (t & next & s1 & Hg & Hd & Hp & Hn).
  cbn [project_fetch_pages]. unfold bind at 1. rewrite Hg, Hd, Hp.
  cbn. rewrite Hn. apply IH.
Qed.

Lemma stack_pages_spin fuel o url s :
  endless → (stack_fetch_pages W fuel o url s).1 = Spin.
Proof.
  intros H. revert url s. induction fuel as [|fuel IH]; intros url s; [done|].
  destruct (endless_get url s H) as (t & next & s1 & Hg & Hd & Hp & Hn).
  cbn [stack_fetch_pages]. unfold bind at 1. rewrite Hg, Hd, Hp.
  cbn. rewrite Hn. apply IH.
Qed.

Lemma service_pages_spin fuel o url s :
  endless → (service_fetch_pages W fuel o url s).1 = Spin.
Proof.
  intros H. revert url s. induction fuel as [|fuel IH]; intros url s; [done|].
  destruct (endless_get url s H) as (t & next & s1 & Hg & Hd & Hp & Hn).
  cbn [service_fetch_pages]. unfold bind at 1. rewrite Hg, Hd, Hp.
  cbn. rewrite Hn. apply IH.
Qed.

(** The loops over the pages have no bound: against a server that names a
    next page on every page, the fetch of a project that has an id does not
    return, however many pages it is given the time to read. *)
Theorem endless_pages_never_return fuel o oo s :
  endless →
  objects s !! project.object o = Some oo →
  object.Id oo ≠ "" →
  (project_fetch cattleURL hideSys W fuel o s).1 = Spin.
Proof.
  intros H Hoo Hid. unfold project_fetch.
  apply recovering_spin, bind_spin_r with oo s.
  { unfold load_object, bind, gets, deref. by rewrite Hoo. }
  destruct (is_empty (object.Id oo)) eqn:E; [by apply is_empty_true in E|].
  cbv zeta. apply bind_spin_l, project_pages_spin, H.
Qed.

End Endless.

Module Endless.

(** A server whose every page names the page [next]. *)
Definition server : world :=
  mkWorld
    (λ _ _, Replied (mkBody (target.mk [] (Some (targetPagination.mk "next")))
                            false))
    (λ _ _ _, PostFailed).

End Endless.

Lemma endless_pages_never_return_witness :
  endless Endless.server ∧
  objects Example.flap1 !! 1%positive
    = Some (object.mk "1a5" "env" "" "" 0 0) ∧
  (project_fetch "U" false Endless.server 1000 (project.mk 1 1)
     Example.flap1).1 = Spin.
Proof.
  assert (endless Endless.server) as H.
  { intros n url. by eexists _, "next". }
  assert (objects Example.flap1 !! 1%positive
          = Some (object.mk "1a5" "env" "" "" 0 0)) as Hoo
    by (vm_compute; reflexivity).
  split; [exact H|]. split; [exact Hoo|].
  exact (endless_pages_never_return "U" false Endless.server 1000
           (project.mk 1 1) _ Example.flap1 H Hoo ltac:(discriminate)).
Defined.

(** ** The checkpoints a backup finds *)

(** The ids of the entries of a listing that are filed under the key [k],
    in the order of the listing. *)
Definition ids_of (k : string) (l : list targetData.t) : list string :=
  targetData.ID <$> filter (λ d, targetData.Key d = k) l.

Lemma backup_group_fold l : ∀ m k,
  foldl backup_group m l !! k =
  match m !! k with
  | Some ids => Some (ids ++ ids_of k l)
  | None => if decide (ids_of k l = []) then None else Some (ids_of k l)
  end.
Proof.
  unfold ids_of.
  induction l as [|d l IH]; intros m k.
  - cbn. destruct (m !! k); [by rewrite app_nil_r | done].
  - cbn [foldl]. rewrite IH. unfold backup_group at 1.
    rewrite filter_cons.
    destruct (decide (targetData.Key d = k)) as [<-|Hne].
    + destruct (m !! targetData.Key d) as [ids|] eqn:Hm.
      * rewrite lookup_insert_eq. by rewrite <- app_assoc.
      * rewrite lookup_insert_eq. cbn. by rewrite decide_False.
    + destruct (m !! targetData.Key d) as [ids|] eqn:Hm;
        by rewrite lookup_insert_ne.
Qed.

Lemma backup_listing_nil l l' m s :
  backup_listing ((Some <$> l) ++ None :: l') m s = (Panic, s).
Proof. revert m. induction l as [|d l IH]; intros m; [done|]. cbn. apply IH. Qed.

(** The map that a backup builds from the listing of the checkpoints
    (lines 858-865) files every id of the listing under the key of its
    entry, the ids of a key in the order of the listing, and has no key
    without an id; a nil element in the listing panics. *)
Theorem backup_listing_groups_by_key :
  (∀ l k s,
     wp (backup_listing (Some <$> l) ∅) s (λ r s',
       s' = s ∧ ∃ m, r = Done m ∧
         m !! k = (if decide (ids_of k l = []) then None
                   else Some (ids_of k l)))) ∧
  (∀ l l' m s,
     (backup_listing ((Some <$> l) ++ None :: l') m s).1 = Panic).
Proof.
  split.
  - intros l k s. rewrite backup_listing_run. apply wp_ret. split; [done|].
    eexists. split; [done|]. by rewrite backup_group_fold, lookup_empty.
  - intros l l' m s. by rewrite backup_listing_nil.
Qed.

(** ** A backup only talks *)

(** A GET only talks, however it ends, and it ends. *)
Lemma backup_listing_pure l m s :
  (backup_listing l m s).2 = s ∧ (backup_listing l m s).1 ≠ Spin.
Proof.
  revert m. induction l as [|[d|] l IH]; intros m; [done| |done].
  cbn. apply IH.
Qed.

Lemma sent_requests_nil new : requests new = [] → sent new = [].
Proof. unfold sent. by intros ->. Qed.

Lemma wp_backup_listing l m s Q :
  (∀ r, r ≠ Spin → Q r s) → wp (backup_listing l m) s Q.
Proof.
  intros H. unfold wp. destruct (backup_listing_pure l m s) as [-> Hr].
  by apply H.
Qed.

(** The listing of the checkpoints cannot be had: the request cannot be
    built, there is no response, or an element of the list is nil. *)
Definition listing_lost (W : world) (n : nat) (url : string) : Prop :=
  match http_get W n url with
  | BadRequest => True
  | Failed None => True
  | Failed (Some b) | Replied b =>
      ∃ l l', target.Data (decoded b) = (Some <$> l) ++ None :: l'
  end.

Lemma lost_listing_panics W url s :
  listing_lost W (clock s) url →
  wp (let* t := rancherClient_get W url in backup_listing (target.Data t) ∅) s
    (λ r s', r = Panic ∧ ∃ new, only_talked s s' new ∧ requests new = []).
Proof.
  unfold listing_lost, wp, rancherClient_get, exchange_get, get_decode, bind.
  destruct s as [objs ims svms stms prjs reg clk tr]. cbn.
  destruct (http_get W clk url) as [|[b|]|b]; cbn.
  - intros _. split; [done|]. exists [Logged LvlError]. unfold only_talked.
    by split_all.
  - intros (l & l' & Hd). destruct (decode_err b); cbn;
      rewrite Hd, backup_listing_nil; (split; [done|]).
    + exists [Logged LvlError; Logged LvlError]. unfold only_talked.
      by split_all.
    + exists [Logged LvlError]. unfold only_talked. by split_all.
  - intros _. split; [done|]. exists [Logged LvlError]. unfold only_talked.
    by split_all.
  - intros (l & l' & Hd). destruct (decode_err b); cbn;
      rewrite Hd, backup_listing_nil; (split; [done|]).
    + exists [Logged LvlError]. unfold only_talked. by split_all.
    + exists []. unfold only_talked. by split_all.
Qed.

(** A backup returns, whatever the server answers, and it only talks: the
    model and the vectors are what they were.  When the listing of the
    checkpoints cannot be had, the panic is recovered and logged, and
    nothing at all is posted: no checkpoint is written in that cycle. *)
Theorem backup_only_talks cattleURL genObjName W s :
  (projects_sound s →
   wp (metric_backup cattleURL genObjName W) s (λ r s',
     r = Done tt ∧ ∃ new, only_talked s s' new)) ∧
  (listing_lost W (clock s)
     (cattleURL +:+ "/genericobjects?name=" +:+ genObjName
      +:+ "&kind=" +:+ genericobjectKind) →
   wp (metric_backup cattleURL genObjName W) s (λ r s',
     r = Done tt ∧ ∃ new, only_talked s s' new ∧
       sent new = [] ∧ Logged LvlError ∈ new)).
Proof.
  split.
  - intros Hwf. unfold metric_backup. apply wp_bind, wp_recovered, wp_bind.
    eapply wp_wand; [apply get_only_talks|].
    intros r s1 (Hspin & n0 & H0 & R0 & L0).
    destruct r as [t| |]; cbn [after]; [| |done].
    + apply wp_backup_listing. intros [ids| |] Hr; cbn [after]; [| |done].
      * unfold range_Projects. apply wp_bind, wp_gets. cbn [after].
        set (I := λ (done : list (string * project.t)) (s' : state),
          ∃ new, only_talked s s' new).
        eapply wp_wand.
        -- apply (wp_forM_inv _ I (map_to_list (Projects s1)) [] s1);
             [by exists n0|].
           intros done [k pro] s2 Hin (n1 & H1).
           assert (Projects s1 = Projects s) as HP by apply H0.
           rewrite HP in Hin. apply elem_of_map_to_list in Hin.
           destruct (Hwf k pro Hin) as [po Hpo].
           assert (objects s2 !! project.object pro = Some po) as Hpo2.
           { destruct H1 as (_ & -> & _). done. }
           eapply wp_wand;
             [by apply (backup_project_sent cattleURL genObjName W ids pro po)|].
           intros r s3. cbv zeta. intros (-> & n2 & H2 & _). split; [done|].
           exists (n2 ++ n1). by eapply only_talked_trans.
        -- by intros r s' (-> & H).
      * apply wp_ret. split; [done|]. exists (Logged LvlError :: n0).
        by apply only_talked_emit.
    + apply wp_ret. split; [done|]. exists (Logged LvlError :: n0).
      by apply only_talked_emit.
  - intros Hl. unfold metric_backup. apply wp_bind, wp_recovered.
    eapply wp_wand; [by apply lost_listing_panics|].
    intros r s1 (-> & n0 & H0 & R0). cbn [after]. apply wp_ret.
    split; [done|]. exists (Logged LvlError :: n0).
    split; [by apply only_talked_emit|]. split; [|left].
    change (Logged LvlError :: n0) with ([Logged LvlError] ++ n0).
    by rewrite sent_app, (sent_requests_nil n0 R0).
Qed.

Lemma backup_only_talks_witness :
  projects_sound Example.flap1 ∧
  listing_lost Refused.server (clock Example.flap1)
    ("U" +:+ "/genericobjects?name=" +:+ "g" +:+ "&kind=" +:+ genericobjectKind) ∧
  wp (metric_backup "U" "g" Refused.server) Example.flap1 (λ r s',
    r = Done tt ∧ ∃ new, only_talked Example.flap1 s' new) ∧
  wp (metric_backup "U" "g" Refused.server) Example.flap1 (λ r s',
    r = Done tt ∧ ∃ new, only_talked Example.flap1 s' new ∧
      sent new = [] ∧ Logged LvlError ∈ new).
Proof.
  assert (projects_sound Example.flap1) as Hwf.
  { intros k pro.
    assert (Projects Example.flap1 = {[ "env" := project.mk 1 1 ]}) as ->
      by (vm_compute; reflexivity).
    intros [_ <-]%lookup_singleton_Some.
    exists (object.mk "1a5" "env" "" "" 0 0). vm_compute. reflexivity. }
  assert (listing_lost Refused.server (clock Example.flap1)
            ("U" +:+ "/genericobjects?name=" +:+ "g" +:+ "&kind="
             +:+ genericobjectKind)) as Hl by exact I.
  split; [exact Hwf|]. split; [exact Hl|].
  split.
  - exact (proj1 (backup_only_talks "U" "g" Refused.server Example.flap1) Hwf).
  - exact (proj2 (backup_only_talks "U" "g" Refused.server Example.flap1) Hl).
Defined.

(** ** metric.describe and metric.collect (lines 1024-1082) *)

(** The order in which both functions go through the vectors. *)
Definition exposition_order : list metricVar :=
  [infinityWorksStacksHealth; infinityWorksStacksState;
   infinityWorksServicesScale; infinityWorksServicesHealth;
   infinityWorksServicesState; infinityWorksHostsState;
   infinityWorksHostAgentsState;
   extendingTotalStackBootstrap; extendingTotalStackFailure;
   extendingTotalServiceBootstrap; extendingTotalServiceFailure;
   extendingTotalInstanceBootstrap; extendingTotalInstanceFailure;
   extendingInstanceBootstrapMsCost;
   extendingInstanceHeartbeat; extendingServiceHeartbeat;
   extendingStackHeartbeat].

(** [describe]: the descriptor of each vector goes down the channel. *)
Definition metric_describe : list metricVar := exposition_order.

(** [collect]: each vector sends its series down the channel, a series as
    its labels and its value. *)
Definition metric_collect (s : state) : list (metricVar * labels * Z) :=
  v ← exposition_order;
  (λ p, (v, p.1, p.2)) <$> map_to_list (registry s v).

Lemma exposition_order_all v : v ∈ exposition_order.
Proof. unfold exposition_order. destruct v; repeat first [left | right]. Qed.

Lemma exposition_order_NoDup : NoDup exposition_order.
Proof.
  unfold exposition_order.
  repeat (apply NoDup_cons_2;
          [intros H; repeat (apply elem_of_cons in H as [H|H]; [done|]);
           by apply elem_of_nil in H|]).
  apply NoDup_nil_2.
Qed.

Lemma collect_over (l : list metricVar) (s : state) v ls x :
  (v, ls, x) ∈ (v' ← l; (λ p, (v', p.1, p.2)) <$> map_to_list (registry s v'))
  ↔ v ∈ l ∧ value s v ls = Some x.
Proof.
  rewrite list_elem_of_bind. unfold value. split.
  - intros (v' & Hin & Hv'). apply list_elem_of_fmap in Hin as ([ls' x'] & E & Hin).
    cbn in E. injection E as -> -> ->. split; [done|].
    by apply elem_of_map_to_list in Hin.
  - intros [Hv Hx]. exists v. split; [|done].
    apply list_elem_of_fmap. exists (ls, x). split; [done|].
    by apply elem_of_map_to_list.
Qed.

Lemma collect_NoDup (l : list metricVar) (s : state) :
  NoDup l →
  NoDup (v ← l; (λ p, (v, p.1, p.2)) <$> map_to_list (registry s v)).
Proof.
  induction 1 as [|v l Hv Hl IH]; [apply NoDup_nil_2|].
  cbn [mbind list_bind]. apply NoDup_app. split_all.
  - apply NoDup_fmap_2; [|apply NoDup_map_to_list].
    intros [a b] [a' b'] E. cbn in E. congruence.
  - intros [[v' ls] x] H1 H2.
    apply list_elem_of_fmap in H1 as ([ls' x'] & E & _). cbn in E.
    injection E as -> -> ->.
    apply (collect_over l s) in H2 as [H2 _]. done.
  - exact IH.
Qed.

(** A scrape of /metrics is handed every series of every vector, each one
    once, with the value it holds, and nothing else; and every vector is
    described, once. *)
Theorem collect_exposes_every_series :
  (∀ s v ls x, (v, ls, x) ∈ metric_collect s ↔ value s v ls = Some x) ∧
  (∀ s, NoDup (metric_collect s)) ∧
  (∀ v, v ∈ metric_describe) ∧ NoDup metric_describe.
Proof.
  split_all.
  - intros s v ls x. unfold metric_collect. rewrite collect_over.
    split; [by intros [_ H]|]. intros H. split; [apply exposition_order_all|done].
  - intros s. apply collect_NoDup, exposition_order_NoDup.
  - apply exposition_order_all.
  - apply exposition_order_NoDup.
Qed.

(** ** Heartbeats *)

Definition all_ones (m : vec) : Prop := ∀ ls x, m !! ls = Some x → x = 1.

(** Every series of the three heartbeat gauges reads 1. *)
Definition beating (s : state) : Prop :=
  all_ones (registry s extendingStackHeartbeat) ∧
  all_ones (registry s extendingServiceHeartbeat) ∧
  all_ones (registry s extendingInstanceHeartbeat).

Lemma all_ones_empty : all_ones ∅.
Proof. intros ls x H. by rewrite lookup_empty in H. Qed.

Lemma all_ones_set ls m : all_ones m → all_ones (vec_set ls 1 m).
Proof.
  intros H ls' x. unfold vec_set. destruct (decide (ls' = ls)) as [->|Hne].
  - rewrite lookup_insert_eq. congruence.
  - rewrite lookup_insert_ne by done. apply H.
Qed.

Definition keeps_beating (s s' : state) : Prop := beating s → beating s'.

#[global] Instance keeps_beating_preorder : PreOrder keeps_beating.
Proof. split; [by intros s H | intros s1 s2 s3 H1 H2 H; by apply H2, H1]. Qed.

Ltac close_beating :=
  let H := fresh "H" in
  unfold keeps_beating, beating; cbn [registry];
  intros (? & ? & ?); split_all; reg_at;
  first [ assumption | by apply all_ones_set ].

Lemma beating_tick s : keeps_beating s (set_clock S s).
Proof. destruct s. by intros H. Qed.

Lemma beating_log l : preserves keeps_beating (log l).
Proof. intros s. unfold log. wp_run. by intros H. Qed.

Lemma beating_service_fetch_instance o d :
  preserves keeps_beating (service_fetch_instance o d).
Proof. intros s. unfold service_fetch_instance. wp_run. all: close_beating. Qed.

Lemma beating_stack_fetch_service o d :
  preserves keeps_beating (stack_fetch_service o d).
Proof. intros s. unfold stack_fetch_service. wp_run. all: close_beating. Qed.

Lemma beating_project_fetch_stack o d :
  preserves keeps_beating (project_fetch_stack o d).
Proof. intros s. unfold project_fetch_stack. wp_run. all: close_beating. Qed.

Lemma beating_metric_fetch_host d : preserves keeps_beating (metric_fetch_host d).
Proof. intros s. unfold metric_fetch_host. wp_run. close_beating. Qed.

Lemma beating_metric_upsert_project d :
  preserves keeps_beating (metric_upsert_project d).
Proof. intros s. unfold metric_upsert_project. wp_run. all: close_beating. Qed.

Lemma beating_metric_fetch_reset s : beating (metric_fetch_reset s).2.
Proof.
  destruct s as [objs ims svms stms prjs reg clk tr].
  unfold beating. split_all; apply all_ones_empty.
Qed.

(** After a scrape, however it went and whatever the vectors held before
    it, every series of the stack, service and instance heartbeats reads 1:
    a heartbeat is there for a node that the scrape has seen, and says no
    more than that. *)
Theorem heartbeats_read_one cattleURL hideSys W fuel s v ls x :
  v = extendingStackHeartbeat ∨ v = extendingServiceHeartbeat
  ∨ v = extendingInstanceHeartbeat →
  value (metric_fetch cattleURL hideSys W fuel s).2 v ls = Some x →
  x = 1.
Proof.
  intros Hv Hx.
  assert (beating (metric_fetch cattleURL hideSys W fuel s).2) as (H1 & H2 & H3).
  { rewrite metric_fetch_from_reset.
    assert (preserves keeps_beating
              (metric_fetch_hosts cattleURL W;;
               metric_fetch_projects cattleURL hideSys W fuel)) as H.
    { apply preserves_bind; [apply _| |intros _].
      - apply preserves_metric_fetch_hosts;
          auto using beating_tick, beating_log, beating_metric_fetch_host
            with typeclass_instances.
      - apply preserves_metric_fetch_projects;
          auto using beating_tick, beating_log,
            beating_service_fetch_instance, beating_stack_fetch_service,
            beating_project_fetch_stack, beating_metric_upsert_project
            with typeclass_instances. }
    apply (H (metric_fetch_reset s).2), beating_metric_fetch_reset. }
  destruct Hv as [->|[->| ->]]; [by apply (H1 ls)|by apply (H2 ls)|by apply (H3 ls)].
Qed.

Lemma heartbeats_read_one_witness :
  value Example.flap1 extendingStackHeartbeat ["env"; "web"; "false"; "stack"]
    = Some 1 ∧ (1 = 1)%Z.
Proof.
  assert (value (metric_fetch "U" false
                   (Example.server [Example.web "active" "healthy"]) 5
                   newMetric).2
            extendingStackHeartbeat ["env"; "web"; "false"; "stack"] = Some 1)
    as H by (vm_compute; reflexivity).
  split; [exact H|].
  exact (heartbeats_read_one "U" false
           (Example.server [Example.web "active" "healthy"]) 5 newMetric
           extendingStackHeartbeat _ 1 (or_introl eq_refl) H).
Defined.

(** ** A restart brings nothing back *)

(** Whatever the server holds and however the recovery ends, nothing of a
    checkpoint is in the model or in the vectors afterwards: no vector has
    moved, no map of services or of instances was made, every map of stacks
    is what it was or is empty, and every object has the counts it had or
    none.  The counts that a backup has written do not come back with a
    restart. *)
Theorem recovery_brings_nothing_back cattleURL genObjName W s :
  let s' := (metric_recover cattleURL genObjName W s).2 in
  (∀ v ls, value s' v ls = value s v ls) ∧
  serviceMaps s' = serviceMaps s ∧
  instanceMaps s' = instanceMaps s ∧
  (∀ m c, stackMaps s' !! m = Some c → stackMaps s !! m = Some c ∨ c = ∅) ∧
  (∀ l o', objects s' !! l = Some o' →
     (∃ o, objects s !! l = Some o ∧
        object.BootstrapCount o' = object.BootstrapCount o ∧
        object.FailureCount o' = object.FailureCount o)
     ∨ (object.BootstrapCount o' = 0 ∧ object.FailureCount o' = 0)).
Proof.
  intros s'.
  destruct (preserves_metric_recover brought_nothing nothing_tick nothing_log
              nothing_upsert cattleURL genObjName W s) as [Hr Hsv Hin Hst Ho].
  fold s' in Hr, Hsv, Hin, Hst, Ho.
  split_all; try done. intros v ls. unfold value. by rewrite Hr.
Qed.

(** ** The recovery and a server that fails *)

(** A transport that fails before there is a response. *)
Definition no_response (r : transport) : Prop :=
  r = BadRequest ∨ r = Failed None.

Lemma get_no_response W url s :
  no_response (http_get W (clock s) url) →
  rancherClient_get W url s
  = (Panic, set_trace (cons (Logged LvlError)) (set_clock S s)).
Proof.
  unfold rancherClient_get, exchange_get, bind, log, emit, modify, panic.
  destruct s as [objs ims svms stms prjs reg clk tr]. cbn.
  by intros [-> | ->].
Qed.

(** When the listing of the projects gets no response at startup, the panic
    of [get] is taken by the deferred recover of [recover]: two errors are
    logged, [recover] returns, the model and the vectors are what they
    were, and no checkpoint was asked for. *)
Theorem recover_survives_lost_listing cattleURL genObjName W s :
  no_response (http_get W (clock s) (cattleURL +:+ "/projects")) →
  (metric_recover cattleURL genObjName W s).1 = Done tt ∧
  clock (metric_recover cattleURL genObjName W s).2 = S (clock s) ∧
  only_talked s (metric_recover cattleURL genObjName W s).2
    [Logged LvlError; Logged LvlError].
Proof.
  intros H.
  assert (metric_recover cattleURL genObjName W s
          = (Done tt, set_trace (cons (Logged LvlError))
                        (set_trace (cons (Logged LvlError)) (set_clock S s))))
    as ->.
  { unfold metric_recover, recovered, bind.
    rewrite (get_no_response W _ s H).
    by destruct s as [objs ims svms stms prjs reg clk tr]. }
  by destruct s as [objs ims svms stms prjs reg clk tr].
Qed.

Lemma recover_survives_lost_listing_witness :
  no_response (http_get Refused.server (clock newMetric) ("U" +:+ "/projects")) ∧
  (metric_recover "U" "g" Refused.server newMetric).1 = Done tt ∧
  clock (metric_recover "U" "g" Refused.server newMetric).2
    = S (clock newMetric) ∧
  only_talked newMetric (metric_recover "U" "g" Refused.server newMetric).2
    [Logged LvlError; Logged LvlError].
Proof.
  assert (no_response (http_get Refused.server (clock newMetric)
                         ("U" +:+ "/projects"))) as H by (by right).
  split; [exact H|].
  exact (recover_survives_lost_listing "U" "g" Refused.server newMetric H).
Defined.

(** When the projects were listed at startup and the query for the
    checkpoints of a project then gets no response, [get] panics in the
    goroutine of that project, where nothing recovers it: the recovery does
    not return, the process goes down with the panic. *)
Theorem recover_crashes_on_lost_query cattleURL genObjName W s b d l :
  projects_sound s →
  http_get W (clock s) (cattleURL +:+ "/projects") = Replied b →
  target.Data (decoded b) = Some <$> (d :: l) →
  (∀ url, no_response (http_get W (S (clock s)) url)) →
  (metric_recover cattleURL genObjName W s).1 = Panic.
Proof.
  intros Hwf Hget Hdata Hlost.
  enough (wp (metric_recover cattleURL genObjName W) s (λ r _, r = Panic))
    as H by exact H.
  unfold metric_recover. apply wp_bind, wp_recovered, wp_bind.
  destruct (rancherClient_get_replied W _ s b Hget) as (n0 & Hr & H0 & _).
  pose proof (get_clock W (cattleURL +:+ "/projects") s) as Hclk.
  unfold wp at 1. rewrite Hr. cbn [after].
  set (s1 := (rancherClient_get W _ s).2) in *.
  assert (projects_sound s1) as Hwf1.
  { intros k pro Hk. destruct H0 as (_ & Ho & _ & _ & _ & Hp & _).
    rewrite Ho. apply (Hwf k). by rewrite <- Hp. }
  rewrite Hdata.
  set (I := λ (done : list (option targetData.t)) (s' : state),
    projects_sound s' ∧ clock s' = clock s1 ∧
    (done ≠ [] → Projects s' ≠ ∅)).
  eapply wp_wand.
  - apply (wp_forM_inv _ I (Some <$> d :: l) [] s1); [by split_all|].
    intros done x s2 Hx (Hwf2 & Hc2 & _).
    apply list_elem_of_fmap in Hx as (d0 & -> & _).
    unfold metric_upsert_item. apply wp_bind, wp_deref. cbn [after].
    eapply wp_wand; [by apply upsert_sound|].
    intros r s3 (-> & Hwf3 & Hc3 & [pro Hpro]). split; [done|].
    split; [done|]. split; [congruence|]. intros _ E.
    by rewrite E, lookup_empty in Hpro.
  - intros r s2 (-> & Hwf2 & Hc2 & Hne). cbn [after].
    unfold range_Projects. apply wp_bind, wp_gets. cbn [after].
    destruct (map_to_list (Projects s2)) as [|[k pro] rest] eqn:E.
    { apply map_to_list_empty_iff in E. by destruct Hne. }
    assert (Projects s2 !! k = Some pro) as Hk.
    { apply elem_of_map_to_list. rewrite E. left. }
    destruct (Hwf2 k pro Hk) as [po Hpo].
    cbn [forM snd]. apply wp_bind.
    unfold recover_project. apply wp_bind, wp_load_object. rewrite Hpo.
    cbn [after]. cbv zeta. apply wp_bind.
    unfold wp at 1. rewrite get_no_response; [done|].
    rewrite Hc2, Hclk. apply Hlost.
Qed.

Module Flaky.

(** A server that lists the environment once and then stops answering. *)
Definition server : world :=
  mkWorld
    (λ n url,
       match n with
       | O => Example.page [Example.node "env" "active" "healthy" "1a5" "project"]
       | S _ => Failed None
       end)
    (λ _ _ _, PostFailed).

End Flaky.

Lemma recover_crashes_on_lost_query_witness :
  projects_sound newMetric ∧
  http_get Flaky.server (clock newMetric) ("U" +:+ "/projects")
    = Example.page [Example.node "env" "active" "healthy" "1a5" "project"] ∧
  (∀ url, no_response (http_get Flaky.server (S (clock newMetric)) url)) ∧
  (metric_recover "U" "g" Flaky.server newMetric).1 = Panic.
Proof.
  assert (projects_sound newMetric) as Hwf.
  { intros k pro. unfold newMetric. cbn [Projects]. by rewrite lookup_empty. }
  assert (∀ url, no_response (http_get Flaky.server (S (clock newMetric)) url))
    as Hlost by (intros url; by right).
  split; [exact Hwf|]. split; [reflexivity|]. split; [exact Hlost|].
  exact (recover_crashes_on_lost_query "U" "g" Flaky.server newMetric _
           (Example.node "env" "active" "healthy" "1a5" "project") []
           Hwf eq_refl eq_refl Hlost).
Defined.

(** ** A startup time that wraps *)

(** The entry under the name [k] of the map at [m]. *)
Definition entry {A} (ms : gmap loc (gmap string A)) (m : loc) (k : string)
  : option A := ms !! m ≫= (.!! k).

(** The startup time is a difference of [uint64]: for an instance first
    seen running (or stopped) whose createdTS is later than its
    firstRunningTS, the model stores the difference plus 2^64 as the
    StartupTime of the instance, and the startup gauge is handed the
    [float64] of that number. *)
Theorem startup_time_wraps o d s oo po ppo m :
  objects s !! service.object o = Some oo →
  objects s !! stack.object (service.parent o) = Some po →
  objects s !! project.object (stack.parent (service.parent o)) = Some ppo →
  instanceMaps s !! service.Instances o = Some m →
  m !! targetData.Name d = None →
  targetData.State d = "running" ∨ targetData.State d = "stopped" →
  0 < targetData.FirstRunningTS d < targetData.CreatedTS d →
  targetData.CreatedTS d < 18446744073709551616 →
  wp (service_fetch_instance o d) s (λ _ s',
    let wrapped := targetData.FirstRunningTS d - targetData.CreatedTS d
                   + 18446744073709551616 in
    value s' extendingInstanceBootstrapMsCost
      [object.Name ppo; object.Name po; object.Name oo; targetData.Name d;
       FormatBool (targetData.System d); targetData.Type_ d]
      = Some (float64 wrapped) ∧
    ∃ ins, entry (instanceMaps s') (service.Instances o) (targetData.Name d)
             = Some ins ∧ instance.StartupTime ins = wrapped).
Proof.
  intros Hoo Hpo Hppo Hm Hnone Hst Hts Hc.
  eapply wp_wand; [by apply (instance_first_sight o d s oo po ppo m)|].
  intros r s'. cbv zeta.
  destruct (instance_first_rule _) as [b f].
  intros (_ & _ & Hin & _ & _ & _ & _ & _ & Hg & _).
  assert (measures true (targetData.State d) = true) as Hyes.
  { unfold measures. apply bool_decide_eq_true. intuition idtac. }
  rewrite Hyes in Hin, Hg. unfold measured in Hg.
  rewrite bool_decide_true in Hg by lia. cbn [andb] in Hg.
  rewrite sub64_wraps in Hg by lia. split; [apply Hg|].
  eexists. unfold entry. rewrite Hin, lookup_insert_eq. cbn [mbind option_bind].
  rewrite lookup_insert_eq. split; [done|]. cbn [instance.StartupTime].
  unfold startup_of. rewrite decide_True by lia. apply sub64_wraps; lia.
Qed.

Lemma startup_time_wraps_witness :
  let d := Cluster.box "running" 5000 2000 in
  let s := Cluster.bare in
  objects s !! 3%positive = Some (object.mk "1s1" "api" "active" "service" 1 0) ∧
  instanceMaps s !! 1%positive = Some ∅ ∧
  0 < targetData.FirstRunningTS d < targetData.CreatedTS d ∧
  wp (service_fetch_instance Cluster.api d) s (λ _ s',
    value s' extendingInstanceBootstrapMsCost
      ["env"; "web"; "api"; "api-1"; "false"; "container"]
      = Some 18446744073709549568 ∧
    ∃ ins, entry (instanceMaps s') 1%positive "api-1" = Some ins ∧
           instance.StartupTime ins = 18446744073709548616).
Proof.
  cbv zeta.
  assert (objects Cluster.bare !! 3%positive
          = Some (object.mk "1s1" "api" "active" "service" 1 0)) as Hoo
    by (vm_compute; reflexivity).
  assert (objects Cluster.bare !! 2%positive
          = Some (object.mk "1st1" "web" "active" "stack" 1 0)) as Hpo
    by (vm_compute; reflexivity).
  assert (objects Cluster.bare !! 1%positive
          = Some (object.mk "1a5" "env" "" "" 0 0)) as Hppo
    by (vm_compute; reflexivity).
  assert (instanceMaps Cluster.bare !! 1%positive = Some ∅) as Hm
    by (vm_compute; reflexivity).
  assert (0 < targetData.FirstRunningTS (Cluster.box "running" 5000 2000)
          < targetData.CreatedTS (Cluster.box "running" 5000 2000)) as Hts
    by (cbn; lia).
  split; [exact Hoo|]. split; [exact Hm|]. split; [exact Hts|].
  exact (startup_time_wraps Cluster.api (Cluster.box "running" 5000 2000)
           Cluster.bare _ _ _ _ Hoo Hpo Hppo Hm eq_refl (or_introl eq_refl)
           Hts ltac:(cbn; lia)).
Defined.

(** ** The model only grows *)

(** No cycle of fetch or backup takes anything out of the model: every
    project, every entry of a map of stacks, services or instances and every
    object is still there after any number of cycles, the entries struct for
    struct and the objects under their names.  A node that the server no
    longer lists stays in the model and in the checkpoints. *)
Theorem model_only_grows cattleURL genObjName hideSys (cs : list cycle) s :
  let s' := (run_cycles cattleURL genObjName hideSys cs s).2 in
  Projects s ⊆ Projects s' ∧
  entries_kept (stackMaps s) (stackMaps s') ∧
  entries_kept (serviceMaps s) (serviceMaps s') ∧
  entries_kept (instanceMaps s) (instanceMaps s') ∧
  ∀ l o, objects s !! l = Some o →
    ∃ o', objects s' !! l = Some o' ∧ object.Name o' = object.Name o.
Proof.
  intros s'.
  destruct (summary_run_cycles cattleURL genObjName hideSys cs s)
    as (new & _ & [Ho Hst Hsv Hin Hp] & _).
  split; [done|]. split_all; try by apply entries_kept_intro. done.
Qed.

(** ** The exposed counters *)

(** Every series of [m] is in [m'] with a value that is no smaller. *)
Definition grows_vec (m m' : vec) : Prop :=
  ∀ ls x, m !! ls = Some x → ∃ x', m' !! ls = Some x' ∧ x ≤ x'.

Definition counters_grow (s s' : state) : Prop :=
  ∀ v, is_counter v = true → grows_vec (registry s v) (registry s' v).

Lemma grows_vec_refl m : grows_vec m m.
Proof. intros ls x H. exists x. split; [done|lia]. Qed.

Lemma grows_vec_add m m' ls k :
  0 ≤ k → grows_vec m m' → grows_vec m (vec_add ls k m').
Proof.
  intros Hk H ls' x Hx. destruct (H _ _ Hx) as (x' & Hx' & Hle).
  unfold vec_add. destruct (decide (ls' = ls)) as [->|Hne].
  - rewrite lookup_insert_eq, Hx'. eexists. split; [done|]. cbn. lia.
  - rewrite lookup_insert_ne by done. by exists x'.
Qed.

Lemma grows_vec_touch m m' ls : grows_vec m m' → grows_vec m (vec_touch ls m').
Proof.
  intros H ls' x Hx. destruct (H _ _ Hx) as (x' & Hx' & Hle).
  unfold vec_touch. destruct (m' !! ls) eqn:E; [by exists x'|].
  rewrite lookup_insert_ne by congruence. by exists x'.
Qed.

#[global] Instance counters_grow_preorder : PreOrder counters_grow.
Proof.
  split.
  - intros s v _. apply grows_vec_refl.
  - intros s1 s2 s3 H1 H2 v Hv ls x Hx.
    destruct (H1 v Hv _ _ Hx) as (x2 & Hx2 & Hle).
    destruct (H2 v Hv _ _ Hx2) as (x3 & Hx3 & Hle'). exists x3.
    split; [done|lia].
Qed.

Ltac close_grow :=
  let v := fresh "v" in let Hv := fresh "Hv" in
  intros v Hv; destruct v; try discriminate Hv; cbn [registry]; reg_at;
  repeat first [ apply grows_vec_add; [lia|] | apply grows_vec_touch ];
  apply grows_vec_refl.

Lemma grow_tick s : counters_grow s (set_clock S s).
Proof. destruct s. by intros v _; apply grows_vec_refl. Qed.

Lemma grow_log l : preserves counters_grow (log l).
Proof. intros s. unfold log. wp_run. close_grow. Qed.

Lemma grow_posted url b c e : preserves counters_grow (emit (Posted url b c e)).
Proof. intros s. wp_run. close_grow. Qed.

Lemma grow_service_fetch_instance o d :
  preserves counters_grow (service_fetch_instance o d).
Proof. intros s. unfold service_fetch_instance. wp_run. all: close_grow. Qed.

Lemma grow_stack_fetch_service o d :
  preserves counters_grow (stack_fetch_service o d).
Proof. intros s. unfold stack_fetch_service. wp_run. all: close_grow. Qed.

Lemma grow_project_fetch_stack o d :
  preserves counters_grow (project_fetch_stack o d).
Proof. intros s. unfold project_fetch_stack. wp_run. all: close_grow. Qed.

Lemma grow_metric_fetch_host d : preserves counters_grow (metric_fetch_host d).
Proof. intros s. unfold metric_fetch_host. wp_run. close_grow. Qed.

Lemma grow_metric_upsert_project d :
  preserves counters_grow (metric_upsert_project d).
Proof. intros s. unfold metric_upsert_project. wp_run. all: close_grow. Qed.

Lemma grow_metric_fetch_reset : preserves counters_grow metric_fetch_reset.
Proof. intros s. unfold metric_fetch_reset. wp_run. close_grow. Qed.

Lemma grow_run_cycles cattleURL genObjName hideSys cs :
  preserves counters_grow (run_cycles cattleURL genObjName hideSys cs).
Proof.
  apply preserves_forM; [apply _|]. intros [W fuel|W].
  - apply preserves_metric_fetch; auto using grow_tick, grow_log,
      grow_posted, grow_service_fetch_instance, grow_stack_fetch_service,
      grow_project_fetch_stack, grow_metric_fetch_host,
      grow_metric_upsert_project, grow_metric_fetch_reset
      with typeclass_instances.
  - apply preserves_metric_backup; auto using grow_tick, grow_log,
      grow_posted with typeclass_instances.
Qed.

(** The [uint64] fields of a node can wrap, the exposed counters cannot:
    whatever the servers answer and however the cycles end, a series of one
    of the six counter vectors that exists before a run of scrapes and
    backups exists after it, with a value that is no smaller.  The reset at
    the start of a scrape never reaches a counter vector. *)
Theorem exposed_counters_never_go_down cattleURL genObjName hideSys
    (cs : list cycle) s v ls x :
  is_counter v = true →
  value s v ls = Some x →
  ∃ x', value (run_cycles cattleURL genObjName hideSys cs s).2 v ls = Some x'
        ∧ x ≤ x'.
Proof.
  intros Hv Hx.
  exact (grow_run_cycles cattleURL genObjName hideSys cs s v Hv ls x Hx).
Qed.

Lemma exposed_counters_never_go_down_witness :
  value Example.flap1 extendingTotalStackBootstrap
    ["env"; "web"; "false"; "stack"] = Some 1 ∧
  ∃ x', value (run_cycles "U" "g" false
                 [Scrape (Example.server [Example.web "upgrading" "healthy"]) 5;
                  Backup (Example.server []);
                  Scrape (Example.server []) 5]
                 Example.flap1).2
          extendingTotalStackBootstrap ["env"; "web"; "false"; "stack"]
        = Some x' ∧ 1 ≤ x'.
Proof.
  assert (value Example.flap1 extendingTotalStackBootstrap
            ["env"; "web"; "false"; "stack"] = Some 1) as H
    by (vm_compute; reflexivity).
  split; [exact H|].
  exact (exposed_counters_never_go_down "U" "g" false _ Example.flap1
           extendingTotalStackBootstrap _ 1 eq_refl H).
Defined.
